(** * QuizMe-BE: the question generation and text ingestion pipeline

    A shallow embedding of the parts of the QuizMe back end that turn an
    uploaded document into quiz questions and score the answers:

    - [JsString], [Regex], [Json]: the strings, the regular expressions
      and the decoded JSON values the code works on;
    - [FileProcessing]: [sanitizeText] and [truncateText]
      (file-processing.service.ts);
    - [OpenAI]: [validateChoices], [isValidQuestionStructure] and
      [validateAndFormatQuestions] (openai.service.ts);
    - [Questions]: [generateMultipleQuestions] (questions.service.ts);
    - [Practice]: the correctness judgment of [submitAnswer]
      (practice.service.ts).

    JavaScript strings are sequences of UTF-16 code units, and every string
    operation of the source ([length], [substring], [lastIndexOf], the
    regular expressions) works on code units; they are modelled as lists
    of code units. *)

From Stdlib Require Import List ZArith NArith Bool Lia Ascii String.
From Stdlib Require Import Permutation DecimalString.
Import ListNotations.

(* ================================================================== *)
(** * JavaScript strings *)
(* ================================================================== *)

Module JsString.

(** A string is the list of its UTF-16 code units. *)
Definition jsstring := list N.

(** Code units of a code point (a surrogate pair above the BMP). *)
Definition utf16 (cp : N) : list N :=
  if (cp <? 0x10000)%N then [cp]
  else [(0xD800 + (cp - 0x10000) / 0x400)%N; (0xDC00 + (cp - 0x10000) mod 0x400)%N].

(** Decoder of the UTF-8 bytes of a literal of this file; a truncated
    sequence decodes to U+FFFD. *)
Fixpoint utf8_decode (bs : list N) : list N :=
  match bs with
  | [] => []
  | b0 :: r0 =>
    if (b0 <? 0x80)%N then b0 :: utf8_decode r0
    else if (b0 <? 0xE0)%N then
      match r0 with
      | b1 :: r1 => utf16 ((b0 mod 0x20) * 0x40 + b1 mod 0x40)%N ++ utf8_decode r1
      | _ => [0xFFFD%N]
      end
    else if (b0 <? 0xF0)%N then
      match r0 with
      | b1 :: b2 :: r2 =>
        utf16 ((b0 mod 0x10) * 0x1000 + (b1 mod 0x40) * 0x40 + b2 mod 0x40)%N
          ++ utf8_decode r2
      | _ => [0xFFFD%N]
      end
    else
      match r0 with
      | b1 :: b2 :: b3 :: r3 =>
        utf16 ((b0 mod 0x8) * 0x40000 + (b1 mod 0x40) * 0x1000
               + (b2 mod 0x40) * 0x40 + b3 mod 0x40)%N
          ++ utf8_decode r3
      | _ => [0xFFFD%N]
      end
  end.

(** [js "..."] is the JavaScript string written as that literal. *)
Definition js (s : string) : jsstring :=
  utf8_decode (map N_of_ascii (list_ascii_of_string s)).

Definition eqb (a b : jsstring) : bool :=
  if list_eq_dec N.eq_dec a b then true else false.

Definition length (s : jsstring) : Z := Z.of_nat (List.length s).

(** The class [\s] of a regular expression, which is also what [trim]
    strips: WhiteSpace and LineTerminator of ECMAScript. *)
Definition is_whitespace (c : N) : bool :=
  ((9 <=? c) && (c <=? 13) || (c =? 32) || (c =? 0xA0) || (c =? 0x1680)
   || (0x2000 <=? c) && (c <=? 0x200A)
   || (c =? 0x2028) || (c =? 0x2029) || (c =? 0x202F) || (c =? 0x205F)
   || (c =? 0x3000) || (c =? 0xFEFF))%N.

Fixpoint startsWith (p s : jsstring) : bool :=
  match p, s with
  | [], _ => true
  | _ :: _, [] => false
  | a :: p', b :: s' => (a =? b)%N && startsWith p' s'
  end.

(** [s.includes(p)] *)
Fixpoint includes (s p : jsstring) : bool :=
  startsWith p s ||
  match s with
  | [] => false
  | _ :: r => includes r p
  end.

(** Number of positions of [s] at which [p] occurs. *)
Fixpoint occurrences (s p : jsstring) : nat :=
  (if startsWith p s then 1 else 0) +
  match s with
  | [] => 0
  | _ :: r => occurrences r p
  end.

Fixpoint trimStart (s : jsstring) : jsstring :=
  match s with
  | c :: r => if is_whitespace c then trimStart r else s
  | [] => []
  end.

Fixpoint trimEnd (s : jsstring) : jsstring :=
  match s with
  | [] => []
  | c :: r =>
    match trimEnd r with
    | [] => if is_whitespace c then [] else [c]
    | kept => c :: kept
    end
  end.

(** [s.trim()] *)
Definition trim (s : jsstring) : jsstring := trimEnd (trimStart s).

Definition clamp (s : jsstring) (i : Z) : Z := Z.max 0 (Z.min i (length s)).

(** [s.substring(a, b)]: both indices clamped to the string, swapped when
    out of order. *)
Definition substring (s : jsstring) (a b : Z) : jsstring :=
  let lo := Z.min (clamp s a) (clamp s b) in
  let hi := Z.max (clamp s a) (clamp s b) in
  firstn (Z.to_nat (hi - lo)) (skipn (Z.to_nat lo) s).

(** [s.substring(a)] *)
Definition substringFrom (s : jsstring) (a : Z) : jsstring :=
  substring s a (length s).

(** Scan of [lastIndexOf]: [i] is the index of the head of [s], [acc] the
    last index found so far. *)
Fixpoint lastIndexOf_from (s p : jsstring) (i acc : Z) : Z :=
  match s with
  | [] => if startsWith p [] then i else acc
  | _ :: r => lastIndexOf_from r p (i + 1) (if startsWith p s then i else acc)
  end.

(** [s.lastIndexOf(p)]: the greatest index at which [p] occurs, or -1. *)
Definition lastIndexOf (s p : jsstring) : Z := lastIndexOf_from s p 0 (-1).

End JsString.

Import JsString.

(* ================================================================== *)
(** * The regular expressions of the source *)
(* ================================================================== *)

Module Regex.

(** The patterns of the source are sequences of literals, [c+] and [c*]
    for a character class [c], and the anchor [$] (no [m] flag: the end of
    the string). *)
Inductive atom :=
| Lit (l : jsstring)
| Plus (c : N -> bool)
| Star (c : N -> bool)
| Eos.

Definition regex := list atom.

(** Length of the longest prefix of [s] whose code units are all in [c]. *)
Fixpoint span (c : N -> bool) (s : jsstring) : nat :=
  match s with
  | x :: r => if c x then S (span c r) else 0
  | [] => 0
  end.

(** Greedy choice with backtracking: the count [lo + n] first, down to
    [lo]. *)
Fixpoint try_down (k : nat -> option nat) (lo n : nat) : option nat :=
  match k (lo + n)%nat with
  | Some r => Some r
  | None => match n with
            | O => None
            | S m => try_down k lo m
            end
  end.

(** [match_at re s]: the number of code units of the match of [re] at the
    head of [s], if there is one. *)
Fixpoint match_at (re : regex) (s : jsstring) : option nat :=
  match re with
  | [] => Some O
  | Lit l :: re' =>
    if startsWith l s
    then option_map (Nat.add (List.length l)) (match_at re' (skipn (List.length l) s))
    else None
  | Plus c :: re' =>
    match span c s with
    | O => None
    | S n => try_down (fun k => option_map (Nat.add k) (match_at re' (skipn k s))) 1 n
    end
  | Star c :: re' =>
    try_down (fun k => option_map (Nat.add k) (match_at re' (skipn k s))) 0 (span c s)
  | Eos :: re' =>
    match s with
    | [] => match_at re' []
    | _ :: _ => None
    end
  end.

(** [s.replace(/re/g, by)] for a replacement [by] without [$]: the matches
    are found from left to right, the search resuming after each match
    ([skip] counts the code units of the current match still to drop); an
    empty match is replaced and the scan moves one code unit on. *)
Fixpoint replaceAll_go (re : regex) (by_ : jsstring) (skip : nat) (s : jsstring)
  : jsstring :=
  match s with
  | [] => match skip, match_at re [] with
          | O, Some _ => by_
          | _, _ => []
          end
  | c :: r =>
    match skip with
    | S k => replaceAll_go re by_ k r
    | O => match match_at re s with
           | Some (S n) => by_ ++ replaceAll_go re by_ n r
           | Some O => by_ ++ c :: replaceAll_go re by_ O r
           | None => c :: replaceAll_go re by_ O r
           end
    end
  end.

Definition replaceAll (re : regex) (by_ : jsstring) (s : jsstring) : jsstring :=
  replaceAll_go re by_ O s.

(** [s.replace(/re/, by)], without the [g] flag: the first match only. *)
Fixpoint replaceFirst (re : regex) (by_ : jsstring) (s : jsstring) : jsstring :=
  match match_at re s with
  | Some n => by_ ++ skipn n s
  | None => match s with
            | [] => []
            | c :: r => c :: replaceFirst re by_ r
            end
  end.

(** Whether [re] matches somewhere in [s]. *)
Fixpoint test (re : regex) (s : jsstring) : bool :=
  match match_at re s with
  | Some _ => true
  | None => match s with
            | [] => false
            | _ :: r => test re r
            end
  end.

(** [\s] and [[^\s,.]] *)
Definition ws : N -> bool := is_whitespace.
Definition token_char (c : N) : bool :=
  negb (is_whitespace c) && negb (c =? 44)%N && negb (c =? 46)%N.

End Regex.

Import Regex.

(* ================================================================== *)
(** * file-processing.service.ts *)
(* ================================================================== *)

Module FileProcessing.

Definition MAX_CHARS : Z := 10000.

Record TruncateResult := mkTruncateResult {
  tr_text : jsstring;
  tr_wasTruncated : bool
}.

Record SanitizeResult := mkSanitizeResult {
  text : jsstring;
  wasTruncated : bool;
  originalLength : Z;
  truncatedLength : Z
}.

Definition sentenceEndings : list jsstring :=
  Eval vm_compute in
    [js ". "; [46; 10]; js "! "; [33; 10]; js "? "; [63; 10]]%N.

Definition paragraphBreaks : list jsstring :=
  Eval vm_compute in [[10; 10]; [10; 32]]%N.

(** The loop [for (const p of patterns) { const index =
    searchText.lastIndexOf(p); if (index > last) last = index; }] from
    [last = -1]. *)
Definition lastOfAny (searchText : jsstring) (patterns : list jsstring) : Z :=
  fold_left
    (fun last p =>
       let index := lastIndexOf searchText p in
       if (last <? index)%Z then index else last)
    patterns (-1)%Z.

(** [Math.max(0, MAX_CHARS - Math.floor(MAX_CHARS * 0.2))]: the floor of
    the floating-point product is 2000. *)
Definition searchStart : Z := Z.max 0 (MAX_CHARS - MAX_CHARS * 2 / 10).

(** The text in which [truncateText] looks for a breaking point. *)
Definition searchWindow (text : jsstring) : jsstring :=
  substringFrom (substring text 0 MAX_CHARS) searchStart.

Definition truncateText (text : jsstring) : TruncateResult :=
  if (length text <=? MAX_CHARS)%Z then mkTruncateResult text false
  else
    let truncated := substring text 0 MAX_CHARS in
    let searchText := substringFrom truncated searchStart in
    let lastSentenceEnd := lastOfAny searchText sentenceEndings in
    let truncated :=
      if (-1 <? lastSentenceEnd)%Z
      then substring truncated 0 (searchStart + lastSentenceEnd + 1)
      else truncated in
    let truncated :=
      if (lastSentenceEnd =? -1)%Z then
        let lastParagraphEnd := lastOfAny searchText paragraphBreaks in
        if (-1 <? lastParagraphEnd)%Z
        then substring truncated 0 (searchStart + lastParagraphEnd)
        else truncated
      else truncated in
    mkTruncateResult (trim truncated) true.

(** [/\s+/g] and [/\n\s*\n/g] *)
Definition re_whitespace_run : regex := [Plus ws].
Definition re_blank_lines : regex := [Lit [10%N]; Star ws; Lit [10%N]].

(** The [sanitized] text of [sanitizeText], before truncation. *)
Definition sanitized (text : jsstring) : jsstring :=
  trim (replaceAll re_blank_lines [10%N]
          (replaceAll re_whitespace_run [32%N] text)).

Definition sanitizeText (text : jsstring) : SanitizeResult :=
  let sanitized := sanitized text in
  let originalLength := length sanitized in
  let result := truncateText sanitized in
  mkSanitizeResult (tr_text result) (tr_wasTruncated result)
                   originalLength (length (tr_text result)).

End FileProcessing.

(* ================================================================== *)
(** * Values decoded by JSON.parse *)
(* ================================================================== *)

Module Json.

(** [number] is the type of JavaScript numbers; the only operation the
    source applies to one is [toString], a parameter of [OpenAI]. *)
#[warnings="-register-all"]
Inductive json (number : Type) : Type :=
| JNull
| JBool (b : bool)
| JNum (n : number)
| JStr (s : jsstring)
| JArr (items : list (json number))
| JObj (fields : list (jsstring * json number)).

Arguments JNull {number}.
Arguments JBool {number} b.
Arguments JNum {number} n.
Arguments JStr {number} s.
Arguments JArr {number} items.
Arguments JObj {number} fields.

Section Access.
Context {number : Type}.

(** [obj[k]] on a decoded object: of two fields with one name, JSON.parse
    keeps the later. *)
Definition get (fields : list (jsstring * json number)) (k : jsstring)
  : option (json number) :=
  fold_left (fun found kv => if eqb (fst kv) k then Some (snd kv) else found)
            fields None.

(** [k in obj] *)
Definition has (fields : list (jsstring * json number)) (k : jsstring) : bool :=
  match get fields k with
  | Some _ => true
  | None => false
  end.

(** [v === s] for a string [s] *)
Definition is_string (s : jsstring) (v : json number) : bool :=
  match v with
  | JStr t => eqb t s
  | _ => false
  end.

(** [answers.includes(label)] for a string [label] *)
Definition includes_label (answers : list (json number)) (label : jsstring) : bool :=
  existsb (is_string label) answers.

(** [v ?? d], where [v] is [undefined] when absent *)
Definition nullish (v : option (json number)) (d : json number) : json number :=
  match v with
  | None | Some JNull => d
  | Some x => x
  end.

End Access.

(** [toString] on the numbers that are integers below 2^53 in absolute
    value, each of which a number holds exactly: the decimal digits, after
    a minus sign below zero. From 2^53 on [toString] prints the shortest
    digits that give the number back, followed by zeros, which this does
    not. *)
Definition integerToString (z : Z) : jsstring :=
  js (NilEmpty.string_of_int (Z.to_int z)).

End Json.

Import Json.

(* ================================================================== *)
(** * openai.service.ts *)
(* ================================================================== *)

Module OpenAI.

Inductive QuestionType :=
| MULTIPLE_CHOICE | TRUE_FALSE | MULTIPLE_RESPONSE | MATCHING | COMPLETION.

Definition QuestionType_eqb (a b : QuestionType) : bool :=
  match a, b with
  | MULTIPLE_CHOICE, MULTIPLE_CHOICE | TRUE_FALSE, TRUE_FALSE
  | MULTIPLE_RESPONSE, MULTIPLE_RESPONSE | MATCHING, MATCHING
  | COMPLETION, COMPLETION => true
  | _, _ => false
  end.

(** The errors thrown: [Invalid question structure at index i],
    [Invalid choice structure at index i], and the
    [Failed to generate questions] of [generateQuestions]. *)
Inductive error :=
| InvalidQuestionStructure (index : nat)
| InvalidChoiceStructure (index : nat)
| FailedToGenerateQuestions.

Inductive result (A : Type) :=
| Ok (a : A)
| Err (e : error).

Arguments Ok {A} a.
Arguments Err {A} e.

Definition bind {A B} (r : result A) (k : A -> result B) : result B :=
  match r with
  | Ok a => k a
  | Err e => Err e
  end.

(** [l.map((x, index) => f(x, index))] for an [f] that may throw: the
    first exception, in the order of the elements, ends the call. *)
Fixpoint mapi_from {A B} (f : A -> nat -> result B) (index : nat) (l : list A)
  : result (list B) :=
  match l with
  | [] => Ok []
  | x :: r =>
    bind (f x index) (fun y =>
    bind (mapi_from f (S index) r) (fun ys => Ok (y :: ys)))
  end.

Definition mapi {A B} (f : A -> nat -> result B) (l : list A) : result (list B) :=
  mapi_from f O l.

Definition BLANK : jsstring := Eval vm_compute in js "_____".
Definition LABELS : list jsstring := Eval vm_compute in [js "A"; js "B"; js "C"; js "D"].

(** The patterns of the blank repair. *)
Definition re_la : regex :=
  Eval vm_compute in [Lit (js "là"); Plus ws; Plus token_char].
Definition re_bang : regex :=
  Eval vm_compute in [Lit (js "bằng"); Plus ws; Plus token_char].
Definition re_co : regex :=
  Eval vm_compute in [Lit (js "có"); Plus ws; Plus token_char].
Definition re_duoc_goi_la : regex :=
  Eval vm_compute in
    [Lit (js "được"); Plus ws; Lit (js "gọi"); Plus ws; Lit (js "là"); Plus ws;
     Plus token_char].
Definition re_final_question_mark : regex :=
  Eval vm_compute in [Lit (js "?"); Eos].

(** The fallback of the blank repair: before a final question mark, or
    else at the end. *)
Definition appendBlank (fixedQuestion : jsstring) : jsstring :=
  if negb (includes fixedQuestion BLANK) then
    let fixedQuestion :=
      replaceFirst re_final_question_mark (js " _____?") fixedQuestion in
    if negb (includes fixedQuestion BLANK)
    then fixedQuestion ++ js " _____"
    else fixedQuestion
  else fixedQuestion.

(** The four substitutions of [validateAndFormatQuestions]. *)
Definition substituteBlanks (question : jsstring) : jsstring :=
  let fixedQuestion := question in
  let fixedQuestion := replaceAll re_la (js "là _____") fixedQuestion in
  let fixedQuestion := replaceAll re_bang (js "bằng _____") fixedQuestion in
  let fixedQuestion := replaceAll re_co (js "có _____") fixedQuestion in
  let fixedQuestion :=
    replaceAll re_duoc_goi_la (js "được gọi là _____") fixedQuestion in
  fixedQuestion.

(** The question text of a COMPLETION question. *)
Definition fixCompletionQuestion (question : jsstring) : jsstring :=
  if negb (includes question BLANK)
  then appendBlank (substituteBlanks question)
  else question.

Record Choice := mkChoice {
  label : jsstring;
  content : jsstring
}.

Section WithNumber.
Context {number : Type} (toString : number -> jsstring).

Local Abbreviation json := (json number).

Record GeneratedQuestion := mkGeneratedQuestion {
  question : jsstring;
  choices : list Choice;
  correctAnswers : list json;
  explanation : json;
  type : QuestionType
}.

(** A question that passed [isValidQuestionStructure]. *)
Record RawQuestion := mkRawQuestion {
  raw_question : jsstring;
  raw_choices : list json;
  raw_correctAnswers : json;
  raw_explanation : option json
}.

(** [isValidQuestionStructure], returning the fields it has checked. *)
Definition isValidQuestionStructure (q : json) : option RawQuestion :=
  match q with
  | JObj obj =>
    match get obj (js "question"), get obj (js "choices"),
          get obj (js "correctAnswers") with
    | Some (JStr question), Some (JArr choices), Some correctAnswers =>
      Some (mkRawQuestion question choices correctAnswers
                          (get obj (js "explanation")))
    | _, _, _ => None
    end
  | _ => None
  end.

(** The conditional of [validateChoices] on a [label] or [content]. *)
Definition stringOrNumber (v : option json) : jsstring :=
  match v with
  | Some (JStr s) => s
  | Some (JNum n) => toString n
  | _ => []
  end.

Definition validateChoice (choice : json) (index : nat) : result Choice :=
  match choice with
  | JObj choiceObj =>
    if has choiceObj (js "label") && has choiceObj (js "content")
    then Ok (mkChoice (stringOrNumber (get choiceObj (js "label")))
                      (stringOrNumber (get choiceObj (js "content"))))
    else Err (InvalidChoiceStructure index)
  | _ => Err (InvalidChoiceStructure index)
  end.

Definition validateChoices (choices : list json) : result (list Choice) :=
  mapi validateChoice choices.

(** [Array.isArray(x) ? x : [x]] *)
Definition asArray (correctAnswers : json) : list json :=
  match correctAnswers with
  | JArr items => items
  | x => [x]
  end.

(** The MULTIPLE_RESPONSE case. *)
Definition fixMultipleResponse (formattedCorrectAnswers : list json) : list json :=
  let formattedCorrectAnswers :=
    if (List.length formattedCorrectAnswers <? 2)%nat then
      let formattedCorrectAnswers :=
        if (List.length formattedCorrectAnswers =? 1)%nat then
          let availableLabels :=
            filter (fun label => negb (includes_label formattedCorrectAnswers label))
                   LABELS in
          match availableLabels with
          | first :: _ => formattedCorrectAnswers ++ [JStr first]
          | [] => formattedCorrectAnswers
          end
        else formattedCorrectAnswers in
      if (List.length formattedCorrectAnswers <? 2)%nat
      then [JStr (js "A"); JStr (js "B")]
      else formattedCorrectAnswers
    else formattedCorrectAnswers in
  if (3 <? List.length formattedCorrectAnswers)%nat
  then firstn 3 formattedCorrectAnswers
  else formattedCorrectAnswers.

(** The body of the [map] of [validateAndFormatQuestions]. *)
Definition formatQuestion (questionType : QuestionType) (q : json) (index : nat)
  : result GeneratedQuestion :=
  match isValidQuestionStructure q with
  | None => Err (InvalidQuestionStructure index)
  | Some q =>
    bind (validateChoices (raw_choices q)) (fun formattedChoices =>
    let formattedCorrectAnswers := asArray (raw_correctAnswers q) in
    let explanation := nullish (raw_explanation q) (JStr []) in
    Ok
      match questionType with
      | TRUE_FALSE =>
        let formattedChoices :=
          [mkChoice (js "True") (js "Đúng"); mkChoice (js "False") (js "Sai")] in
        let first := nullish (hd_error formattedCorrectAnswers) (JStr []) in
        let formattedCorrectAnswers :=
          if negb (is_string (js "True") first || is_string (js "False") first)
          then [JStr (js "True")]
          else formattedCorrectAnswers in
        mkGeneratedQuestion (raw_question q) formattedChoices
                            formattedCorrectAnswers explanation questionType
      | MULTIPLE_CHOICE =>
        mkGeneratedQuestion (raw_question q) formattedChoices
          [nullish (hd_error formattedCorrectAnswers) (JStr (js "A"))]
          explanation questionType
      | MULTIPLE_RESPONSE =>
        mkGeneratedQuestion (raw_question q) formattedChoices
          (fixMultipleResponse formattedCorrectAnswers) explanation questionType
      | MATCHING =>
        mkGeneratedQuestion (raw_question q) formattedChoices
          (map (fun choice => JStr (label choice)) formattedChoices)
          explanation questionType
      | COMPLETION =>
        mkGeneratedQuestion (fixCompletionQuestion (raw_question q))
          formattedChoices
          [nullish (hd_error formattedCorrectAnswers) (JStr (js "A"))]
          explanation questionType
      end)
  end.

Definition validateAndFormatQuestions (questions : list json)
           (questionType : QuestionType) : result (list GeneratedQuestion) :=
  mapi (formatQuestion questionType) questions.

End WithNumber.

Arguments GeneratedQuestion number : clear implicits.
Arguments RawQuestion number : clear implicits.

End OpenAI.

Import OpenAI.

(* ================================================================== *)
(** * questions.service.ts *)
(* ================================================================== *)

Module Questions.

Record GenerateQuestionsRequest := mkRequest {
  req_content : jsstring;
  req_subject : jsstring;
  req_questionCount : Z;
  req_questionType : QuestionType;
  req_tone : option jsstring;
  req_difficulty : option jsstring
}.

Record GenerateMultipleQuestionsDto := mkDto {
  subject : jsstring;
  questionCount : Z;
  questionTypes : list QuestionType;
  tone : option jsstring;
  difficulty : option jsstring;
  title : option jsstring
}.

(** [Math.ceil(a / b)] for integers [a] and [b > 0]. *)
Definition ceilDiv (a b : Z) : Z := (a + b - 1) / b.

(** [l.slice(0, n)] *)
Definition slice0 {A} (l : list A) (n : Z) : list A :=
  let n := if (n <? 0)%Z then Z.max 0 (Z.of_nat (List.length l) + n) else n in
  firstn (Z.to_nat n) l.

Section WithNumber.
Context {number : Type} (toString : number -> jsstring).

Local Abbreviation json := (json number).
Local Abbreviation GeneratedQuestion := (GeneratedQuestion number).

(** The generative model is outside the program. The world holds the
    answers it will give to the calls to come, each one already reduced
    by [extractJson] and [JSON.parse] to its [questions] array ([None]
    when the call, the extraction or the decoding fails), and the requests
    it has received, the latest first. *)
Record World := mkWorld {
  answers : list (option (list json));
  requests : list GenerateQuestionsRequest
}.

(** Computations that read the model and may throw. *)
Definition M (A : Type) : Type := World -> result A * World.

Definition ret {A} (a : A) : M A := fun w => (Ok a, w).

Definition mbind {A B} (m : M A) (k : A -> M B) : M B :=
  fun w =>
    match m w with
    | (Ok a, w') => k a w'
    | (Err e, w') => (Err e, w')
    end.

Notation "x <- m ;; k" := (mbind m (fun x => k))
  (at level 61, m at next level, right associativity).

(** [OpenAIService.generateQuestions]: one call of the model; whatever is
    thrown is thrown again as [Failed to generate questions]. *)
Definition generateQuestions (request : GenerateQuestionsRequest)
  : M (list GeneratedQuestion) :=
  fun w =>
    let w' := mkWorld (tl (answers w)) (request :: requests w) in
    match answers w with
    | Some questions :: _ =>
      match validateAndFormatQuestions toString questions
                                       (req_questionType request) with
      | Ok generated => (Ok generated, w')
      | Err _ => (Err FailedToGenerateQuestions, w')
      end
    | _ => (Err FailedToGenerateQuestions, w')
    end.

(** The loop [while (q.correctAnswers.length < 2 && availableLabels.length
    > 0) q.correctAnswers.push(availableLabels.shift())]. *)
Fixpoint pushWhileShort (correctAnswers : list json) (availableLabels : list jsstring)
  : list json :=
  if (List.length correctAnswers <? 2)%nat then
    match availableLabels with
    | first :: rest => pushWhileShort (correctAnswers ++ [JStr first]) rest
    | [] => correctAnswers
    end
  else correctAnswers.

(** The three substitutions of [generateMultipleQuestions]. *)
Definition substituteBlanks3 (question : jsstring) : jsstring :=
  let fixedQuestion := question in
  let fixedQuestion := replaceAll re_la (js "là _____") fixedQuestion in
  let fixedQuestion := replaceAll re_bang (js "bằng _____") fixedQuestion in
  let fixedQuestion := replaceAll re_co (js "có _____") fixedQuestion in
  fixedQuestion.

(** The body of the [map] that gives [validatedQuestions]. *)
Definition fixQuestion (q : GeneratedQuestion) : GeneratedQuestion :=
  let q :=
    if QuestionType_eqb (type q) MULTIPLE_RESPONSE
       && (List.length (correctAnswers q) <? 2)%nat
    then
      let availableLabels :=
        filter (fun label => negb (includes_label (correctAnswers q) label))
               LABELS in
      let pushed := pushWhileShort (correctAnswers q) availableLabels in
      let pushed :=
        if (List.length pushed <? 2)%nat
        then [JStr (js "A"); JStr (js "B")]
        else pushed in
      mkGeneratedQuestion (question q) (choices q) pushed (explanation q) (type q)
    else q in
  let q :=
    if QuestionType_eqb (type q) COMPLETION && negb (includes (question q) BLANK)
    then
      mkGeneratedQuestion (appendBlank (substituteBlanks3 (question q)))
                          (choices q) (correctAnswers q) (explanation q) (type q)
    else q in
  q.

(** The loop over [questionTypes], [all] being [allGeneratedQuestions]. *)
Fixpoint generateEach (content : jsstring) (dto : GenerateMultipleQuestionsDto)
         (questionsPerType : Z) (types : list QuestionType)
         (all : list GeneratedQuestion) : M (list GeneratedQuestion) :=
  match types with
  | [] => ret all
  | questionType :: rest =>
    generatedQuestions <-
      generateQuestions
        (mkRequest content (subject dto) questionsPerType questionType
                   (tone dto) (difficulty dto)) ;;
    generateEach content dto questionsPerType rest (all ++ generatedQuestions)
  end.

(** [generateMultipleQuestions], from the text extracted from the file to
    the [finalQuestions] handed to [saveQuestionSet]. *)
Definition generateMultipleQuestions (rawText : jsstring)
           (dto : GenerateMultipleQuestionsDto) : M (list GeneratedQuestion) :=
  let sanitizeResult := FileProcessing.sanitizeText rawText in
  let questionsPerType :=
    ceilDiv (questionCount dto) (Z.of_nat (List.length (questionTypes dto))) in
  allGeneratedQuestions <-
    generateEach (FileProcessing.text sanitizeResult) dto questionsPerType
                 (questionTypes dto) [] ;;
  let validatedQuestions := map fixQuestion allGeneratedQuestions in
  let finalQuestions := slice0 validatedQuestions (questionCount dto) in
  ret finalQuestions.

End WithNumber.

Arguments World number : clear implicits.
Arguments M number A : clear implicits.

End Questions.

(* ================================================================== *)
(** * practice.service.ts *)
(* ================================================================== *)

Module Practice.

(** [x < y] on strings: the order of the code units, a proper prefix
    first. *)
Fixpoint ltb (x y : jsstring) : bool :=
  match x, y with
  | _, [] => false
  | [], _ :: _ => true
  | a :: x', b :: y' => (a <? b)%N || ((a =? b)%N && ltb x' y')
  end.

(** [l.sort()] on strings. The order is total, so the result, a sorted
    permutation of [l], does not depend on the algorithm; this one
    inserts each string after the strings below it. *)
Fixpoint insert (x : jsstring) (l : list jsstring) : list jsstring :=
  match l with
  | [] => [x]
  | y :: r => if ltb y x then y :: insert x r else x :: l
  end.

Definition sort (l : list jsstring) : list jsstring := fold_right insert [] l.

(** ** JSON.stringify of an array of strings *)

Definition hexDigit (d : N) : N := if (d <? 10)%N then (48 + d)%N else (87 + d)%N.

(** [UnicodeEscape]: a backslash, [u] and four lower-case hexadecimal
    digits. *)
Definition unicodeEscape (c : N) : jsstring :=
  [92; 117; hexDigit (c / 4096 mod 16); hexDigit (c / 256 mod 16);
   hexDigit (c / 16 mod 16); hexDigit (c mod 16)]%N.

Definition isLeadingSurrogate (c : N) : bool := ((0xD800 <=? c) && (c <=? 0xDBFF))%N.
Definition isTrailingSurrogate (c : N) : bool := ((0xDC00 <=? c) && (c <=? 0xDFFF))%N.

(** What [QuoteJSONString] writes for a code unit that is not part of a
    surrogate pair. *)
Definition quoteUnit (c : N) : jsstring :=
  if (c =? 8)%N then [92; 98]%N
  else if (c =? 9)%N then [92; 116]%N
  else if (c =? 10)%N then [92; 110]%N
  else if (c =? 12)%N then [92; 102]%N
  else if (c =? 13)%N then [92; 114]%N
  else if (c =? 34)%N then [92; 34]%N
  else if (c =? 92)%N then [92; 92]%N
  else if (c <? 32)%N || isLeadingSurrogate c || isTrailingSurrogate c
       then unicodeEscape c
       else [c].

(** The code points of the string in turn: a surrogate pair is written as
    it is, a lone surrogate escaped. *)
Fixpoint quoteBody (s : jsstring) : jsstring :=
  match s with
  | [] => []
  | c :: r =>
    if isLeadingSurrogate c then
      match r with
      | d :: r' =>
        if isTrailingSurrogate d then c :: d :: quoteBody r'
        else quoteUnit c ++ quoteBody r
      | [] => quoteUnit c
      end
    else quoteUnit c ++ quoteBody r
  end.

Definition quoteJSONString (s : jsstring) : jsstring :=
  34%N :: quoteBody s ++ [34%N].

(** The elements, separated by commas. *)
Fixpoint elements (l : list jsstring) : jsstring :=
  match l with
  | [] => []
  | x :: r =>
    quoteJSONString x ++
    match r with
    | [] => []
    | _ :: _ => 44%N :: elements r
    end
  end.

(** [JSON.stringify(l)] for an array of strings. *)
Definition stringify (l : list jsstring) : jsstring :=
  91%N :: elements l ++ [93%N].

(** The judgment of [submitAnswer]: [correctAnswerLabels] are the stored
    [choiceLabel]s, [selectedChoices] the submitted labels. *)
Definition isCorrect (correctAnswerLabels selectedChoices : list jsstring) : bool :=
  let correctAnswerLabels := sort correctAnswerLabels in
  let selectedLabels := sort selectedChoices in
  eqb (stringify correctAnswerLabels) (stringify selectedLabels).

End Practice.

Import Questions Practice.

(* ================================================================== *)
(** * Facts about strings and the regular expressions *)
(* ================================================================== *)

Lemma eqb_eq (a b : jsstring) : eqb a b = true <-> a = b.
Proof.
  unfold eqb. destruct (list_eq_dec N.eq_dec a b); split; congruence.
Qed.

Lemma eqb_refl (a : jsstring) : eqb a a = true.
Proof. now apply eqb_eq. Qed.

Lemma eqb_neq (a b : jsstring) : eqb a b = false <-> a <> b.
Proof.
  unfold eqb. destruct (list_eq_dec N.eq_dec a b); split; congruence.
Qed.

Lemma includes_app_r (a b p : jsstring) :
  includes b p = true -> includes (a ++ b) p = true.
Proof.
  intros H. induction a as [|x a IH]; simpl; [assumption|].
  rewrite IH. apply orb_true_r.
Qed.

Lemma startsWith_app (p s t : jsstring) :
  startsWith p s = true -> startsWith p (s ++ t) = true.
Proof.
  revert s. induction p as [|a p IH]; intros [|b s]; simpl; try easy.
  intros H. apply andb_true_iff in H as [-> H]. simpl. now apply IH.
Qed.

Lemma includes_app_l (a b p : jsstring) :
  includes a p = true -> includes (a ++ b) p = true.
Proof.
  induction a as [|x a IH]; simpl.
  - rewrite orb_false_r. destruct p; [|discriminate].
    intros _. destruct b; reflexivity.
  - intros H. apply orb_true_iff in H as [H|H].
    + apply (startsWith_app _ _ b) in H. simpl in H. now rewrite H.
    + rewrite (IH H). apply orb_true_r.
Qed.

(** Where the pattern matches nowhere, [replace] returns its argument. *)
Lemma replaceAll_no_match (re : regex) (by_ s : jsstring) :
  test re s = false -> replaceAll re by_ s = s.
Proof.
  unfold replaceAll. induction s as [|c r IH]; simpl.
  - destruct (match_at re []); [discriminate|reflexivity].
  - destruct (match_at re (c :: r)); [discriminate|].
    intros H. now rewrite IH.
Qed.

(** Where it matches somewhere, the replacement is in the result. *)
Lemma replaceAll_match (re : regex) (by_ s m : jsstring) :
  includes by_ m = true -> test re s = true ->
  includes (replaceAll re by_ s) m = true.
Proof.
  intros Hby. unfold replaceAll. induction s as [|c r IH]; simpl.
  - destruct (match_at re []); [intros _; assumption|discriminate].
  - destruct (match_at re (c :: r)) as [[|n]|].
    + intros _. now apply includes_app_l.
    + intros _. now apply includes_app_l.
    + intros H. change (includes (c :: replaceAll_go re by_ 0 r) m = true).
      simpl. rewrite (IH H). apply orb_true_r.
Qed.

Lemma replaceAll_keeps (re : regex) (by_ s m : jsstring) :
  includes by_ m = true -> includes s m = true ->
  includes (replaceAll re by_ s) m = true.
Proof.
  intros Hby Hs. destruct (test re s) eqn:E.
  - now apply replaceAll_match.
  - now rewrite replaceAll_no_match.
Qed.

Lemma replaceFirst_no_match (re : regex) (by_ s : jsstring) :
  test re s = false -> replaceFirst re by_ s = s.
Proof.
  induction s as [|c r IH]; simpl.
  - destruct (match_at re []); [discriminate|reflexivity].
  - destruct (match_at re (c :: r)); [discriminate|].
    intros H. now rewrite IH.
Qed.

(* ================================================================== *)
(** * The normalizer of openai.service.ts *)
(* ================================================================== *)

Lemma mapi_from_Forall2 {A B} (f : A -> nat -> result B) (l : list A) :
  forall index out,
    mapi_from f index l = Ok out ->
    Forall2 (fun x y => exists i, f x i = Ok y) l out.
Proof.
  induction l as [|x l IH]; simpl; intros index out H.
  - injection H as <-. constructor.
  - destruct (f x index) as [y|e] eqn:Ef; simpl in H; [|discriminate].
    destruct (mapi_from f (S index) l) as [ys|e] eqn:Em; simpl in H; [|discriminate].
    injection H as <-. constructor; eauto.
Qed.

Lemma appendBlank_includes (s : jsstring) : includes (appendBlank s) BLANK = true.
Proof.
  unfold appendBlank.
  destruct (includes s BLANK) eqn:E1; simpl; [assumption|].
  destruct (includes (replaceFirst re_final_question_mark (js " _____?") s) BLANK)
    eqn:E2; simpl; [assumption|].
  apply includes_app_r. reflexivity.
Qed.

Lemma fixCompletionQuestion_includes (s : jsstring) :
  includes (fixCompletionQuestion s) BLANK = true.
Proof.
  unfold fixCompletionQuestion.
  destruct (includes s BLANK) eqn:E; simpl; [assumption|apply appendBlank_includes].
Qed.

(** Replaces the literals [js "..."] of the goal by their code units. *)
Ltac norm_js :=
  repeat match goal with
         | |- context [js ?s] =>
           let v := eval vm_compute in (js s) in change (js s) with v
         end.

Ltac norm_js_in H :=
  repeat match type of H with
         | context [js ?s] =>
           let v := eval vm_compute in (js s) in change (js s) with v in H
         end.

(** The choices every TRUE_FALSE question is given. *)
Definition trueFalseChoices : list Choice :=
  [mkChoice (js "True") (js "Đúng"); mkChoice (js "False") (js "Sai")].

Section Normalizer.
Context {number : Type} (toString : number -> jsstring).

Local Abbreviation json := (json number).
Local Abbreviation GeneratedQuestion := (GeneratedQuestion number).



(** [l] is the first of the labels A, B, C, D, in the order of strings,
    that is not the answer [x]. *)
Definition firstUnused (x : json) (l : jsstring) : Prop :=
  In l LABELS /\ is_string l x = false /\
  forall l', In l' LABELS -> ltb l' l = true -> is_string l' x = true.

(** What the MULTIPLE_RESPONSE policy makes of the [supplied] answers. *)
Definition multipleResponseRule (supplied answers : list json) : Prop :=
  (2 <= List.length answers <= 3)%nat /\
  (supplied = [] -> answers = [JStr (js "A"); JStr (js "B")]) /\
  (forall x, supplied = [x] ->
             exists l, firstUnused x l /\ answers = [x; JStr l]) /\
  (supplied = [JStr (js "A")] -> answers = [JStr (js "A"); JStr (js "B")]) /\
  (3 < List.length supplied -> answers = firstn 3 supplied)%nat /\
  (2 <= List.length supplied <= 3 -> answers = supplied)%nat.

(** The answers a decoded question supplies, read off the question
    itself: the entries of its [correctAnswers] field when the field holds
    an array, and the value of the field, alone, when it holds anything
    else. *)
Inductive suppliedAnswers : json -> list json -> Prop :=
| supplied_entries (fields : list (jsstring * json)) (items : list json) :
    get fields (js "correctAnswers") = Some (JArr items) ->
    suppliedAnswers (JObj fields) items
| supplied_value (fields : list (jsstring * json)) (v : json) :
    get fields (js "correctAnswers") = Some v ->
    (forall items, v <> JArr items) ->
    suppliedAnswers (JObj fields) [v].

(** What the normalizer reads as the answers of a question is what the
    question supplies. *)
Lemma isValidQuestionStructure_supplied (q : json) (raw : RawQuestion number) :
  isValidQuestionStructure q = Some raw ->
  suppliedAnswers q (asArray (raw_correctAnswers raw)).
Proof.
  unfold isValidQuestionStructure.
  destruct q as [| | | | |fields]; try discriminate.
  destruct (get fields (js "question")) as [[| | |text| |]|]; try discriminate.
  destruct (get fields (js "choices")) as [[| | | |cs|]|]; try discriminate.
  destruct (get fields (js "correctAnswers")) as [v|] eqn:Ev;
    [|discriminate].
  intros E. injection E as <-. cbn [raw_correctAnswers].
  destruct v; cbn [asArray];
    try (apply supplied_value; [exact Ev|discriminate]).
  now apply supplied_entries.
Qed.

Lemma formatQuestion_Ok (ty : QuestionType) (q : json) (index : nat)
      (out : GeneratedQuestion) :
  formatQuestion toString ty q index = Ok out ->
  exists raw formattedChoices,
    isValidQuestionStructure q = Some raw /\
    validateChoices toString (raw_choices raw) = Ok formattedChoices /\
    type out = ty /\
    explanation out = nullish (raw_explanation raw) (JStr []) /\
    question out =
      match ty with
      | COMPLETION => fixCompletionQuestion (raw_question raw)
      | _ => raw_question raw
      end /\
    choices out =
      match ty with
      | TRUE_FALSE => trueFalseChoices
      | _ => formattedChoices
      end /\
    correctAnswers out =
      let supplied := asArray (raw_correctAnswers raw) in
      match ty with
      | TRUE_FALSE =>
        let first := nullish (hd_error supplied) (JStr []) in
        if is_string (js "True") first || is_string (js "False") first
        then supplied else [JStr (js "True")]
      | MULTIPLE_RESPONSE => fixMultipleResponse supplied
      | MATCHING => map (fun choice => JStr (label choice)) formattedChoices
      | _ => [nullish (hd_error supplied) (JStr (js "A"))]
      end.
Proof.
  unfold formatQuestion. intros H.
  destruct (isValidQuestionStructure q) as [raw|]; [|discriminate].
  destruct (validateChoices toString (raw_choices raw)) as [cs|e] eqn:Ecs;
    [|discriminate].
  simpl in H. injection H as <-. exists raw, cs.
  destruct ty; simpl; repeat split; try reflexivity; try assumption.
  match goal with |- context [orb ?a ?b] => destruct (orb a b) end; reflexivity.
Qed.

Lemma is_string_true (s : jsstring) (v : json) :
  is_string s v = true -> v = JStr s.
Proof.
  destruct v; simpl; try discriminate. intros H. apply eqb_eq in H. now subst.
Qed.

Lemma fixMultipleResponse_rule (supplied : list json) :
  multipleResponseRule supplied (fixMultipleResponse supplied).
Proof.
  unfold multipleResponseRule. norm_js.
  destruct supplied as [|a [|b [|c [|d l]]]].
  - cbn. repeat split; try lia; try discriminate; try reflexivity.
  - assert (Hone : exists l, firstUnused a l /\
                             fixMultipleResponse [a] = [a; JStr l]).
    { unfold fixMultipleResponse, firstUnused, LABELS, includes_label. simpl.
      destruct (is_string [65%N] a) eqn:EA; simpl.
      - apply is_string_true in EA. subst a. simpl.
        exists [66%N]. split; [|reflexivity]. split; [simpl; tauto|].
        split; [reflexivity|].
        intros l' [<-|[<-|[<-|[<-|[]]]]]; simpl; intros; try discriminate; reflexivity.
      - exists [65%N]. split; [|reflexivity]. split; [simpl; tauto|].
        split; [assumption|].
        intros l' [<-|[<-|[<-|[<-|[]]]]]; simpl; intros; discriminate. }
    destruct Hone as (l & Hl & E). rewrite E. simpl.
    repeat split; try lia; try discriminate.
    + intros x Hx. injection Hx as <-. eauto.
    + intros Ha. injection Ha as ->. destruct Hl as (Hin & Hno & Hmin).
      specialize (Hmin [65%N]). simpl in Hin, Hno, Hmin.
      destruct Hin as [<-|[<-|[<-|[<-|[]]]]]; simpl in *; try discriminate;
        try reflexivity;
        (specialize (Hmin (or_introl eq_refl) eq_refl); discriminate).
  - cbn. repeat split; try lia; try discriminate; try reflexivity.
  - cbn. repeat split; try lia; try discriminate; try reflexivity.
  - cbn. repeat split; try lia; try discriminate; try reflexivity.
Qed.

(** The second repair pass changes no question the normalizer has
    produced. *)
Lemma fixQuestion_formatted (ty : QuestionType) (q : json) (index : nat)
      (out : GeneratedQuestion) :
  formatQuestion toString ty q index = Ok out -> fixQuestion out = out.
Proof.
  intros H. apply formatQuestion_Ok in H.
  destruct H as (raw & cs & _ & _ & Hty & _ & Hq & _ & Hca).
  unfold fixQuestion.
  assert (H1 : QuestionType_eqb (type out) MULTIPLE_RESPONSE
               && (List.length (correctAnswers out) <? 2)%nat = false).
  { rewrite Hty. destruct ty; try reflexivity. simpl.
    rewrite Hca. simpl.
    destruct (fixMultipleResponse_rule (asArray (raw_correctAnswers raw))) as [Hl _].
    apply Nat.ltb_ge. lia. }
  rewrite H1.
  assert (H2 : QuestionType_eqb (type out) COMPLETION
               && negb (includes (question out) BLANK) = false).
  { rewrite Hty. destruct ty; try reflexivity. simpl.
    rewrite Hq, fixCompletionQuestion_includes. reflexivity. }
  rewrite H2. reflexivity.
Qed.

Lemma map_fixQuestion_formatted (questions : list json)
      (questionType : QuestionType) (out : list GeneratedQuestion) :
  validateAndFormatQuestions toString questions questionType = Ok out ->
  map fixQuestion out = out.
Proof.
  intros H. apply mapi_from_Forall2 in H.
  induction H as [|q g qs gs [i Hq] _ IH]; [reflexivity|].
  simpl. rewrite IH. f_equal. eapply fixQuestion_formatted; eassumption.
Qed.

End Normalizer.

Lemma In_firstn {A} (n : nat) (l : list A) (x : A) : In x (firstn n l) -> In x l.
Proof.
  revert l. induction n as [|n IH]; intros [|y l]; simpl; try tauto.
  intros [H|H]; auto.
Qed.

Section NormalizerClaims.
Context {number : Type} (toString : number -> jsstring).

Local Abbreviation json := (json number).
Local Abbreviation GeneratedQuestion := (GeneratedQuestion number).

(** ** validateChoices *)

(** An entry on which [validateChoices] does not throw: an object with a
    [label] and a [content] field. *)
Definition isChoiceObject (choice : json) : bool :=
  match choice with
  | JObj fields => has fields (js "label") && has fields (js "content")
  | _ => false
  end.

(** The string a [label] or [content] value becomes. *)
Inductive coerced : json -> jsstring -> Prop :=
| coerced_string (s : jsstring) : coerced (JStr s) s
| coerced_number (n : number) : coerced (JNum n) (toString n)
| coerced_null : coerced JNull []
| coerced_boolean (b : bool) : coerced (JBool b) []
| coerced_array (items : list json) : coerced (JArr items) []
| coerced_object (fields : list (jsstring * json)) : coerced (JObj fields) [].

(** The choice made of an entry. *)
Definition choiceOf (entry : json) (choice : Choice) : Prop :=
  exists fields l c,
    entry = JObj fields /\
    get fields (js "label") = Some l /\ get fields (js "content") = Some c /\
    coerced l (label choice) /\ coerced c (content choice).

Lemma stringOrNumber_coerced (v : json) :
  coerced v (stringOrNumber toString (Some v)).
Proof. destruct v; constructor. Qed.

Lemma validateChoice_object (entry : json) (index : nat) :
  isChoiceObject entry = true ->
  exists choice, validateChoice toString entry index = Ok choice /\
                 choiceOf entry choice.
Proof.
  destruct entry as [| | | | |fields]; try discriminate. simpl.
  intros H. rewrite H. eexists. split; [reflexivity|].
  apply andb_true_iff in H as [Hl Hc]. unfold has in Hl, Hc.
  destruct (get fields (js "label")) as [l|] eqn:El; [|discriminate].
  destruct (get fields (js "content")) as [c|] eqn:Ec; [|discriminate].
  exists fields, l, c. repeat split; try assumption;
    apply stringOrNumber_coerced.
Qed.

Lemma validateChoice_other (entry : json) (index : nat) :
  isChoiceObject entry = false ->
  validateChoice toString entry index = Err (InvalidChoiceStructure index).
Proof.
  destruct entry as [| | | | |fields]; try reflexivity. simpl. now intros ->.
Qed.

Lemma validateChoices_from (choices : list json) :
  forall index,
    (forallb isChoiceObject choices = true ->
     exists out, mapi_from (validateChoice toString) index choices = Ok out /\
                 Forall2 choiceOf choices out) /\
    (forall i entry,
        nth_error choices i = Some entry ->
        isChoiceObject entry = false ->
        forallb isChoiceObject (firstn i choices) = true ->
        mapi_from (validateChoice toString) index choices
        = Err (InvalidChoiceStructure (index + i))).
Proof.
  induction choices as [|entry choices IH]; intros index; split.
  - intros _. exists []. split; [reflexivity|constructor].
  - intros [|i] e H; discriminate.
  - simpl. intros H. apply andb_true_iff in H as [He Hr].
    destruct (validateChoice_object entry index He) as (c & -> & Hc).
    destruct (proj1 (IH (S index)) Hr) as (out & -> & Hout).
    exists (c :: out). split; [reflexivity|now constructor].
  - intros [|i] e Hn He Hbefore; simpl in Hn.
    + injection Hn as ->. simpl. rewrite (validateChoice_other e index He).
      simpl. f_equal. f_equal. lia.
    + simpl in Hbefore. apply andb_true_iff in Hbefore as [H0 Hbefore].
      simpl. destruct (validateChoice_object entry index H0) as (c & -> & _). simpl.
      rewrite (proj2 (IH (S index)) i e Hn He Hbefore). simpl.
      f_equal. f_equal. lia.
Qed.

(** C3, as amended: on an entry that is an object with a [label] and a
    [content] field, [validateChoices] never fails: a string is kept, a
    number becomes its string form and every other value (boolean, null,
    array, object) becomes the empty string. The call fails, naming the
    index, at the first entry that is not such an object. *)
Theorem validateChoices_coerces_or_blanks (choices : list json) :
  (forallb isChoiceObject choices = true ->
   exists out, validateChoices toString choices = Ok out /\
               Forall2 choiceOf choices out) /\
  (forall i entry,
      nth_error choices i = Some entry ->
      isChoiceObject entry = false ->
      forallb isChoiceObject (firstn i choices) = true ->
      validateChoices toString choices = Err (InvalidChoiceStructure i)).
Proof.
  unfold validateChoices, mapi.
  destruct (validateChoices_from choices 0) as [H1 H2]. split; [exact H1|].
  intros i entry Hn He Hb. now rewrite (H2 i entry Hn He Hb).
Qed.

(** ** validateAndFormatQuestions *)

(** C1: every TRUE_FALSE question is given the two fixed choices; its
    answers are the single [True] when the first supplied answer is
    neither [True] nor [False], and otherwise all the supplied answers,
    however many they are and whatever the ones after the first are. *)
Theorem true_false_keeps_all_supplied_answers (questions : list json)
        (out : list GeneratedQuestion) :
  validateAndFormatQuestions toString questions TRUE_FALSE = Ok out ->
  Forall2
    (fun q g =>
       exists raw,
         isValidQuestionStructure q = Some raw /\
         choices g = trueFalseChoices /\
         let supplied := asArray (raw_correctAnswers raw) in
         let first := nullish (hd_error supplied) (JStr []) in
         (first = JStr (js "True") \/ first = JStr (js "False") ->
          correctAnswers g = supplied) /\
         (first <> JStr (js "True") -> first <> JStr (js "False") ->
          correctAnswers g = [JStr (js "True")]))
    questions out.
Proof.
  intros H. apply mapi_from_Forall2 in H.
  eapply Forall2_impl; [|exact H]. clear. intros q g [i H].
  apply formatQuestion_Ok in H.
  destruct H as (raw & cs & Hv & _ & _ & _ & _ & Hc & Ha).
  exists raw. repeat split; try assumption.
  - intros Hfirst. rewrite Ha. cbv zeta.
    destruct Hfirst as [-> | ->]; reflexivity.
  - intros Ht Hf. rewrite Ha. cbv zeta.
    match goal with
    | |- context [is_string (js "True") ?first] =>
      destruct (is_string (js "True") first) eqn:E1;
        [apply is_string_true in E1; contradiction|];
      destruct (is_string (js "False") first) eqn:E2;
        [apply is_string_true in E2; contradiction|]
    end.
    reflexivity.
Qed.

(** C6: a MULTIPLE_RESPONSE question comes out with two or three correct
    answers, which depend on the answers the question supplies, the
    entries of its [correctAnswers] array or else its one [correctAnswers]
    value: A and B when none was supplied; after a single supplied
    answer, the first of A, B, C, D that it is not; the first three of more
    than three; the supplied ones otherwise. *)
Theorem multiple_response_answer_count (questions : list json)
        (out : list GeneratedQuestion) :
  validateAndFormatQuestions toString questions MULTIPLE_RESPONSE = Ok out ->
  Forall2
    (fun q g =>
       exists supplied,
         suppliedAnswers q supplied /\
         multipleResponseRule supplied (correctAnswers g))
    questions out.
Proof.
  intros H. apply mapi_from_Forall2 in H.
  eapply Forall2_impl; [|exact H]. clear. intros q g [i H].
  apply formatQuestion_Ok in H.
  destruct H as (raw & cs & Hv & _ & _ & _ & _ & _ & Ha).
  exists (asArray (raw_correctAnswers raw)).
  split; [now apply isValidQuestionStructure_supplied|]. rewrite Ha.
  apply fixMultipleResponse_rule.
Qed.

(** C10: the repair pass of [generateMultipleQuestions] leaves every list
    that [validateAndFormatQuestions] returns as it is. *)
Theorem second_repair_pass_is_identity (questions : list json)
        (questionType : QuestionType) (out : list GeneratedQuestion) :
  validateAndFormatQuestions toString questions questionType = Ok out ->
  Forall (fun g =>
            (type g = MULTIPLE_RESPONSE -> 2 <= List.length (correctAnswers g))%nat /\
            (type g = COMPLETION -> includes (question g) BLANK = true)) out /\
  map fixQuestion out = out.
Proof.
  intros H. split; [apply mapi_from_Forall2 in H|].
  - induction H as [|q g qs gs [i Hq] _ IH]; constructor; [|exact IH].
    apply formatQuestion_Ok in Hq.
    destruct Hq as (raw & cs & _ & _ & Hty & _ & Hq & _ & Ha).
    rewrite Hty. split; intros ->.
    + rewrite Ha.
      apply (fixMultipleResponse_rule (asArray (raw_correctAnswers raw))).
    + rewrite Hq. apply fixCompletionQuestion_includes.
  - eapply map_fixQuestion_formatted. eassumption.
Qed.

End NormalizerClaims.

Section AnswerLabels.
Context {number : Type} (toString : number -> jsstring).

Local Abbreviation json := (json number).
Local Abbreviation GeneratedQuestion := (GeneratedQuestion number).




End AnswerLabels.

(* ================================================================== *)
(** * The normalizer on concrete questions *)
(* ================================================================== *)

(** A raw question as the model returns it, with the choices A to D. *)
Definition rawChoice (l c : jsstring) : json Z :=
  JObj [(js "label", JStr l); (js "content", JStr c)].

Definition choicesABCD : json Z :=
  JArr [rawChoice (js "A") (js "a"); rawChoice (js "B") (js "b");
        rawChoice (js "C") (js "c"); rawChoice (js "D") (js "d")].

Definition rawQuestion (text : jsstring) (correctAnswers : json Z) : json Z :=
  JObj [(js "question", JStr text); (js "choices", choicesABCD);
        (js "correctAnswers", correctAnswers)].

Definition formattedABCD : list Choice :=
  [mkChoice (js "A") (js "a"); mkChoice (js "B") (js "b");
   mkChoice (js "C") (js "c"); mkChoice (js "D") (js "d")].

(** C3 as stated does not hold: a boolean label and a null content are
    accepted, as empty strings, and no error names the entry. *)
Lemma validateChoices_accepts_boolean_and_null :
  let entry : json Z := JObj [(js "label", JBool true); (js "content", JNull)] in
  validateChoices integerToString [entry] = Ok [mkChoice [] []] /\
  forall i, validateChoices integerToString [entry] <> Err (InvalidChoiceStructure i).
Proof.
  split; [reflexivity|]. intros i. vm_compute. discriminate.
Qed.

Lemma validateChoices_coerces_or_blanks_witness :
  (exists out,
      validateChoices integerToString
        [JObj [(js "label", JNum 1%Z); (js "content", JBool false)]] = Ok out /\
      Forall2 (choiceOf integerToString)
        [JObj [(js "label", JNum 1%Z); (js "content", JBool false)]] out) /\
  validateChoices integerToString
    [JObj [(js "label", JNum 1%Z); (js "content", JBool false)];
     JObj [(js "label", JStr (js "B"))]]
  = Err (InvalidChoiceStructure 1).
Proof.
  split.
  - apply (proj1 (validateChoices_coerces_or_blanks integerToString
              [JObj [(js "label", JNum 1%Z); (js "content", JBool false)]])).
    reflexivity.
  - apply (proj2 (validateChoices_coerces_or_blanks integerToString
              [JObj [(js "label", JNum 1%Z); (js "content", JBool false)];
               JObj [(js "label", JStr (js "B"))]])
             1%nat (JObj [(js "label", JStr (js "B"))]));
      reflexivity.
Defined.

(** Questions that supply no answer, the single answers B and C, the
    latter not in an array, two answers, four, and the single answer A. *)
Definition multipleResponseRaw : list (json Z) :=
  [rawQuestion (js "Q0") (JArr []);
   rawQuestion (js "Q1") (JArr [JStr (js "B")]);
   rawQuestion (js "Q2") (JStr (js "C"));
   rawQuestion (js "Q3") (JArr [JStr (js "C"); JStr (js "D")]);
   rawQuestion (js "Q4") (JArr [JStr (js "D"); JStr (js "C"); JStr (js "B");
                                JStr (js "A")]);
   rawQuestion (js "Q5") (JArr [JStr (js "A")])].

Definition multipleResponseFormatted : list (GeneratedQuestion Z) :=
  map (fun q => mkGeneratedQuestion (fst q) formattedABCD (snd q) (JStr [])
                                    MULTIPLE_RESPONSE)
      [(js "Q0", [JStr (js "A"); JStr (js "B")]);
       (js "Q1", [JStr (js "B"); JStr (js "A")]);
       (js "Q2", [JStr (js "C"); JStr (js "A")]);
       (js "Q3", [JStr (js "C"); JStr (js "D")]);
       (js "Q4", [JStr (js "D"); JStr (js "C"); JStr (js "B")]);
       (js "Q5", [JStr (js "A"); JStr (js "B")])].

Lemma multiple_response_answer_count_witness :
  validateAndFormatQuestions integerToString multipleResponseRaw
                             MULTIPLE_RESPONSE
  = Ok multipleResponseFormatted /\
  Forall2
    (fun q g =>
       exists supplied,
         suppliedAnswers q supplied /\
         multipleResponseRule supplied (correctAnswers g))
    multipleResponseRaw multipleResponseFormatted.
Proof.
  split; [reflexivity|].
  apply (multiple_response_answer_count integerToString). reflexivity.
Defined.

Lemma second_repair_pass_is_identity_witness :
  let out : list (GeneratedQuestion Z) :=
    [mkGeneratedQuestion (js "Thủ đô của Việt Nam là _____ Nội.") formattedABCD
       [JStr (js "A")] (JStr []) COMPLETION] in
  Forall (fun g =>
            (type g = MULTIPLE_RESPONSE -> 2 <= List.length (correctAnswers g))%nat /\
            (type g = COMPLETION -> includes (question g) BLANK = true)) out /\
  map fixQuestion out = out.
Proof.
  apply (second_repair_pass_is_identity integerToString
           [rawQuestion (js "Thủ đô của Việt Nam là Hà Nội.") (JArr [JStr (js "A")])]
           COMPLETION).
  reflexivity.
Defined.

(** C1, the failing input: the first answer is [True], and the second,
    which is neither [True] nor [False], is kept with it. *)
Example true_false_failing_input :
  validateAndFormatQuestions integerToString
    [JObj [(js "question", JStr (js "Q"));
           (js "choices", JArr []);
           (js "correctAnswers", JArr [JStr (js "True"); JStr (js "Maybe")])]]
    TRUE_FALSE
  = Ok [mkGeneratedQuestion (js "Q") trueFalseChoices
          [JStr (js "True"); JStr (js "Maybe")] (JStr []) TRUE_FALSE].
Proof. reflexivity. Qed.

Lemma true_false_keeps_all_supplied_answers_witness :
  Forall2
    (fun q (g : GeneratedQuestion Z) =>
       exists raw,
         isValidQuestionStructure q = Some raw /\
         choices g = trueFalseChoices /\
         let supplied := asArray (raw_correctAnswers raw) in
         let first := nullish (hd_error supplied) (JStr []) in
         (first = JStr (js "True") \/ first = JStr (js "False") ->
          correctAnswers g = supplied) /\
         (first <> JStr (js "True") -> first <> JStr (js "False") ->
          correctAnswers g = [JStr (js "True")]))
    [JObj [(js "question", JStr (js "Q"));
           (js "choices", JArr []);
           (js "correctAnswers", JArr [JStr (js "True"); JStr (js "Maybe")])]]
    [mkGeneratedQuestion (js "Q") trueFalseChoices
       [JStr (js "True"); JStr (js "Maybe")] (JStr []) TRUE_FALSE].
Proof.
  apply (true_false_keeps_all_supplied_answers integerToString). reflexivity.
Defined.



(* ================================================================== *)
(** * The blank repair of a COMPLETION question *)
(* ================================================================== *)

(** The repair as the specification words it, to be compared with
    [substituteBlanks]: the patterns are tried in their order, the first
    one that matches is the only one applied, and only to its first
    match. *)
Definition substituteFirstMatchOnly (question : jsstring) : jsstring :=
  if test re_la question
  then replaceFirst re_la (js "là _____") question
  else if test re_bang question
  then replaceFirst re_bang (js "bằng _____") question
  else if test re_co question
  then replaceFirst re_co (js "có _____") question
  else if test re_duoc_goi_la question
  then replaceFirst re_duoc_goi_la (js "được gọi là _____") question
  else question.

(** Whether one of the four patterns matches somewhere in the text. *)
Definition somePatternMatches (question : jsstring) : bool :=
  test re_la question || test re_bang question || test re_co question
  || test re_duoc_goi_la question.

(** C2 as stated does not hold: both matches of the first pattern are
    replaced, and the third pattern is applied after the first has
    matched, where the specification replaces one token. *)
Lemma repair_replaces_every_match_of_every_pattern :
  let question := js "Sao Hỏa là hành tinh thứ tư, là láng giềng và có hai vệ tinh" in
  includes question BLANK = false /\
  fixCompletionQuestion question
  = js "Sao Hỏa là _____ tinh thứ tư, là _____ giềng và có _____ vệ tinh" /\
  occurrences (fixCompletionQuestion question) BLANK = 3%nat /\
  substituteFirstMatchOnly question
  = js "Sao Hỏa là _____ tinh thứ tư, là láng giềng và có hai vệ tinh" /\
  fixCompletionQuestion question <> substituteFirstMatchOnly question.
Proof.
  vm_compute. repeat split; try reflexivity. discriminate.
Qed.

Lemma substituteBlanks_includes (question : jsstring) :
  somePatternMatches question = true ->
  includes (substituteBlanks question) BLANK = true.
Proof.
  unfold somePatternMatches, substituteBlanks. intros H.
  destruct (test re_la question) eqn:E1.
  { do 3 (apply replaceAll_keeps; [reflexivity|]).
    apply replaceAll_match; [reflexivity|assumption]. }
  rewrite (replaceAll_no_match _ _ _ E1).
  destruct (test re_bang question) eqn:E2.
  { do 2 (apply replaceAll_keeps; [reflexivity|]).
    apply replaceAll_match; [reflexivity|assumption]. }
  rewrite (replaceAll_no_match _ _ _ E2).
  destruct (test re_co question) eqn:E3.
  { do 1 (apply replaceAll_keeps; [reflexivity|]).
    apply replaceAll_match; [reflexivity|assumption]. }
  rewrite (replaceAll_no_match _ _ _ E3).
  simpl in H. apply replaceAll_match; [reflexivity|assumption].
Qed.

Lemma substituteBlanks_no_match (question : jsstring) :
  somePatternMatches question = false -> substituteBlanks question = question.
Proof.
  unfold somePatternMatches, substituteBlanks. intros H.
  apply orb_false_iff in H as [H H4]. apply orb_false_iff in H as [H H3].
  apply orb_false_iff in H as [H1 H2].
  now rewrite (replaceAll_no_match _ _ _ H1), (replaceAll_no_match _ _ _ H2),
    (replaceAll_no_match _ _ _ H3), (replaceAll_no_match _ _ _ H4).
Qed.

Lemma appendBlank_idem (s : jsstring) :
  includes s BLANK = true -> appendBlank s = s.
Proof. unfold appendBlank. now intros ->. Qed.

(** C2, as amended: on a text without the marker the repair is the four
    substitutions one after the other, each on every match of its pattern
    and each applied whether or not an earlier one matched; when one of
    the patterns matches the text, the result holds the marker and nothing
    is appended. On the text of the specification's example this leaves
    one marker, in the place of the token that followed the first
    pattern. *)
Theorem repair_applies_all_four_substitutions :
  (forall question,
      includes question BLANK = false ->
      (somePatternMatches question = true ->
       fixCompletionQuestion question
       = replaceAll re_duoc_goi_la (js "được gọi là _____")
           (replaceAll re_co (js "có _____")
              (replaceAll re_bang (js "bằng _____")
                 (replaceAll re_la (js "là _____") question))) /\
       includes (fixCompletionQuestion question) BLANK = true) /\
      (somePatternMatches question = false ->
       fixCompletionQuestion question = appendBlank question)) /\
  (let question := js "Thủ đô của Việt Nam là Hà Nội." in
   includes question BLANK = false /\
   fixCompletionQuestion question = js "Thủ đô của Việt Nam là _____ Nội." /\
   occurrences (fixCompletionQuestion question) BLANK = 1%nat /\
   includes (fixCompletionQuestion question) (js "Hà") = false).
Proof.
  split.
  - intros question Hno. unfold fixCompletionQuestion. rewrite Hno. simpl negb.
    cbv iota. split.
    + intros Hm. pose proof (substituteBlanks_includes question Hm) as Hin.
      rewrite (appendBlank_idem _ Hin). split; [reflexivity|exact Hin].
    + intros Hm. now rewrite (substituteBlanks_no_match question Hm).
  - vm_compute. repeat split; reflexivity.
Qed.

Lemma repair_applies_all_four_substitutions_witness :
  let question := js "Diện tích bằng mấy nếu cạnh là 2" in
  fixCompletionQuestion question
  = replaceAll re_duoc_goi_la (js "được gọi là _____")
      (replaceAll re_co (js "có _____")
         (replaceAll re_bang (js "bằng _____")
            (replaceAll re_la (js "là _____") question))) /\
  includes (fixCompletionQuestion question) BLANK = true.
Proof.
  apply (proj1 repair_applies_all_four_substitutions
               (js "Diện tích bằng mấy nếu cạnh là 2"));
    vm_compute; reflexivity.
Defined.

(* ================================================================== *)
(** * sanitizeText and truncateText *)
(* ================================================================== *)

Import FileProcessing.

Lemma In_trimStart (x : N) (s : jsstring) : In x (trimStart s) -> In x s.
Proof.
  induction s as [|c r IH]; simpl; [tauto|].
  destruct (is_whitespace c); simpl; tauto.
Qed.

Lemma In_trimEnd (x : N) (s : jsstring) : In x (trimEnd s) -> In x s.
Proof.
  induction s as [|c r IH]; simpl; [tauto|].
  destruct (trimEnd r) as [|y kept].
  - destruct (is_whitespace c); simpl; tauto.
  - intros [H|H]; [now left|right; now apply IH].
Qed.

Lemma In_trim (x : N) (s : jsstring) : In x (trim s) -> In x s.
Proof.
  unfold trim. intros H. apply In_trimStart. now apply In_trimEnd.
Qed.

Lemma In_substring (x : N) (s : jsstring) (a b : Z) :
  In x (substring s a b) -> In x s.
Proof.
  unfold substring. intros H. apply In_firstn in H.
  rewrite <- (firstn_skipn (Z.to_nat (Z.min (clamp s a) (clamp s b))) s).
  apply in_or_app. now right.
Qed.

Lemma try_down_first (k : nat -> option nat) (lo n r : nat) :
  k (lo + n)%nat = Some r -> try_down k lo n = Some r.
Proof. intros H. destruct n; simpl; now rewrite H. Qed.

(** After [replace(/\s+/g, ' ')] the only white space left is the space:
    [k] code units of the current run are still to be dropped. *)
Lemma replace_whitespace_runs (s : jsstring) :
  forall k,
    (k <= span ws s)%nat ->
    Forall (fun c => is_whitespace c = true -> c = 32%N)
           (replaceAll_go re_whitespace_run [32%N] k s).
Proof.
  induction s as [|c r IH]; intros k Hk.
  - destruct k; simpl; constructor.
  - simpl in Hk. destruct k as [|k].
    + simpl. unfold ws at 1. destruct (is_whitespace c) eqn:Ec.
      * rewrite (try_down_first _ 1 (span ws r) (S (span ws r + 0)) eq_refl).
        simpl. constructor; [reflexivity|]. apply IH. lia.
      * constructor; [congruence|]. apply IH. lia.
    + simpl. unfold ws in Hk at 1. destruct (is_whitespace c); [|lia].
      apply IH. lia.
Qed.

Lemma match_at_literal_absent (l : jsstring) (re : regex) (s : jsstring) :
  startsWith l s = false -> match_at (Lit l :: re) s = None.
Proof. intros H. cbn [match_at]. now rewrite H. Qed.

Lemma no_line_break_no_blank_lines (s : jsstring) :
  ~ In 10%N s -> test re_blank_lines s = false.
Proof.
  induction s as [|c r IH]; intros H; [reflexivity|].
  cbn [test]. unfold re_blank_lines at 1.
  rewrite match_at_literal_absent.
  - apply IH. simpl in H. tauto.
  - cbn -[N.eqb]. destruct (N.eqb_spec 10 c) as [E|_]; [|reflexivity].
    exfalso. apply H. now left.
Qed.

Lemma sanitized_no_line_break (text : jsstring) : ~ In 10%N (sanitized text).
Proof.
  unfold sanitized. intros H. apply In_trim in H.
  assert (Hno : ~ In 10%N (replaceAll re_whitespace_run [32%N] text)).
  { intros Hin.
    pose proof (replace_whitespace_runs text 0 (Nat.le_0_l _)) as Hf.
    pose proof (proj1 (Forall_forall _ _) Hf 10%N Hin eq_refl) as E.
    discriminate. }
  rewrite (replaceAll_no_match _ _ _ (no_line_break_no_blank_lines _ Hno)) in H.
  contradiction.
Qed.

Lemma In_truncateText (x : N) (s : jsstring) :
  In x (tr_text (truncateText s)) -> In x s.
Proof.
  unfold truncateText. destruct (length s <=? MAX_CHARS)%Z; cbn [tr_text];
    [tauto|].
  intros H. apply In_trim in H.
  repeat match type of H with
         | context [if ?b then _ else _] => destruct b
         end;
    repeat (apply In_substring in H); assumption.
Qed.

(** C5, the failing inputs: the first replacement turns every run of
    white space, line breaks included, into one space, so that the second
    finds no line break to keep: no text comes out of [sanitizeText] with
    a line break, and neither a blank line nor a single line break of the
    input survives as one. *)
Theorem sanitizeText_leaves_no_line_break :
  (forall raw, ~ In 10%N (text (sanitizeText raw))) /\
  sanitizeText [97; 10; 10; 98]%N = mkSanitizeResult [97; 32; 98]%N false 3 3 /\
  sanitizeText [97; 10; 98]%N = mkSanitizeResult [97; 32; 98]%N false 3 3.
Proof.
  split; [|split; vm_compute; reflexivity].
  intros raw H. unfold sanitizeText in H. cbn [text] in H.
  apply In_truncateText in H. exact (sanitized_no_line_break raw H).
Qed.

(** ** The breaking point of truncateText *)

(** A sentence ending begins at index [k] of [w]. *)
Definition sentenceEndsAt (w : jsstring) (k : nat) : bool :=
  existsb (fun ending => startsWith ending (skipn k w)) sentenceEndings.

Lemma startsWith_nil (p : jsstring) : p <> [] -> startsWith p [] = false.
Proof. destruct p; [congruence|reflexivity]. Qed.

Lemma startsWith_length (p s : jsstring) :
  startsWith p s = true -> (List.length p <= List.length s)%nat.
Proof.
  revert s. induction p as [|a p IH]; intros [|b s]; simpl; try lia; try easy.
  intros H. apply andb_true_iff in H as [_ H]. apply IH in H. lia.
Qed.

(** [lastIndexOf] gives -1 when there is no occurrence, and the index of
    the last one otherwise. *)
Lemma lastIndexOf_from_spec (p : jsstring) :
  p <> [] ->
  forall s i acc,
    (lastIndexOf_from s p i acc = acc /\
     forall j, startsWith p (skipn j s) = false) \/
    (exists j,
        lastIndexOf_from s p i acc = (i + Z.of_nat j)%Z /\
        startsWith p (skipn j s) = true /\
        forall j', (j < j')%nat -> startsWith p (skipn j' s) = false).
Proof.
  intros Hp. induction s as [|c s IH]; intros i acc.
  - left. simpl. rewrite (startsWith_nil p Hp). split; [reflexivity|].
    intros j. rewrite skipn_nil. now apply startsWith_nil.
  - cbn [lastIndexOf_from].
    destruct (IH (i + 1)%Z (if startsWith p (c :: s) then i else acc))
      as [[E Hn]|(j & E & Hj & Hafter)].
    + rewrite E. destruct (startsWith p (c :: s)) eqn:Es.
      * right. exists O. split; [lia|]. split; [exact Es|].
        intros [|j'] H; [lia|]. simpl. apply Hn.
      * left. split; [reflexivity|]. intros [|j]; simpl; [exact Es|apply Hn].
    + right. exists (S j). rewrite E. split; [lia|]. split; [exact Hj|].
      intros [|j'] H; [lia|]. simpl. apply Hafter. lia.
Qed.

Lemma lastIndexOf_spec (p s : jsstring) :
  p <> [] ->
  (lastIndexOf s p = (-1)%Z /\ forall j, startsWith p (skipn j s) = false) \/
  (exists j,
      lastIndexOf s p = Z.of_nat j /\
      startsWith p (skipn j s) = true /\
      forall j', (j < j')%nat -> startsWith p (skipn j' s) = false).
Proof.
  intros Hp. unfold lastIndexOf.
  destruct (lastIndexOf_from_spec p Hp s 0 (-1)) as [H|(j & E & H)];
    [now left|right].
  exists j. now rewrite E.
Qed.

(** The loop keeps the greatest of the indices. *)
Lemma fold_greatest (f : jsstring -> Z) (l : list jsstring) :
  forall a,
    let v := fold_left (fun last p => if (last <? f p)%Z then f p else last) l a in
    (a <= v)%Z /\ (forall p, In p l -> (f p <= v)%Z) /\
    (v = a \/ exists p, In p l /\ v = f p).
Proof.
  induction l as [|x l IH]; intros a; simpl.
  - repeat split; [lia|tauto|now left].
  - destruct (IH (if (a <? f x)%Z then f x else a)) as (H1 & H2 & H3).
    destruct (Z.ltb_spec a (f x)) as [Hlt|Hge].
    + repeat split; [lia| |].
      * intros p [<-|Hp]; [lia|now apply H2].
      * right. destruct H3 as [->|(p & Hp & ->)]; eauto.
    + repeat split; [lia| |].
      * intros p [<-|Hp]; [lia|now apply H2].
      * destruct H3 as [->|(p & Hp & ->)]; eauto.
Qed.

Lemma sentenceEndings_nonempty (e : jsstring) :
  In e sentenceEndings -> e <> [].
Proof.
  simpl. intros [<-|[<-|[<-|[<-|[<-|[<-|[]]]]]]]; discriminate.
Qed.

Lemma lastOfAny_sentenceEndings (w : jsstring) (k : nat) :
  sentenceEndsAt w k = true ->
  (forall j, (k < j)%nat -> sentenceEndsAt w j = false) ->
  lastOfAny w sentenceEndings = Z.of_nat k.
Proof.
  intros Hk Hafter. apply existsb_exists in Hk as (e0 & Hin0 & He0).
  assert (Hle : forall e, In e sentenceEndings ->
                          (lastIndexOf w e <= Z.of_nat k)%Z).
  { intros e Hin.
    destruct (lastIndexOf_spec e w (sentenceEndings_nonempty e Hin))
      as [[-> _]|(j & -> & Hj & _)]; [lia|].
    destruct (Nat.le_gt_cases j k) as [Hjk|Hjk]; [lia|].
    specialize (Hafter j Hjk).
    assert (sentenceEndsAt w j = true) by (apply existsb_exists; eauto).
    congruence. }
  assert (Heq : lastIndexOf w e0 = Z.of_nat k).
  { pose proof (Hle e0 Hin0) as Hle0.
    destruct (lastIndexOf_spec e0 w (sentenceEndings_nonempty e0 Hin0))
      as [[_ Hn]|(j & E & _ & Hlast)].
    - rewrite Hn in He0. discriminate.
    - rewrite E in *. destruct (Nat.lt_ge_cases j k) as [Hjk|Hjk]; [|lia].
      rewrite (Hlast k Hjk) in He0. discriminate. }
  unfold lastOfAny.
  destruct (fold_greatest (lastIndexOf w) sentenceEndings (-1)) as (H1 & H2 & H3).
  cbv zeta in H1, H2, H3. specialize (H2 e0 Hin0).
  destruct H3 as [E|(p & Hp & E)]; [lia|].
  specialize (Hle p Hp). lia.
Qed.

Lemma searchStart_range : (0 <= searchStart <= MAX_CHARS)%Z.
Proof. vm_compute. split; discriminate. Qed.

Lemma substring_prefix (s : jsstring) (n : Z) :
  (0 <= n <= length s)%Z -> substring s 0 n = firstn (Z.to_nat n) s.
Proof.
  intros H. unfold substring, clamp.
  replace (Z.max 0 (Z.min 0 (length s))) with 0%Z by lia.
  replace (Z.max 0 (Z.min n (length s))) with n by lia.
  replace (Z.min 0 n) with 0%Z by lia. replace (Z.max 0 n) with n by lia.
  now rewrite Z.sub_0_r.
Qed.

Lemma substringFrom_suffix (s : jsstring) (a : Z) :
  (0 <= a <= length s)%Z -> substringFrom s a = skipn (Z.to_nat a) s.
Proof.
  intros H. unfold substringFrom, substring, clamp.
  replace (Z.max 0 (Z.min a (length s))) with a by lia.
  replace (Z.max 0 (Z.min (length s) (length s))) with (length s) by lia.
  replace (Z.min a (length s)) with a by lia.
  replace (Z.max a (length s)) with (length s) by lia.
  apply firstn_all2. rewrite length_skipn. unfold length. lia.
Qed.

Lemma searchWindow_suffix (t : jsstring) :
  (MAX_CHARS < length t)%Z ->
  searchWindow t
  = skipn (Z.to_nat searchStart) (firstn (Z.to_nat MAX_CHARS) t).
Proof.
  intros H. pose proof searchStart_range as Hr. unfold searchWindow.
  rewrite (substring_prefix t MAX_CHARS) by lia.
  apply substringFrom_suffix. unfold length in *. rewrite length_firstn. lia.
Qed.

Lemma sentenceEndings_shape (e : jsstring) :
  In e sentenceEndings ->
  exists c d, e = [c; d] /\ (c = 46 \/ c = 33 \/ c = 63)%N.
Proof.
  simpl. intros [<-|[<-|[<-|[<-|[<-|[<-|[]]]]]]]; eauto 6.
Qed.

Lemma trimEnd_last (body : jsstring) (c : N) :
  is_whitespace c = false -> trimEnd (body ++ [c]) = body ++ [c].
Proof.
  intros H. induction body as [|x body IH]; simpl; [now rewrite H|].
  rewrite IH. destruct (body ++ [c]) eqn:E; [|reflexivity].
  now apply app_eq_nil in E as [_ E].
Qed.

Lemma trimStart_head (s : jsstring) (c : N) (r : jsstring) :
  trimStart s = c :: r -> is_whitespace c = false.
Proof.
  induction s as [|x s IH]; simpl; [discriminate|].
  destruct (is_whitespace x) eqn:E; [exact IH|]. intros H. now injection H as <- _.
Qed.

(** What [trim] returns does not begin with white space. *)
Lemma trim_head (s : jsstring) (c : N) (r : jsstring) :
  trim s = c :: r -> is_whitespace c = false.
Proof.
  unfold trim. destruct (trimStart s) as [|h x] eqn:E; [discriminate|].
  pose proof (trimStart_head s h x E) as Hh.
  simpl. destruct (trimEnd x); [rewrite Hh|]; intros H; now injection H as <- _.
Qed.

(** [trim] changes no text that begins and ends outside white space. *)
Lemma trim_fixed (h c : N) (body : jsstring) :
  is_whitespace h = false -> is_whitespace c = false ->
  hd_error (body ++ [c]) = Some h ->
  trim (body ++ [c]) = body ++ [c].
Proof.
  intros Hh Hc Hhd. unfold trim.
  assert (E : trimStart (body ++ [c]) = body ++ [c]).
  { destruct body as [|x body]; simpl in *.
    - now rewrite Hc.
    - injection Hhd as ->. now rewrite Hh. }
  rewrite E. now apply trimEnd_last.
Qed.

(** Where the last sentence ending of the window begins at [k], the text
    is cut after the first code unit of that ending. *)
Lemma truncateText_sentence (t : jsstring) (k : nat) :
  (MAX_CHARS < length t)%Z ->
  sentenceEndsAt (searchWindow t) k = true ->
  (forall j, (k < j)%nat -> sentenceEndsAt (searchWindow t) j = false) ->
  truncateText t
  = mkTruncateResult (trim (substring t 0 (searchStart + Z.of_nat k + 1))) true /\
  (searchStart + Z.of_nat k + 1 < MAX_CHARS)%Z /\
  exists body c,
    substring t 0 (searchStart + Z.of_nat k + 1) = body ++ [c] /\
    (c = 46 \/ c = 33 \/ c = 63)%N /\
    nth_error (searchWindow t) k = Some c /\
    hd_error (body ++ [c]) = hd_error t.
Proof.
  intros Hlong Hk Hafter. pose proof searchStart_range as Hr.
  pose proof (lastOfAny_sentenceEndings _ _ Hk Hafter) as Hlast.
  apply existsb_exists in Hk as (e & Hin & He).
  destruct (sentenceEndings_shape e Hin) as (c & d & -> & Hc).
  assert (Hw := searchWindow_suffix t Hlong).
  assert (Hlen : (Z.of_nat k + 2 <= MAX_CHARS - searchStart)%Z).
  { apply startsWith_length in He. rewrite length_skipn, Hw in He.
    rewrite length_skipn, length_firstn in He. simpl List.length in He.
    unfold length in *. lia. }
  assert (Hnth : nth_error (searchWindow t) k = Some c).
  { rewrite <- hd_error_skipn. destruct (skipn k (searchWindow t)) as [|x r];
      [discriminate|].
    cbn -[N.eqb] in He. apply andb_true_iff in He as [He _].
    apply N.eqb_eq in He. now subst. }
  split; [|split; [lia|]].
  - unfold truncateText. rewrite (proj2 (Z.leb_gt _ _) Hlong). cbv zeta.
    fold (searchWindow t). rewrite Hlast.
    rewrite (proj2 (Z.ltb_lt (-1) (Z.of_nat k))) by lia.
    rewrite (proj2 (Z.eqb_neq (Z.of_nat k) (-1))) by lia.
    f_equal. f_equal.
    rewrite (substring_prefix t MAX_CHARS) by lia.
    rewrite !substring_prefix; unfold length in *;
      [|lia|rewrite length_firstn; lia].
    rewrite firstn_firstn. f_equal. lia.
  - pose proof Hnth as Hnth'.
    rewrite Hw, nth_error_skipn, nth_error_firstn in Hnth'.
    destruct (Nat.ltb_spec (Z.to_nat searchStart + k) (Z.to_nat MAX_CHARS));
      [|discriminate].
    apply nth_error_split in Hnth' as (l1 & l2 & Et & Hl1).
    exists l1, c. rewrite substring_prefix by lia.
    replace (Z.to_nat (searchStart + Z.of_nat k + 1))
      with (List.length l1 + 1)%nat by lia.
    rewrite Et at 1. rewrite firstn_app_2. simpl firstn.
    repeat split; try assumption.
    rewrite Et. now destruct l1.
Qed.

(** C8: of a sanitized text of more than 10,000 code units whose window,
    the last 2,000 code units of the first 10,000, holds a sentence
    ending, [sanitizeText] returns the text up to and with the punctuation
    mark of the last sentence ending of the window, flagged as truncated,
    at most 10,000 code units long. *)
Theorem truncation_ends_at_last_sentence_end (raw : jsstring) (k : nat) :
  (MAX_CHARS < length (sanitized raw))%Z ->
  sentenceEndsAt (searchWindow (sanitized raw)) k = true ->
  (forall j, (k < j)%nat ->
             sentenceEndsAt (searchWindow (sanitized raw)) j = false) ->
  text (sanitizeText raw)
  = substring (sanitized raw) 0 (searchStart + Z.of_nat k + 1) /\
  (exists body c,
      text (sanitizeText raw) = body ++ [c] /\
      (c = 46 \/ c = 33 \/ c = 63)%N /\
      nth_error (searchWindow (sanitized raw)) k = Some c) /\
  wasTruncated (sanitizeText raw) = true /\
  truncatedLength (sanitizeText raw) = (searchStart + Z.of_nat k + 1)%Z /\
  (truncatedLength (sanitizeText raw) <= MAX_CHARS)%Z.
Proof.
  intros Hlong Hk Hafter. pose proof searchStart_range as Hr.
  destruct (truncateText_sentence _ _ Hlong Hk Hafter)
    as (Ht & Hlt & body & c & Es & Hc & Hnth & Hhd).
  assert (Htrim : trim (body ++ [c]) = body ++ [c]).
  { destruct (sanitized raw) as [|h r] eqn:Et.
    - unfold length in Hlong. simpl in Hlong. lia.
    - unfold sanitized in Et.
      apply (trim_fixed h); [exact (trim_head _ h r Et)| |exact Hhd].
      destruct Hc as [E|[E|E]]; rewrite E; reflexivity. }
  unfold sanitizeText. cbn [text wasTruncated truncatedLength].
  rewrite Ht. cbn [tr_text tr_wasTruncated]. rewrite Es, Htrim.
  assert (Hl : length (body ++ [c]) = (searchStart + Z.of_nat k + 1)%Z).
  { rewrite <- Es, substring_prefix by lia. unfold length in *.
    rewrite length_firstn. lia. }
  repeat split; try assumption; try lia.
  exists body, c. repeat split; assumption.
Qed.

(** The hypothesis on the indices after [k], as a computation. *)
Definition noSentenceEndAfter (w : jsstring) (k : nat) : bool :=
  forallb (fun j => negb (sentenceEndsAt w j)) (seq (S k) (List.length w - k)).

Lemma no_sentence_end_after (w : jsstring) (k : nat) :
  noSentenceEndAfter w k = true ->
  forall j, (k < j)%nat -> sentenceEndsAt w j = false.
Proof.
  unfold noSentenceEndAfter.
  intros H j Hj. destruct (Nat.lt_ge_cases j (List.length w)) as [Hlt|Hge].
  - apply negb_true_iff.
    apply (proj1 (forallb_forall _ _) H). apply in_seq. lia.
  - unfold sentenceEndsAt. now rewrite skipn_all2.
Qed.

(** Nine thousand letters, a full stop, a space, two thousand letters. *)
Definition longText : jsstring :=
  repeat 97%N (Z.to_nat 9000) ++ [46; 32]%N ++ repeat 98%N (Z.to_nat 2000).

Lemma truncation_ends_at_last_sentence_end_witness :
  text (sanitizeText longText)
  = substring (sanitized longText) 0 (searchStart + Z.of_nat 1000 + 1) /\
  (exists body c,
      text (sanitizeText longText) = body ++ [c] /\
      (c = 46 \/ c = 33 \/ c = 63)%N /\
      nth_error (searchWindow (sanitized longText)) 1000 = Some c) /\
  wasTruncated (sanitizeText longText) = true /\
  truncatedLength (sanitizeText longText) = (searchStart + Z.of_nat 1000 + 1)%Z /\
  (truncatedLength (sanitizeText longText) <= MAX_CHARS)%Z.
Proof.
  apply (truncation_ends_at_last_sentence_end longText 1000).
  - vm_compute. reflexivity.
  - vm_compute. reflexivity.
  - apply no_sentence_end_after. vm_compute. reflexivity.
Defined.

(* ================================================================== *)
(** * generateMultipleQuestions *)
(* ================================================================== *)

Section Aggregator.
Context {number : Type} (toString : number -> jsstring).

Local Abbreviation json := (json number).
Local Abbreviation GeneratedQuestion := (GeneratedQuestion number).

(** [served types answers perType]: the model answers the calls made for
    [types], one after the other, with the first of [answers], and the
    normalizer makes the lists [perType] of them. *)
Inductive served :
  list QuestionType -> list (option (list json)) ->
  list (list GeneratedQuestion) -> Prop :=
| served_nil (answers : list (option (list json))) : served [] answers []
| served_cons (questionType : QuestionType) (types : list QuestionType)
              (questions : list json) (answers : list (option (list json)))
              (generated : list GeneratedQuestion)
              (rest : list (list GeneratedQuestion)) :
    validateAndFormatQuestions toString questions questionType = Ok generated ->
    served types answers rest ->
    served (questionType :: types) (Some questions :: answers) (generated :: rest).

(** The request made for one entry of [questionTypes]. *)
Definition requestFor (rawText : jsstring) (dto : GenerateMultipleQuestionsDto)
           (questionType : QuestionType) : GenerateQuestionsRequest :=
  mkRequest (text (sanitizeText rawText)) (subject dto)
            (ceilDiv (questionCount dto)
                     (Z.of_nat (List.length (questionTypes dto))))
            questionType (tone dto) (difficulty dto).

Lemma ceilDiv_ceiling (a b : Z) :
  (0 < b)%Z -> ((ceilDiv a b - 1) * b < a <= ceilDiv a b * b)%Z.
Proof.
  intros Hb. unfold ceilDiv.
  pose proof (Z.div_mod (a + b - 1) b ltac:(lia)) as E.
  pose proof (Z.mod_pos_bound (a + b - 1) b Hb) as Hr.
  set (q := ((a + b - 1) / b)%Z) in *. set (r := ((a + b - 1) mod b)%Z) in *.
  lia.
Qed.

Lemma generateEach_served (content : jsstring) (dto : GenerateMultipleQuestionsDto)
      (quota : Z) (types : list QuestionType)
      (answers : list (option (list json)))
      (perType : list (list GeneratedQuestion)) :
  served types answers perType ->
  forall reqs all,
    generateEach toString content dto quota types all (mkWorld answers reqs)
    = (Ok (all ++ List.concat perType),
       mkWorld (skipn (List.length types) answers)
               (rev (map (fun t => mkRequest content (subject dto) quota t
                                             (tone dto) (difficulty dto))
                         types) ++ reqs)).
Proof.
  induction 1 as [answers|t types questions answers generated rest Hv _ IH];
    intros reqs all.
  - simpl. unfold ret. now rewrite app_nil_r.
  - cbn [generateEach]. unfold mbind at 1. unfold generateQuestions at 1.
    cbn [Questions.answers requests req_questionType tl]. rewrite Hv.
    rewrite IH. cbn [List.length skipn map rev List.concat].
    now rewrite <- !app_assoc.
Qed.

(** C7: when the model answers every call, [generateMultipleQuestions]
    asks for each entry of [questionTypes], in their order and an entry
    as often as it is listed, the quota, which is the ceiling of
    [questionCount] over the number of entries, and returns the first
    [questionCount] questions of the lists of the entries put end to
    end. *)
Theorem aggregator_quota_order_and_cap (rawText : jsstring)
        (dto : GenerateMultipleQuestionsDto) (w : World number)
        (perType : list (list GeneratedQuestion)) :
  (1 <= questionCount dto)%Z ->
  questionTypes dto <> [] ->
  served (questionTypes dto) (answers w) perType ->
  ((ceilDiv (questionCount dto) (Z.of_nat (List.length (questionTypes dto))) - 1)
   * Z.of_nat (List.length (questionTypes dto)) < questionCount dto
   <= ceilDiv (questionCount dto) (Z.of_nat (List.length (questionTypes dto)))
      * Z.of_nat (List.length (questionTypes dto)))%Z /\
  generateMultipleQuestions toString rawText dto w
  = (Ok (firstn (Z.to_nat (questionCount dto)) (List.concat perType)),
     mkWorld (skipn (List.length (questionTypes dto)) (answers w))
             (rev (map (requestFor rawText dto) (questionTypes dto))
                  ++ requests w)).
Proof.
  intros Hn Hk Hs. split.
  - apply ceilDiv_ceiling. destruct (questionTypes dto); [congruence|].
    simpl List.length. lia.
  - unfold generateMultipleQuestions. destruct w as [ans reqs].
    unfold mbind. cbn [Questions.answers requests] in *.
    rewrite (generateEach_served _ dto _ _ _ _ Hs). simpl app. unfold ret.
    f_equal. f_equal.
    assert (Hfix : map fixQuestion (List.concat perType) = List.concat perType).
    { clear Hn Hk. induction Hs as [|t types qs answers g rest Hv _ IH];
        [reflexivity|].
      cbn [List.concat]. rewrite map_app, IH.
      now rewrite (map_fixQuestion_formatted toString _ _ _ Hv). }
    rewrite Hfix. unfold slice0.
    now rewrite (proj2 (Z.ltb_ge (questionCount dto) 0)) by lia.
Qed.

End Aggregator.

(** Five questions for each of two types, five questions asked for. *)
Definition fiveTexts : list jsstring :=
  [js "Q1"; js "Q2"; js "Q3"; js "Q4"; js "Q5"].

Definition fiveRaw : list (json Z) :=
  map (fun t => rawQuestion t (JArr [JStr (js "A")])) fiveTexts.

Definition fiveMultipleChoice : list (GeneratedQuestion Z) :=
  map (fun t => mkGeneratedQuestion t formattedABCD [JStr (js "A")] (JStr [])
                                    MULTIPLE_CHOICE) fiveTexts.

Definition fiveTrueFalse : list (GeneratedQuestion Z) :=
  map (fun t => mkGeneratedQuestion t trueFalseChoices [JStr (js "True")]
                                    (JStr []) TRUE_FALSE) fiveTexts.

Definition fiveOfTwoTypes : GenerateMultipleQuestionsDto :=
  mkDto (js "Địa lý") 5 [MULTIPLE_CHOICE; TRUE_FALSE] None None None.

Definition twoAnswers : World Z := mkWorld [Some fiveRaw; Some fiveRaw] [].

Lemma aggregator_quota_order_and_cap_witness :
  ((ceilDiv 5 (Z.of_nat 2) - 1) * Z.of_nat 2 < 5
   <= ceilDiv 5 (Z.of_nat 2) * Z.of_nat 2)%Z /\
  generateMultipleQuestions integerToString (js "Hà Nội là thủ đô.")
                            fiveOfTwoTypes twoAnswers
  = (Ok (firstn (Z.to_nat 5)
                (List.concat [fiveMultipleChoice; fiveTrueFalse])),
     mkWorld (skipn 2 (answers twoAnswers))
             (rev (map (requestFor (js "Hà Nội là thủ đô.") fiveOfTwoTypes)
                       [MULTIPLE_CHOICE; TRUE_FALSE])
                  ++ requests twoAnswers)).
Proof.
  apply (aggregator_quota_order_and_cap integerToString (js "Hà Nội là thủ đô.")
           fiveOfTwoTypes twoAnswers [fiveMultipleChoice; fiveTrueFalse]).
  - vm_compute. discriminate.
  - discriminate.
  - repeat constructor.
Defined.

(** The example of the specification: the five questions returned are
    the five of the type listed first, and each type was asked for three. *)
Example aggregation_cap_example :
  generateMultipleQuestions integerToString (js "Hà Nội là thủ đô.")
                            fiveOfTwoTypes twoAnswers
  = (Ok fiveMultipleChoice,
     mkWorld []
       [mkRequest (js "Hà Nội là thủ đô.") (js "Địa lý") 3 TRUE_FALSE None None;
        mkRequest (js "Hà Nội là thủ đô.") (js "Địa lý") 3 MULTIPLE_CHOICE None None]).
Proof. vm_compute. reflexivity. Qed.

(* ================================================================== *)
(** * The judgment of submitAnswer *)
(* ================================================================== *)

(** ** The order of strings *)

Lemma ltb_irrefl (x : jsstring) : ltb x x = false.
Proof.
  induction x as [|a x IH]; [reflexivity|].
  cbn [ltb]. now rewrite N.ltb_irrefl, N.eqb_refl, IH.
Qed.

Lemma ltb_asym (x y : jsstring) : ltb x y = true -> ltb y x = false.
Proof.
  revert y. induction x as [|a x IH]; intros [|b y]; cbn [ltb]; try easy.
  destruct (N.ltb_spec a b), (N.ltb_spec b a), (N.eqb_spec a b),
    (N.eqb_spec b a); cbn [orb andb]; try lia; try easy.
  apply IH.
Qed.

Lemma ltb_total (x y : jsstring) :
  ltb x y = false -> ltb y x = false -> x = y.
Proof.
  revert y. induction x as [|a x IH]; intros [|b y]; cbn [ltb]; try easy.
  destruct (N.ltb_spec a b), (N.ltb_spec b a), (N.eqb_spec a b),
    (N.eqb_spec b a); cbn [orb andb]; try lia; try easy.
  intros H1 H2. subst. f_equal. now apply IH.
Qed.

(** [y <= z] and [z < x] give [y < x]. *)
Lemma ltb_le_lt (z y x : jsstring) :
  ltb z y = false -> ltb z x = true -> ltb y x = true.
Proof.
  revert y x. induction z as [|c z IH]; intros [|b y] [|a x]; cbn [ltb];
    try easy.
  destruct (N.ltb_spec c b), (N.ltb_spec c a), (N.ltb_spec b a),
    (N.eqb_spec c b), (N.eqb_spec c a), (N.eqb_spec b a); cbn [orb andb];
    try lia; try easy.
  apply IH.
Qed.

(** ** sort *)

Lemma insert_insert (x y : jsstring) (l : list jsstring) :
  insert x (insert y l) = insert y (insert x l).
Proof.
  induction l as [|z r IH].
  - cbn [insert]. destruct (ltb y x) eqn:Eyx.
    + now rewrite (ltb_asym _ _ Eyx).
    + destruct (ltb x y) eqn:Exy; [reflexivity|].
      now rewrite (ltb_total _ _ Exy Eyx).
  - cbn [insert]. destruct (ltb z y) eqn:Ezy, (ltb z x) eqn:Ezx; cbn [insert];
      rewrite ?Ezy, ?Ezx.
    + now rewrite IH.
    + now rewrite (ltb_le_lt _ _ _ Ezx Ezy).
    + now rewrite (ltb_le_lt _ _ _ Ezy Ezx).
    + destruct (ltb y x) eqn:Eyx.
      * now rewrite (ltb_asym _ _ Eyx).
      * destruct (ltb x y) eqn:Exy; [reflexivity|].
        now rewrite (ltb_total _ _ Exy Eyx).
Qed.

Lemma insert_permutation (x : jsstring) (l : list jsstring) :
  Permutation (insert x l) (x :: l).
Proof.
  induction l as [|y r IH]; cbn [insert]; [reflexivity|].
  destruct (ltb y x); [|reflexivity].
  rewrite IH. apply perm_swap.
Qed.

Lemma sort_permutation (l : list jsstring) : Permutation (sort l) l.
Proof.
  induction l as [|x l IH]; [reflexivity|].
  cbn [sort fold_right]. fold (sort l).
  rewrite insert_permutation. now constructor.
Qed.

Lemma sort_of_permutation (l1 l2 : list jsstring) :
  Permutation l1 l2 -> sort l1 = sort l2.
Proof.
  induction 1 as [|x l1 l2 _ IH|x y l|l1 l2 l3 _ IH1 _ IH2].
  - reflexivity.
  - cbn [sort fold_right]. fold (sort l1) (sort l2). now rewrite IH.
  - cbn [sort fold_right]. apply insert_insert.
  - congruence.
Qed.

Lemma sort_eq_iff (l1 l2 : list jsstring) :
  sort l1 = sort l2 <-> Permutation l1 l2.
Proof.
  split; [|apply sort_of_permutation].
  intros E. rewrite <- (sort_permutation l1), E. apply sort_permutation.
Qed.

(** ** JSON.stringify is injective on arrays of strings *)

Lemma hexDigit_inj (a b : N) :
  (a < 16)%N -> (b < 16)%N -> hexDigit a = hexDigit b -> a = b.
Proof.
  unfold hexDigit. destruct (N.ltb_spec a 10), (N.ltb_spec b 10); lia.
Qed.

Lemma unicodeEscape_inj (c1 c2 : N) :
  (c1 < 65536)%N -> (c2 < 65536)%N ->
  unicodeEscape c1 = unicodeEscape c2 -> c1 = c2.
Proof.
  unfold unicodeEscape. intros H1 H2 E. injection E as E3 E2 E1 E0.
  apply hexDigit_inj in E3, E2, E1, E0; try (apply N.mod_lt; discriminate).
  rewrite (N.div_mod c1 16), (N.div_mod c2 16) by discriminate.
  rewrite E0. f_equal. f_equal.
  rewrite (N.div_mod (c1 / 16) 16), (N.div_mod (c2 / 16) 16) by discriminate.
  rewrite E1. f_equal. f_equal.
  rewrite !N.Div0.div_div.
  change (16 * 16)%N with 256%N.
  rewrite (N.div_mod (c1 / 256) 16), (N.div_mod (c2 / 256) 16) by discriminate.
  rewrite E2. f_equal. f_equal.
  rewrite !N.Div0.div_div. change (256 * 16)%N with 4096%N.
  rewrite <- (N.mod_small (c1 / 4096) 16), <- (N.mod_small (c2 / 4096) 16);
    [exact E3| |];
    apply N.Div0.div_lt_upper_bound; assumption.
Qed.

(** The three shapes of what is written for a code unit. *)
Inductive quoted (c : N) : jsstring -> Prop :=
| quoted_short (x : N) :
    In (c, x) [(8, 98); (9, 116); (10, 110); (12, 102); (13, 114);
               (34, 34); (92, 92)]%N ->
    quoted c [92%N; x]
| quoted_escape :
    (c < 65536)%N -> quoted c (unicodeEscape c)
| quoted_plain :
    c <> 34%N -> c <> 92%N -> isLeadingSurrogate c = false ->
    quoted c [c].

Lemma quoteUnit_quoted (c : N) : quoted c (quoteUnit c).
Proof.
  unfold quoteUnit.
  repeat match goal with
         | |- context [(c =? ?k)%N] =>
           destruct (N.eqb_spec c k) as [->|?];
             [apply quoted_short; simpl; tauto|]
         end.
  destruct ((c <? 32)%N || isLeadingSurrogate c || isTrailingSurrogate c) eqn:E.
  - apply quoted_escape.
    unfold isLeadingSurrogate, isTrailingSurrogate in E.
    rewrite !orb_true_iff, !andb_true_iff, N.ltb_lt, !N.leb_le in E. lia.
  - apply orb_false_iff in E as [E _]. apply orb_false_iff in E as [_ E].
    now apply quoted_plain.
Qed.

Lemma quoted_inj (c1 c2 : N) (q1 q2 x y : jsstring) :
  quoted c1 q1 -> quoted c2 q2 -> q1 ++ x = q2 ++ y -> c1 = c2 /\ x = y.
Proof.
  intros [x1 H1|H1|Ha1 Hb1 _] [x2 H2|H2|Ha2 Hb2 _] E.
  - simpl in E. injection E as -> ->.
    simpl in H1, H2.
    repeat match goal with
           | H : _ \/ _ |- _ => destruct H as [H|H]
           | H : (_, _) = (_, _) |- _ => injection H as <- ?
           | H : False |- _ => destruct H
           end; subst; try discriminate; split; reflexivity.
  - exfalso. simpl in H1, E.
    repeat match goal with
           | H : _ \/ _ |- _ => destruct H as [H|H]
           | H : (_, _) = (_, _) |- _ => injection H as <- <-
           | H : False |- _ => destruct H
           end; discriminate.
  - exfalso. simpl in E. injection E as E _. congruence.
  - exfalso. simpl in H2, E.
    repeat match goal with
           | H : _ \/ _ |- _ => destruct H as [H|H]
           | H : (_, _) = (_, _) |- _ => injection H as <- <-
           | H : False |- _ => destruct H
           end; discriminate.
  - unfold unicodeEscape in E. simpl in E.
    injection E as E3 E2 E1 E0 E.
    split; [|exact E]. apply unicodeEscape_inj; try assumption.
    unfold unicodeEscape. congruence.
  - exfalso. simpl in E. injection E as E _. congruence.
  - exfalso. simpl in E. injection E as E _. congruence.
  - exfalso. simpl in E. injection E as E _. congruence.
  - simpl in E. now injection E as -> ->.
Qed.

(** The first code unit written is neither the closing quote nor the
    first half of a pair. *)
Lemma quoted_head (c : N) (q : jsstring) :
  quoted c q ->
  exists h r, q = h :: r /\ h <> 34%N /\ isLeadingSurrogate h = false.
Proof.
  intros [x _|_|Ha _ Hl].
  - exists 92%N, [x]. repeat split. discriminate.
  - eexists _, _. unfold unicodeEscape. repeat split. discriminate.
  - exists c, []. repeat split; assumption.
Qed.

(** How [quoteBody] starts on a string that is not empty. *)
Lemma quoteBody_cons (c : N) (r : jsstring) :
  (exists d r',
      r = d :: r' /\ isLeadingSurrogate c = true /\
      quoteBody (c :: r) = c :: d :: quoteBody r') \/
  quoteBody (c :: r) = quoteUnit c ++ quoteBody r.
Proof.
  cbn [quoteBody]. destruct (isLeadingSurrogate c) eqn:El; [|now right].
  destruct r as [|d r']; [right; now rewrite app_nil_r|].
  destruct (isTrailingSurrogate d); [left|now right].
  exists d, r'. repeat split.
Qed.

Lemma quoteBody_inj (n : nat) :
  forall s1 s2 t1 t2,
    (List.length s1 <= n)%nat ->
    quoteBody s1 ++ 34%N :: t1 = quoteBody s2 ++ 34%N :: t2 ->
    s1 = s2 /\ t1 = t2.
Proof.
  induction n as [|n IH]; intros s1 s2 t1 t2 Hn E.
  - destruct s1; [|simpl in Hn; lia].
    destruct s2 as [|c2 r2]; [simpl in E; now injection E as ->|].
    exfalso. simpl (quoteBody []) in E.
    destruct (quoteBody_cons c2 r2) as [(d & r' & _ & Hl & Eq)|Eq]; rewrite Eq in E.
    + injection E as E _. subst c2. discriminate.
    + destruct (quoted_head _ _ (quoteUnit_quoted c2)) as (h & r & Eh & Hh & _).
      rewrite Eh in E. injection E as E _. congruence.
  - destruct s1 as [|c1 r1], s2 as [|c2 r2].
    + simpl in E. now injection E as ->.
    + exfalso. simpl (quoteBody []) in E.
      destruct (quoteBody_cons c2 r2) as [(d & r' & _ & Hl & Eq)|Eq];
        rewrite Eq in E.
      * injection E as E _. subst c2. discriminate.
      * destruct (quoted_head _ _ (quoteUnit_quoted c2)) as (h & r & Eh & Hh & _).
        rewrite Eh in E. injection E as E _. congruence.
    + exfalso. simpl (quoteBody []) in E.
      destruct (quoteBody_cons c1 r1) as [(d & r' & _ & Hl & Eq)|Eq];
        rewrite Eq in E.
      * injection E as E _. subst c1. discriminate.
      * destruct (quoted_head _ _ (quoteUnit_quoted c1)) as (h & r & Eh & Hh & _).
        rewrite Eh in E. injection E as E _. congruence.
    + simpl in Hn.
      destruct (quoteBody_cons c1 r1) as [(d1 & r1' & -> & Hl1 & Eq1)|Eq1],
               (quoteBody_cons c2 r2) as [(d2 & r2' & -> & Hl2 & Eq2)|Eq2];
        rewrite Eq1, Eq2 in E.
      * injection E as -> -> E. apply IH in E; [|simpl in Hn; lia].
        destruct E as [-> ->]. now split.
      * exfalso.
        destruct (quoted_head _ _ (quoteUnit_quoted c2)) as (h & r & Eh & _ & Hh).
        rewrite Eh in E. injection E as -> _. congruence.
      * exfalso.
        destruct (quoted_head _ _ (quoteUnit_quoted c1)) as (h & r & Eh & _ & Hh).
        rewrite Eh in E. injection E as <- _. congruence.
      * rewrite <- !app_assoc in E.
        apply (quoted_inj _ _ _ _ _ _ (quoteUnit_quoted c1) (quoteUnit_quoted c2)) in E.
        destruct E as [-> E]. apply IH in E; [|lia].
        destruct E as [-> ->]. now split.
Qed.

Lemma quoteJSONString_inj (x1 x2 t1 t2 : jsstring) :
  quoteJSONString x1 ++ t1 = quoteJSONString x2 ++ t2 -> x1 = x2 /\ t1 = t2.
Proof.
  unfold quoteJSONString. cbn [app]. rewrite <- !app_assoc. cbn [app].
  intros E. injection E as E. exact (quoteBody_inj _ _ _ _ _ (le_n _) E).
Qed.

Lemma elements_inj (l1 : list jsstring) :
  forall l2, elements l1 ++ [93%N] = elements l2 ++ [93%N] -> l1 = l2.
Proof.
  induction l1 as [|x1 r1 IH]; intros [|x2 r2] E.
  - reflexivity.
  - discriminate.
  - discriminate.
  - cbn [elements] in E. rewrite <- !app_assoc in E.
    apply quoteJSONString_inj in E as [-> E]. f_equal.
    destruct r1 as [|y1 r1], r2 as [|y2 r2]; cbn [app] in E;
      try discriminate; try reflexivity.
    apply IH. exact (f_equal (@tl N) E).
Qed.

Lemma stringify_inj (l1 l2 : list jsstring) :
  stringify l1 = stringify l2 -> l1 = l2.
Proof.
  unfold stringify. intros E. injection E as E. now apply elements_inj.
Qed.

Lemma isCorrect_iff (stored selected : list jsstring) :
  isCorrect stored selected = true <-> Permutation stored selected.
Proof.
  unfold isCorrect. rewrite eqb_eq, <- sort_eq_iff.
  split; [apply stringify_inj|congruence].
Qed.

Lemma isCorrect_false_iff (stored selected : list jsstring) :
  isCorrect stored selected = false <-> ~ Permutation stored selected.
Proof.
  rewrite <- isCorrect_iff. destruct (isCorrect stored selected); split;
    congruence.
Qed.

(** C9: the judgment does not depend on the order of the labels: every
    permutation of the stored labels is judged correct, and a list of
    another length, or with a label the stored ones lack, or lacking one
    of them, is judged incorrect. *)
Theorem answer_judgment_is_order_independent (stored selected : list jsstring) :
  (Permutation stored selected -> isCorrect stored selected = true) /\
  (List.length stored <> List.length selected ->
   isCorrect stored selected = false) /\
  (forall x, In x stored -> ~ In x selected ->
             isCorrect stored selected = false) /\
  (forall x, In x selected -> ~ In x stored ->
             isCorrect stored selected = false).
Proof.
  repeat split.
  - apply isCorrect_iff.
  - intros H. apply isCorrect_false_iff. intros P.
    apply Permutation_length in P. contradiction.
  - intros x H1 H2. apply isCorrect_false_iff. intros P.
    apply H2. now apply (Permutation_in x P).
  - intros x H1 H2. apply isCorrect_false_iff. intros P.
    apply H2. now apply (Permutation_in x (Permutation_sym P)).
Qed.

Lemma answer_judgment_is_order_independent_witness :
  isCorrect [js "A"; js "B"] [js "B"; js "A"] = true /\
  isCorrect [js "A"; js "B"] [js "A"] = false /\
  isCorrect [js "A"; js "B"] [js "A"; js "C"] = false.
Proof.
  split; [|split].
  - apply (proj1 (answer_judgment_is_order_independent
                    [js "A"; js "B"] [js "B"; js "A"])).
    apply perm_swap.
  - apply (proj1 (proj2 (answer_judgment_is_order_independent
                           [js "A"; js "B"] [js "A"]))).
    simpl. lia.
  - apply (proj1 (proj2 (proj2 (answer_judgment_is_order_independent
                                  [js "A"; js "B"] [js "A"; js "C"])))
             (js "B")).
    + simpl. tauto.
    + vm_compute. intros [H|[H|[]]]; discriminate.
Defined.

(* ================================================================== *)
(** * More on sanitizeText and truncateText *)
(* ================================================================== *)

(** Every white space of [s] is a space, and no two are side by side;
    [prev] tells whether a white space comes just before [s]. *)
Fixpoint singleSpaced (prev : bool) (s : jsstring) : bool :=
  match s with
  | [] => true
  | c :: r =>
    if is_whitespace c
    then (c =? 32)%N && negb prev && singleSpaced true r
    else singleSpaced false r
  end.

(** The text neither begins nor ends with white space. *)
Definition trimmed (s : jsstring) : Prop := trim s = s.

Lemma singleSpaced_weaken (s : jsstring) :
  singleSpaced true s = true -> singleSpaced false s = true.
Proof.
  destruct s as [|c r]; [reflexivity|]. simpl.
  destruct (is_whitespace c); [|tauto].
  rewrite andb_false_r. discriminate.
Qed.

Lemma replace_whitespace_runs_singleSpaced (s : jsstring) :
  singleSpaced false (replaceAll_go re_whitespace_run [32%N] 0 s) = true /\
  forall prev,
    singleSpaced prev (replaceAll_go re_whitespace_run [32%N] (span ws s) s) = true.
Proof.
  unfold re_whitespace_run, ws.
  induction s as [|c r [IH0 IHs]]; [split; reflexivity|].
  cbn [span replaceAll_go match_at]. destruct (is_whitespace c) eqn:Ec.
  - rewrite (try_down_first _ 1 (span is_whitespace r)
                            (S (span is_whitespace r + 0)) eq_refl).
    cbn [app]. rewrite Nat.add_0_r. split; [|exact IHs].
    cbn [singleSpaced]. now rewrite (IHs true).
  - split; [|intros prev]; cbn [singleSpaced]; now rewrite Ec.
Qed.

Lemma singleSpaced_trimStart (prev : bool) (s : jsstring) :
  singleSpaced prev s = true -> singleSpaced false (trimStart s) = true.
Proof.
  revert prev. induction s as [|c r IH]; intros prev; [reflexivity|].
  cbn [singleSpaced trimStart]. destruct (is_whitespace c) eqn:Ec.
  - intros H. apply andb_true_iff in H as [_ H]. now apply (IH true).
  - intros H. cbn [singleSpaced]. now rewrite Ec.
Qed.

Lemma singleSpaced_trimEnd (prev : bool) (s : jsstring) :
  singleSpaced prev s = true -> singleSpaced prev (trimEnd s) = true.
Proof.
  revert prev. induction s as [|c r IH]; intros prev; [reflexivity|].
  cbn [singleSpaced trimEnd]. destruct (is_whitespace c) eqn:Ec.
  - intros H. apply andb_true_iff in H as [H1 H2]. apply IH in H2.
    destruct (trimEnd r) as [|d kept]; [reflexivity|].
    cbn [singleSpaced]. rewrite Ec, H1. exact H2.
  - intros H. apply IH in H.
    destruct (trimEnd r) as [|d kept]; cbn [singleSpaced]; now rewrite Ec.
Qed.

Lemma singleSpaced_firstn (n : nat) (prev : bool) (s : jsstring) :
  singleSpaced prev s = true -> singleSpaced prev (firstn n s) = true.
Proof.
  revert prev s. induction n as [|n IH]; intros prev [|c r]; try reflexivity.
  cbn [singleSpaced firstn]. destruct (is_whitespace c).
  - intros H. apply andb_true_iff in H as [H1 H2]. rewrite H1. now apply IH.
  - apply IH.
Qed.

(** On such a text the first replacement changes nothing. *)
Lemma replace_whitespace_runs_fixed (s : jsstring) :
  forall prev, singleSpaced prev s = true ->
               replaceAll re_whitespace_run [32%N] s = s.
Proof.
  unfold replaceAll, re_whitespace_run, ws.
  induction s as [|c r IH]; intros prev; [reflexivity|].
  cbn [singleSpaced replaceAll_go match_at span].
  destruct (is_whitespace c) eqn:Ec.
  - intros H. apply andb_true_iff in H as [H Hr].
    apply andb_true_iff in H as [Hc _]. apply N.eqb_eq in Hc. subst c.
    assert (Hs : span is_whitespace r = 0%nat).
    { destruct r as [|d r]; [reflexivity|]. cbn [span singleSpaced] in *.
      destruct (is_whitespace d); [|reflexivity].
      rewrite andb_false_r in Hr. discriminate. }
    rewrite Hs. cbn. f_equal. exact (IH true Hr).
  - intros H. f_equal. exact (IH false H).
Qed.

Lemma trimEnd_idem (s : jsstring) : trimEnd (trimEnd s) = trimEnd s.
Proof.
  induction s as [|c r IH]; [reflexivity|]. cbn [trimEnd].
  destruct (trimEnd r) as [|d kept] eqn:E.
  - destruct (is_whitespace c) eqn:Ec; [reflexivity|]. cbn. now rewrite Ec.
  - change (trimEnd (c :: d :: kept))
      with (match trimEnd (d :: kept) with
            | [] => if is_whitespace c then [] else [c]
            | k => c :: k
            end).
    now rewrite IH.
Qed.

Lemma trimStart_fixed (s : jsstring) :
  (forall c r, s = c :: r -> is_whitespace c = false) -> trimStart s = s.
Proof.
  destruct s as [|c r]; [reflexivity|]. intros H. cbn.
  now rewrite (H c r eq_refl).
Qed.

Lemma trim_idem (s : jsstring) : trim (trim s) = trim s.
Proof.
  unfold trim at 1. rewrite (trimStart_fixed (trim s)).
  - unfold trim. apply trimEnd_idem.
  - intros c r E. exact (trim_head s c r E).
Qed.

Lemma trimEnd_prefix (s : jsstring) : exists rest, s = trimEnd s ++ rest.
Proof.
  induction s as [|c r [rest IH]]; [now exists []|]. cbn [trimEnd].
  destruct (trimEnd r) as [|d kept].
  - destruct (is_whitespace c); [now exists (c :: r)|now exists r].
  - exists rest. cbn [app]. f_equal. exact IH.
Qed.

Lemma length_trimStart (s : jsstring) :
  (List.length (trimStart s) <= List.length s)%nat.
Proof.
  induction s as [|c r IH]; cbn; [lia|]. destruct (is_whitespace c); cbn; lia.
Qed.

Lemma length_trimEnd (s : jsstring) :
  (List.length (trimEnd s) <= List.length s)%nat.
Proof.
  destruct (trimEnd_prefix s) as [rest E]. rewrite E at 2.
  rewrite length_app. lia.
Qed.

Lemma length_trim (s : jsstring) : (length (trim s) <= length s)%Z.
Proof.
  unfold length, trim. pose proof (length_trimEnd (trimStart s)).
  pose proof (length_trimStart s). lia.
Qed.

Lemma substring_from_zero (s : jsstring) (n : Z) :
  substring s 0 n = firstn (Z.to_nat (clamp s n)) s.
Proof.
  unfold substring. assert (E : clamp s 0 = 0%Z) by (unfold clamp, length; lia).
  rewrite E. assert (0 <= clamp s n)%Z by (unfold clamp; lia).
  rewrite Z.min_l, Z.max_r, Z.sub_0_r by lia. reflexivity.
Qed.

(** The text of a long input is what [trim] leaves of its first [m] code
    units, for some [m] up to the cap. *)
Lemma truncateText_long (t : jsstring) :
  (MAX_CHARS < length t)%Z ->
  exists m, (Z.of_nat m <= MAX_CHARS)%Z /\
            truncateText t = mkTruncateResult (trim (firstn m t)) true.
Proof.
  intros Hlong. pose proof searchStart_range as Hr.
  unfold truncateText. rewrite (proj2 (Z.leb_gt _ _) Hlong). cbv zeta.
  rewrite (substring_prefix t MAX_CHARS) by lia.
  set (cut := firstn (Z.to_nat MAX_CHARS) t).
  set (lastSentenceEnd := lastOfAny (substringFrom cut searchStart) sentenceEndings).
  set (lastParagraphEnd := lastOfAny (substringFrom cut searchStart) paragraphBreaks).
  assert (Hsub : forall m x, (Z.of_nat m <= MAX_CHARS)%Z ->
                             exists m', (Z.of_nat m' <= MAX_CHARS)%Z /\
                                        substring (firstn m t) 0 x = firstn m' t).
  { intros m x Hm. rewrite substring_from_zero, firstn_firstn.
    eexists. split; [|reflexivity]. lia. }
  assert (H1 : exists m1, (Z.of_nat m1 <= MAX_CHARS)%Z /\
                 (if (-1 <? lastSentenceEnd)%Z
                  then substring cut 0 (searchStart + lastSentenceEnd + 1)
                  else cut) = firstn m1 t).
  { destruct (-1 <? lastSentenceEnd)%Z.
    - apply Hsub. lia.
    - exists (Z.to_nat MAX_CHARS). split; [lia|reflexivity]. }
  destruct H1 as (m1 & Hm1 & ->).
  destruct (lastSentenceEnd =? -1)%Z; [|now exists m1].
  destruct (-1 <? lastParagraphEnd)%Z; [|now exists m1].
  destruct (Hsub m1 (searchStart + lastParagraphEnd)%Z Hm1) as (m2 & Hm2 & ->).
  now exists m2.
Qed.

Lemma sanitized_eq (raw : jsstring) :
  sanitized raw = trim (replaceAll re_whitespace_run [32%N] raw).
Proof.
  unfold sanitized. f_equal. apply replaceAll_no_match.
  apply no_line_break_no_blank_lines. intros Hin.
  pose proof (replace_whitespace_runs raw 0 (Nat.le_0_l _)) as Hf.
  pose proof (proj1 (Forall_forall _ _) Hf 10%N Hin eq_refl) as E.
  discriminate.
Qed.

Lemma singleSpaced_trim (s : jsstring) :
  singleSpaced false s = true -> singleSpaced false (trim s) = true.
Proof.
  intros H. unfold trim. apply singleSpaced_trimEnd.
  now apply (singleSpaced_trimStart false).
Qed.

Lemma sanitized_singleSpaced (raw : jsstring) :
  singleSpaced false (sanitized raw) = true.
Proof.
  rewrite sanitized_eq. apply singleSpaced_trim.
  apply (proj1 (replace_whitespace_runs_singleSpaced raw)).
Qed.

Lemma singleSpaced_no_line_break (prev : bool) (s : jsstring) :
  singleSpaced prev s = true -> ~ In 10%N s.
Proof.
  revert prev. induction s as [|c r IH]; intros prev H Hin; [contradiction|].
  destruct Hin as [E|Hin].
  - subst c. cbn in H. discriminate.
  - cbn [singleSpaced] in H. destruct (is_whitespace c).
    + apply andb_true_iff in H as [_ H]. exact (IH true H Hin).
    + exact (IH false H Hin).
Qed.

(** A trimmed text whose white space is single spaces is left as it is. *)
Lemma sanitized_fixed (y : jsstring) :
  singleSpaced false y = true -> sanitized (trim y) = trim y.
Proof.
  intros H. rewrite sanitized_eq.
  rewrite (replace_whitespace_runs_fixed (trim y) false (singleSpaced_trim y H)).
  apply trim_idem.
Qed.

(** The text [sanitizeText] returns, in both cases. *)
Lemma sanitizeText_text (raw : jsstring) :
  exists y,
    singleSpaced false y = true /\ text (sanitizeText raw) = trim y /\
    (length (trim y) <= MAX_CHARS)%Z /\
    (exists rest, sanitized raw = trim y ++ rest) /\
    wasTruncated (sanitizeText raw)
    = negb (length (sanitized raw) <=? MAX_CHARS)%Z.
Proof.
  unfold sanitizeText. cbn [text wasTruncated].
  destruct (Z.leb_spec (length (sanitized raw)) MAX_CHARS) as [Hle|Hgt].
  - unfold truncateText. rewrite (proj2 (Z.leb_le _ _) Hle). cbn [tr_text tr_wasTruncated].
    exists (replaceAll re_whitespace_run [32%N] raw).
    rewrite <- sanitized_eq. repeat split; try assumption.
    + apply (proj1 (replace_whitespace_runs_singleSpaced raw)).
    + exists []. now rewrite app_nil_r.
  - destruct (truncateText_long (sanitized raw) Hgt) as (m & Hm & ->).
    cbn [tr_text tr_wasTruncated]. exists (firstn m (sanitized raw)).
    repeat split.
    + apply singleSpaced_firstn, sanitized_singleSpaced.
    + pose proof (length_trim (firstn m (sanitized raw))) as Hl.
      unfold length in *. rewrite length_firstn in Hl. lia.
    + unfold trim. rewrite trimStart_fixed.
      * destruct (trimEnd_prefix (firstn m (sanitized raw))) as [rest E].
        exists (rest ++ skipn m (sanitized raw)).
        rewrite app_assoc, <- E. symmetry. apply firstn_skipn.
      * intros c r E. destruct m as [|m]; [discriminate|].
        destruct (sanitized raw) as [|h t] eqn:Es; [discriminate|].
        cbn in E. injection E as <- _. unfold sanitized in Es.
        exact (trim_head _ _ _ Es).
Qed.

Lemma trimEnd_last_char (s body : jsstring) (c : N) :
  trimEnd s = body ++ [c] -> is_whitespace c = false.
Proof.
  revert body. induction s as [|x r IH]; intros body E.
  - destruct body; discriminate.
  - cbn [trimEnd] in E. destruct (trimEnd r) as [|d kept].
    + destruct (is_whitespace x) eqn:Ex; [destruct body; discriminate|].
      destruct body as [|b [|b' body]]; try discriminate.
      now injection E as <-.
    + destruct body as [|b body]; [discriminate|].
      injection E as _ E. exact (IH body E).
Qed.

(** X1: the text [sanitizeText] returns neither begins nor ends with
    white space, and its only white space is single spaces between other
    code units. *)
Theorem sanitizeText_text_is_normalized (raw : jsstring) :
  (forall c rest, text (sanitizeText raw) = c :: rest ->
                  is_whitespace c = false) /\
  (forall body c, text (sanitizeText raw) = body ++ [c] ->
                  is_whitespace c = false) /\
  singleSpaced false (text (sanitizeText raw)) = true.
Proof.
  destruct (sanitizeText_text raw) as (y & Hy & -> & _). repeat split.
  - intros c rest E. exact (trim_head _ _ _ E).
  - intros body c E. exact (trimEnd_last_char _ _ _ E).
  - now apply singleSpaced_trim.
Qed.

(** X2: sanitizing a text that [sanitizeText] returned gives it back
    unchanged, and never flags it as truncated. *)
Theorem sanitizeText_of_its_output (raw : jsstring) :
  sanitizeText (text (sanitizeText raw))
  = mkSanitizeResult (text (sanitizeText raw)) false
                     (truncatedLength (sanitizeText raw))
                     (truncatedLength (sanitizeText raw)).
Proof.
  assert (Hl : truncatedLength (sanitizeText raw)
               = length (text (sanitizeText raw))) by reflexivity.
  rewrite Hl. destruct (sanitizeText_text raw) as (y & Hy & -> & Hlen & _).
  unfold sanitizeText. rewrite (sanitized_fixed y Hy).
  unfold truncateText. rewrite (proj2 (Z.leb_le _ _) Hlen). reflexivity.
Qed.

(** X3: the text returned is a prefix of the sanitized text, at most
    10,000 code units long, and it is the whole sanitized text exactly
    when that has at most 10,000 code units, the only case in which the
    result is not flagged as truncated. *)
Theorem sanitizeText_cuts_at_the_end (raw : jsstring) :
  (exists rest, sanitized raw = text (sanitizeText raw) ++ rest) /\
  (truncatedLength (sanitizeText raw) <= MAX_CHARS)%Z /\
  (truncatedLength (sanitizeText raw) <= originalLength (sanitizeText raw))%Z /\
  originalLength (sanitizeText raw) = length (sanitized raw) /\
  (wasTruncated (sanitizeText raw) = false <->
   (originalLength (sanitizeText raw) <= MAX_CHARS)%Z) /\
  (wasTruncated (sanitizeText raw) = false ->
   text (sanitizeText raw) = sanitized raw).
Proof.
  assert (Hl : truncatedLength (sanitizeText raw)
               = length (text (sanitizeText raw))) by reflexivity.
  assert (Ho : originalLength (sanitizeText raw) = length (sanitized raw))
    by reflexivity.
  rewrite Hl, Ho.
  destruct (sanitizeText_text raw) as (y & Hy & Et & Hlen & [rest Hrest] & Hw).
  rewrite Et, Hw. repeat split.
  - now exists rest.
  - exact Hlen.
  - rewrite Hrest. unfold length. rewrite length_app. lia.
  - intros H. apply negb_false_iff in H. now apply Z.leb_le.
  - intros H. apply negb_false_iff. now apply Z.leb_le.
  - intros H. apply negb_false_iff, Z.leb_le in H.
    rewrite <- Et. unfold sanitizeText. cbn [text]. unfold truncateText.
    now rewrite (proj2 (Z.leb_le _ _) H).
Qed.

(** ** The other branches of truncateText *)

(** One of the patterns begins at index [k] of [w]. *)
Definition patternAt (patterns : list jsstring) (w : jsstring) (k : nat) : bool :=
  existsb (fun p => startsWith p (skipn k w)) patterns.

(** No pattern begins at an index from [k] on, as a computation. *)
Definition noPatternFrom (patterns : list jsstring) (w : jsstring) (k : nat)
  : bool :=
  forallb (fun p => negb (eqb p [])) patterns
  && forallb (fun j => negb (patternAt patterns w j))
             (seq k (List.length w - k)).

Lemma noPatternFrom_spec (patterns : list jsstring) (w : jsstring) (k : nat) :
  noPatternFrom patterns w k = true ->
  forall j, (k <= j)%nat -> patternAt patterns w j = false.
Proof.
  unfold noPatternFrom. intros H j Hj. apply andb_true_iff in H as [Hne H].
  destruct (Nat.lt_ge_cases j (List.length w)) as [Hlt|Hge].
  - apply negb_true_iff. apply (proj1 (forallb_forall _ _) H).
    apply in_seq. lia.
  - unfold patternAt. rewrite skipn_all2 by assumption.
    destruct (existsb (fun p => startsWith p []) patterns) eqn:E;
      [|reflexivity].
    apply existsb_exists in E as (p & Hp & Hs).
    apply (proj1 (forallb_forall _ _) Hne) in Hp.
    destruct p; [discriminate|discriminate].
Qed.

Lemma lastOfAny_none (patterns : list jsstring) (w : jsstring) :
  (forall p, In p patterns -> p <> []) ->
  (forall j, patternAt patterns w j = false) ->
  lastOfAny w patterns = (-1)%Z.
Proof.
  intros Hne Hno. unfold lastOfAny.
  destruct (fold_greatest (lastIndexOf w) patterns (-1)) as (_ & _ & H3).
  cbv zeta in H3. destruct H3 as [E|(p & Hp & E)]; [exact E|].
  rewrite E.
  destruct (lastIndexOf_spec p w (Hne p Hp)) as [[E1 _]|(j & _ & Hj & _)];
    [exact E1|].
  assert (patternAt patterns w j = true) by (apply existsb_exists; eauto).
  rewrite Hno in *. discriminate.
Qed.

Lemma lastOfAny_last (patterns : list jsstring) (w : jsstring) (k : nat) :
  (forall p, In p patterns -> p <> []) ->
  patternAt patterns w k = true ->
  (forall j, (k < j)%nat -> patternAt patterns w j = false) ->
  lastOfAny w patterns = Z.of_nat k.
Proof.
  intros Hne Hk Hafter. apply existsb_exists in Hk as (e0 & Hin0 & He0).
  assert (Hle : forall e, In e patterns -> (lastIndexOf w e <= Z.of_nat k)%Z).
  { intros e Hin.
    destruct (lastIndexOf_spec e w (Hne e Hin)) as [[-> _]|(j & -> & Hj & _)];
      [lia|].
    destruct (Nat.le_gt_cases j k) as [Hjk|Hjk]; [lia|].
    specialize (Hafter j Hjk).
    assert (patternAt patterns w j = true) by (apply existsb_exists; eauto).
    congruence. }
  assert (Heq : lastIndexOf w e0 = Z.of_nat k).
  { pose proof (Hle e0 Hin0) as Hle0.
    destruct (lastIndexOf_spec e0 w (Hne e0 Hin0))
      as [[_ Hn]|(j & E & _ & Hlast)].
    - rewrite Hn in He0. discriminate.
    - rewrite E in *. destruct (Nat.lt_ge_cases j k) as [Hjk|Hjk]; [|lia].
      rewrite (Hlast k Hjk) in He0. discriminate. }
  unfold lastOfAny.
  destruct (fold_greatest (lastIndexOf w) patterns (-1)) as (H1 & H2 & H3).
  cbv zeta in H1, H2, H3. specialize (H2 e0 Hin0).
  destruct H3 as [E|(p & Hp & E)]; [lia|].
  specialize (Hle p Hp). lia.
Qed.

Lemma paragraphBreaks_nonempty (p : jsstring) :
  In p paragraphBreaks -> p <> [].
Proof. simpl. intros [<-|[<-|[]]]; discriminate. Qed.

Lemma paragraphBreaks_line_break (w : jsstring) (j : nat) :
  patternAt paragraphBreaks w j = true -> In 10%N w.
Proof.
  intros H. apply existsb_exists in H as (p & Hp & Hs).
  assert (Hhd : hd_error (skipn j w) = Some 10%N).
  { destruct (skipn j w) as [|x r]; simpl in Hp;
      destruct Hp as [<-|[<-|[]]]; try discriminate;
      cbn -[N.eqb] in Hs; apply andb_true_iff in Hs as [Hs _];
      apply N.eqb_eq in Hs; now subst. }
  rewrite hd_error_skipn in Hhd. now apply nth_error_In in Hhd.
Qed.

(** X4: of a text of more than 10,000 code units whose window holds no
    sentence ending but a paragraph break, [truncateText] returns the text
    up to the last paragraph break of the window, the break left out. *)
Theorem truncateText_cuts_before_last_paragraph_break (t : jsstring) (k : nat) :
  (MAX_CHARS < length t)%Z ->
  (forall j, patternAt sentenceEndings (searchWindow t) j = false) ->
  patternAt paragraphBreaks (searchWindow t) k = true ->
  (forall j, (k < j)%nat -> patternAt paragraphBreaks (searchWindow t) j = false) ->
  truncateText t
  = mkTruncateResult (trim (firstn (Z.to_nat searchStart + k) t)) true.
Proof.
  intros Hlong Hnone Hk Hafter. pose proof searchStart_range as Hr.
  assert (Hw := searchWindow_suffix t Hlong).
  assert (Hkw : (k < List.length (searchWindow t))%nat).
  { apply existsb_exists in Hk as (p & Hp & Hs).
    apply startsWith_length in Hs. rewrite length_skipn in Hs.
    pose proof (paragraphBreaks_nonempty p Hp).
    destruct p; [congruence|]. simpl in Hs. lia. }
  assert (Hlenw : (Z.of_nat (List.length (searchWindow t))
                   = MAX_CHARS - searchStart)%Z).
  { rewrite Hw, length_skipn, length_firstn. unfold length in *. lia. }
  unfold truncateText. rewrite (proj2 (Z.leb_gt _ _) Hlong). cbv zeta.
  unfold searchWindow in Hnone, Hk, Hafter.
  rewrite (lastOfAny_none sentenceEndings _ sentenceEndings_nonempty Hnone).
  rewrite (lastOfAny_last paragraphBreaks _ k paragraphBreaks_nonempty Hk Hafter).
  rewrite (Z.ltb_irrefl (-1)), (Z.eqb_refl (-1)).
  rewrite (proj2 (Z.ltb_lt (-1) (Z.of_nat k))) by lia.
  f_equal. f_equal.
  rewrite (substring_prefix t MAX_CHARS) by lia.
  rewrite substring_prefix by (unfold length in *; rewrite length_firstn; lia).
  rewrite firstn_firstn. f_equal. lia.
Qed.

(** Nine thousand letters, a blank line, two thousand letters. *)
Definition longParagraphs : jsstring :=
  repeat 97%N (Z.to_nat 9000) ++ [10; 10]%N ++ repeat 98%N (Z.to_nat 2000).

Lemma truncateText_cuts_before_last_paragraph_break_witness :
  truncateText longParagraphs
  = mkTruncateResult
      (trim (firstn (Z.to_nat searchStart + 1000) longParagraphs)) true.
Proof.
  apply (truncateText_cuts_before_last_paragraph_break longParagraphs 1000).
  - vm_compute. reflexivity.
  - intros j. apply (noPatternFrom_spec sentenceEndings _ 0); [|lia].
    vm_compute. reflexivity.
  - vm_compute. reflexivity.
  - intros j Hj. apply (noPatternFrom_spec paragraphBreaks _ 1001); [|lia].
    vm_compute. reflexivity.
Defined.

(** X5: the text [sanitizeText] works on holds no line break, so the
    search for a paragraph break finds nothing: of a sanitized text of
    more than 10,000 code units without a sentence ending in the window,
    what is returned is the first 10,000 code units, less the white space
    at their end. *)
Theorem sanitizeText_hard_cap (raw : jsstring) :
  (MAX_CHARS < length (sanitized raw))%Z ->
  (forall j, patternAt sentenceEndings (searchWindow (sanitized raw)) j = false) ->
  text (sanitizeText raw)
  = trimEnd (firstn (Z.to_nat MAX_CHARS) (sanitized raw)) /\
  wasTruncated (sanitizeText raw) = true.
Proof.
  intros Hlong Hnone. pose proof searchStart_range as Hr.
  assert (Hpar : forall j, patternAt paragraphBreaks
                                     (searchWindow (sanitized raw)) j = false).
  { intros j.
    destruct (patternAt paragraphBreaks (searchWindow (sanitized raw)) j) eqn:E;
      [|reflexivity].
    apply paragraphBreaks_line_break in E.
    rewrite (searchWindow_suffix _ Hlong) in E.
    exfalso. apply (sanitized_no_line_break raw).
    apply (In_firstn (Z.to_nat MAX_CHARS)).
    rewrite <- (firstn_skipn (Z.to_nat searchStart)
                             (firstn (Z.to_nat MAX_CHARS) (sanitized raw))).
    apply in_or_app. now right. }
  unfold sanitizeText. cbn [text wasTruncated].
  unfold truncateText. rewrite (proj2 (Z.leb_gt _ _) Hlong). cbv zeta.
  unfold searchWindow in Hnone, Hpar.
  rewrite (lastOfAny_none sentenceEndings _ sentenceEndings_nonempty Hnone).
  rewrite (lastOfAny_none paragraphBreaks _ paragraphBreaks_nonempty Hpar).
  rewrite (Z.ltb_irrefl (-1)), (Z.eqb_refl (-1)).
  cbn [tr_text tr_wasTruncated]. split; [|reflexivity].
  rewrite (substring_prefix _ MAX_CHARS) by lia.
  unfold trim. f_equal. apply trimStart_fixed. intros c r E.
  destruct (sanitized raw) as [|h s] eqn:Es.
  - unfold length in Hlong. cbn [List.length] in Hlong. lia.
  - destruct (Z.to_nat MAX_CHARS) eqn:En; [unfold MAX_CHARS in En; lia|].
    cbn [firstn] in E. injection E as <- _.
    unfold sanitized in Es. exact (trim_head _ _ _ Es).
Qed.

(** Ten thousand and one letters. *)
Definition longWord : jsstring := repeat 97%N (Z.to_nat 10001).

Lemma sanitizeText_hard_cap_witness :
  text (sanitizeText longWord)
  = trimEnd (firstn (Z.to_nat MAX_CHARS) (sanitized longWord)) /\
  wasTruncated (sanitizeText longWord) = true.
Proof.
  apply (sanitizeText_hard_cap longWord).
  - vm_compute. reflexivity.
  - intros j. apply (noPatternFrom_spec sentenceEndings _ 0); [|lia].
    vm_compute. reflexivity.
Defined.

(* ================================================================== *)
(** * More on validateAndFormatQuestions *)
(* ================================================================== *)

Lemma mapi_from_length {A B} (f : A -> nat -> result B) (l : list A) :
  forall index out,
    mapi_from f index l = Ok out -> List.length out = List.length l.
Proof.
  induction l as [|x l IH]; simpl; intros index out H.
  - now injection H as <-.
  - destruct (f x index) as [y|e]; simpl in H; [|discriminate].
    destruct (mapi_from f (S index) l) as [ys|e] eqn:Em; simpl in H;
      [|discriminate].
    injection H as <-. simpl. f_equal. exact (IH _ _ Em).
Qed.

(** The call ends with the exception of the first element on which [f]
    throws. *)
Lemma mapi_from_first_error {A B} (f : A -> nat -> result B) (l : list A) :
  forall index i x e,
    nth_error l i = Some x ->
    f x (index + i)%nat = Err e ->
    (forall k y, (k < i)%nat -> nth_error l k = Some y ->
                 exists z, f y (index + k)%nat = Ok z) ->
    mapi_from f index l = Err e.
Proof.
  induction l as [|h l IH]; intros index i x e Hn He Hbefore.
  - destruct i; discriminate.
  - destruct i as [|i]; simpl in Hn.
    + injection Hn as ->. simpl. rewrite Nat.add_0_r in He. now rewrite He.
    + simpl. destruct (Hbefore 0%nat h (Nat.lt_0_succ _) eq_refl) as [z Hz].
      rewrite Nat.add_0_r in Hz. rewrite Hz. simpl.
      rewrite (IH (S index) i x e Hn).
      * reflexivity.
      * now rewrite Nat.add_succ_comm.
      * intros k y Hk Hy. rewrite Nat.add_succ_comm.
        apply (Hbefore (S k) y); [lia|exact Hy].
Qed.

Section NormalizerMore.
Context {number : Type} (toString : number -> jsstring).

Local Abbreviation json := (json number).
Local Abbreviation GeneratedQuestion := (GeneratedQuestion number).

(** X6: a successful call returns one question for each question given,
    in the same order, tagged with the type asked for; the text is the
    supplied one for every type but COMPLETION, and the choices are as
    many as supplied for every type but TRUE_FALSE. *)
Theorem normalizer_keeps_count_and_order (questions : list json)
        (questionType : QuestionType) (out : list GeneratedQuestion) :
  validateAndFormatQuestions toString questions questionType = Ok out ->
  List.length out = List.length questions /\
  Forall2
    (fun q g =>
       exists raw,
         isValidQuestionStructure q = Some raw /\
         type g = questionType /\
         (questionType <> COMPLETION -> question g = raw_question raw) /\
         (questionType <> TRUE_FALSE ->
          List.length (choices g) = List.length (raw_choices raw)))
    questions out.
Proof.
  intros H. split; [exact (mapi_from_length _ _ _ _ H)|].
  apply mapi_from_Forall2 in H.
  eapply Forall2_impl; [|exact H]. clear. intros q g [i H].
  apply formatQuestion_Ok in H.
  destruct H as (raw & cs & Hv & Hcs & Hty & _ & Hq & Hc & _).
  exists raw. repeat split; try assumption.
  - intros Hne. rewrite Hq. destruct questionType; congruence.
  - intros Hne. rewrite Hc.
    apply (mapi_from_length _ _ _ _) in Hcs.
    destruct questionType; congruence.
Qed.

(** X7: the correct answers of a MATCHING question are the labels of all
    its choices, in their order, whatever answers were supplied; a
    MULTIPLE_CHOICE or COMPLETION question has exactly one, the first of
    the answers the question supplies, the entries of its
    [correctAnswers] array or else its one [correctAnswers] value, or A
    when none is supplied or the first is null. *)
Theorem matching_and_single_answer_types (questions : list json)
        (questionType : QuestionType) (out : list GeneratedQuestion) :
  validateAndFormatQuestions toString questions questionType = Ok out ->
  Forall2
    (fun q g =>
       exists supplied,
         suppliedAnswers q supplied /\
         (questionType = MATCHING ->
          correctAnswers g = map (fun c => JStr (label c)) (choices g)) /\
         (questionType = MULTIPLE_CHOICE \/ questionType = COMPLETION ->
          (forall first rest, supplied = first :: rest -> first <> JNull ->
                              correctAnswers g = [first]) /\
          (supplied = [] \/ (exists rest, supplied = JNull :: rest) ->
           correctAnswers g = [JStr (js "A")])))
    questions out.
Proof.
  intros H. apply mapi_from_Forall2 in H.
  eapply Forall2_impl; [|exact H]. clear. intros q g [i H].
  apply formatQuestion_Ok in H.
  destruct H as (raw & cs & Hv & _ & _ & _ & _ & Hc & Ha).
  exists (asArray (raw_correctAnswers raw)).
  split; [now apply isValidQuestionStructure_supplied|]. split.
  - intros ->. now rewrite Ha, Hc.
  - intros Hty. assert (E : correctAnswers g
        = [nullish (hd_error (asArray (raw_correctAnswers raw))) (JStr (js "A"))]).
    { rewrite Ha. destruct Hty as [-> | ->]; reflexivity. }
    rewrite E. split.
    + intros first rest -> Hnn. simpl. destruct first; congruence.
    + intros [-> | [rest ->]]; reflexivity.
Qed.

(** X8: the call fails at the first question that is refused, and returns
    no question at all: with [Invalid question structure] naming the index
    of the question when its structure is refused, and with
    [Invalid choice structure] naming the index of the choice, within its
    question, when one of its choices is. *)
Theorem normalizer_fails_at_first_refused_question (questions : list json)
        (questionType : QuestionType) (i : nat) (q : json) :
  nth_error questions i = Some q ->
  (forall k q', (k < i)%nat -> nth_error questions k = Some q' ->
                exists g, formatQuestion toString questionType q' k = Ok g) ->
  (isValidQuestionStructure q = None ->
   validateAndFormatQuestions toString questions questionType
   = Err (InvalidQuestionStructure i)) /\
  (forall raw j entry,
      isValidQuestionStructure q = Some raw ->
      nth_error (raw_choices raw) j = Some entry ->
      isChoiceObject entry = false ->
      forallb isChoiceObject (firstn j (raw_choices raw)) = true ->
      validateAndFormatQuestions toString questions questionType
      = Err (InvalidChoiceStructure j)).
Proof.
  intros Hn Hbefore. unfold validateAndFormatQuestions, mapi. split.
  - intros Hq. apply (mapi_from_first_error _ _ 0 i q); try assumption.
    simpl. unfold formatQuestion. now rewrite Hq.
  - intros raw j entry Hq Hj He Hfirst.
    apply (mapi_from_first_error _ _ 0 i q); try assumption.
    simpl. unfold formatQuestion. rewrite Hq. unfold validateChoices, mapi.
    rewrite (proj2 (validateChoices_from toString (raw_choices raw) 0)
                   j entry Hj He Hfirst).
    reflexivity.
Qed.

End NormalizerMore.

Lemma normalizer_keeps_count_and_order_witness :
  List.length [mkGeneratedQuestion (number := Z) (js "Q") formattedABCD
                 [JStr (js "C")] (JStr []) MULTIPLE_CHOICE]
  = List.length [rawQuestion (js "Q") (JArr [JStr (js "C"); JStr (js "D")])] /\
  Forall2
    (fun q (g : GeneratedQuestion Z) =>
       exists raw,
         isValidQuestionStructure q = Some raw /\
         type g = MULTIPLE_CHOICE /\
         (MULTIPLE_CHOICE <> COMPLETION -> question g = raw_question raw) /\
         (MULTIPLE_CHOICE <> TRUE_FALSE ->
          List.length (choices g) = List.length (raw_choices raw)))
    [rawQuestion (js "Q") (JArr [JStr (js "C"); JStr (js "D")])]
    [mkGeneratedQuestion (js "Q") formattedABCD [JStr (js "C")] (JStr [])
                         MULTIPLE_CHOICE].
Proof.
  apply (normalizer_keeps_count_and_order integerToString). reflexivity.
Defined.

(** Questions that supply two answers, none, a first answer that is
    null, and one answer that is not in an array. *)
Definition singleAnswerRaw : list (json Z) :=
  [rawQuestion (js "Q0 _____") (JArr [JStr (js "C"); JStr (js "D")]);
   rawQuestion (js "Q1 _____") (JArr []);
   rawQuestion (js "Q2 _____") (JArr [JNull; JStr (js "D")]);
   rawQuestion (js "Q3 _____") (JStr (js "B"))].

Definition singleAnswerFormatted (questionType : QuestionType)
  : list (GeneratedQuestion Z) :=
  map (fun q => mkGeneratedQuestion (fst q) formattedABCD [JStr (snd q)]
                                    (JStr []) questionType)
      [(js "Q0 _____", js "C"); (js "Q1 _____", js "A");
       (js "Q2 _____", js "A"); (js "Q3 _____", js "B")].

Lemma matching_and_single_answer_types_witness :
  (validateAndFormatQuestions integerToString
     [rawQuestion (js "Q") (JArr [JStr (js "B")])] MATCHING
   = Ok [mkGeneratedQuestion (js "Q") formattedABCD
           [JStr (js "A"); JStr (js "B"); JStr (js "C"); JStr (js "D")]
           (JStr []) MATCHING] /\
   validateAndFormatQuestions integerToString singleAnswerRaw MULTIPLE_CHOICE
   = Ok (singleAnswerFormatted MULTIPLE_CHOICE) /\
   validateAndFormatQuestions integerToString singleAnswerRaw COMPLETION
   = Ok (singleAnswerFormatted COMPLETION)) /\
  Forall2
    (fun q (g : GeneratedQuestion Z) =>
       exists supplied,
         suppliedAnswers q supplied /\
         (MATCHING = MATCHING ->
          correctAnswers g = map (fun c => JStr (label c)) (choices g)) /\
         (MATCHING = MULTIPLE_CHOICE \/ MATCHING = COMPLETION ->
          (forall first rest, supplied = first :: rest -> first <> JNull ->
                              correctAnswers g = [first]) /\
          (supplied = [] \/ (exists rest, supplied = JNull :: rest) ->
           correctAnswers g = [JStr (js "A")])))
    [rawQuestion (js "Q") (JArr [JStr (js "B")])]
    [mkGeneratedQuestion (js "Q") formattedABCD
       [JStr (js "A"); JStr (js "B"); JStr (js "C"); JStr (js "D")] (JStr [])
       MATCHING] /\
  Forall2
    (fun q (g : GeneratedQuestion Z) =>
       exists supplied,
         suppliedAnswers q supplied /\
         (MULTIPLE_CHOICE = MATCHING ->
          correctAnswers g = map (fun c => JStr (label c)) (choices g)) /\
         (MULTIPLE_CHOICE = MULTIPLE_CHOICE \/ MULTIPLE_CHOICE = COMPLETION ->
          (forall first rest, supplied = first :: rest -> first <> JNull ->
                              correctAnswers g = [first]) /\
          (supplied = [] \/ (exists rest, supplied = JNull :: rest) ->
           correctAnswers g = [JStr (js "A")])))
    singleAnswerRaw (singleAnswerFormatted MULTIPLE_CHOICE) /\
  Forall2
    (fun q (g : GeneratedQuestion Z) =>
       exists supplied,
         suppliedAnswers q supplied /\
         (COMPLETION = MATCHING ->
          correctAnswers g = map (fun c => JStr (label c)) (choices g)) /\
         (COMPLETION = MULTIPLE_CHOICE \/ COMPLETION = COMPLETION ->
          (forall first rest, supplied = first :: rest -> first <> JNull ->
                              correctAnswers g = [first]) /\
          (supplied = [] \/ (exists rest, supplied = JNull :: rest) ->
           correctAnswers g = [JStr (js "A")])))
    singleAnswerRaw (singleAnswerFormatted COMPLETION).
Proof.
  split; [repeat split; reflexivity|].
  split; [|split];
    apply (matching_and_single_answer_types integerToString); reflexivity.
Defined.

Lemma normalizer_fails_at_first_refused_question_witness :
  validateAndFormatQuestions integerToString
    [rawQuestion (js "Q") (JArr [JStr (js "A")]);
     JObj [(js "question", JStr (js "R"));
           (js "choices", JArr [rawChoice (js "A") (js "a"); JNull]);
           (js "correctAnswers", JArr [])]]
    MULTIPLE_CHOICE
  = Err (InvalidChoiceStructure 1).
Proof.
  apply (proj2 (normalizer_fails_at_first_refused_question integerToString
                  [rawQuestion (js "Q") (JArr [JStr (js "A")]);
                   JObj [(js "question", JStr (js "R"));
                         (js "choices", JArr [rawChoice (js "A") (js "a"); JNull]);
                         (js "correctAnswers", JArr [])]]
                  MULTIPLE_CHOICE 1
                  (JObj [(js "question", JStr (js "R"));
                         (js "choices", JArr [rawChoice (js "A") (js "a"); JNull]);
                         (js "correctAnswers", JArr [])])
                  eq_refl
                  ltac:(intros [|k] q' Hk Hq;
                        [injection Hq as <-; eexists; reflexivity|lia]))
               (mkRawQuestion (js "R") [rawChoice (js "A") (js "a"); JNull]
                              (JArr []) None)
               1%nat JNull);
    reflexivity.
Defined.

(* ================================================================== *)
(** * More on the blank repair *)
(* ================================================================== *)

Lemma match_at_final_question_mark (c : N) (rest : jsstring) :
  rest <> [] -> match_at re_final_question_mark (c :: rest) = None.
Proof.
  intros H. unfold re_final_question_mark. cbn -[N.eqb].
  destruct (63 =? c)%N; [|reflexivity]. destruct rest; [congruence|reflexivity].
Qed.

Lemma replaceFirst_final_question_mark (by_ body : jsstring) :
  replaceFirst re_final_question_mark by_ (body ++ [63%N]) = body ++ by_.
Proof.
  induction body as [|c body IH].
  - cbn. now rewrite app_nil_r.
  - cbn [app replaceFirst]. rewrite match_at_final_question_mark.
    + f_equal. exact IH.
    + intros E. now apply app_eq_nil in E as [_ E].
Qed.

Lemma test_final_question_mark (s : jsstring) :
  (forall body, s <> body ++ [63%N]) ->
  test re_final_question_mark s = false.
Proof.
  induction s as [|c s IH]; intros H; [reflexivity|].
  cbn [test]. destruct s as [|d s].
  - unfold re_final_question_mark. cbn -[N.eqb].
    destruct (N.eqb_spec 63 c) as [<-|_]; [|reflexivity].
    exfalso. now apply (H []).
  - rewrite match_at_final_question_mark by discriminate.
    apply IH. intros body E. apply (H (c :: body)). cbn. now f_equal.
Qed.

(** X9: a text without the marker that none of the four patterns matches
    gets the marker, after a space, just before its final question mark
    when it ends with one, and at its end otherwise. *)
Theorem blank_goes_before_final_question_mark (question : jsstring) :
  includes question BLANK = false ->
  somePatternMatches question = false ->
  (forall body, question = body ++ js "?" ->
                fixCompletionQuestion question = body ++ js " _____?") /\
  ((forall body, question <> body ++ js "?") ->
   fixCompletionQuestion question = question ++ js " _____").
Proof.
  intros Hno Hm. unfold fixCompletionQuestion. rewrite Hno. cbn [negb].
  rewrite (substituteBlanks_no_match question Hm). unfold appendBlank.
  rewrite Hno. cbn [negb]. split.
  - intros body ->. change (js "?") with [63%N].
    rewrite replaceFirst_final_question_mark.
    now rewrite (includes_app_r body (js " _____?") BLANK eq_refl).
  - intros Hq.
    rewrite (replaceFirst_no_match _ _ _ (test_final_question_mark _ Hq)).
    now rewrite Hno.
Qed.

Lemma blank_goes_before_final_question_mark_witness :
  fixCompletionQuestion (js "Sông nào dài nhất?") = js "Sông nào dài nhất _____?".
Proof.
  apply (proj1 (blank_goes_before_final_question_mark (js "Sông nào dài nhất?")
                  eq_refl eq_refl)
               (js "Sông nào dài nhất")).
  reflexivity.
Defined.

(** X10: the repair leaves a text that holds the marker as it is, so that
    repairing twice is repairing once. *)
Theorem fixCompletionQuestion_idempotent (question : jsstring) :
  (includes question BLANK = true -> fixCompletionQuestion question = question) /\
  fixCompletionQuestion (fixCompletionQuestion question)
  = fixCompletionQuestion question.
Proof.
  assert (H : forall q, includes q BLANK = true -> fixCompletionQuestion q = q).
  { intros q Hq. unfold fixCompletionQuestion. now rewrite Hq. }
  split; [apply H|]. apply H, fixCompletionQuestion_includes.
Qed.

Lemma fixCompletionQuestion_idempotent_witness :
  fixCompletionQuestion (js "S = π × _____") = js "S = π × _____".
Proof.
  apply (proj1 (fixCompletionQuestion_idempotent (js "S = π × _____"))).
  reflexivity.
Defined.

(* ================================================================== *)
(** * extractJson (openai.service.ts) *)
(* ================================================================== *)

Module Extract.

(** The canonical form of a code unit under the [i] flag, as far as the
    comparison with an ASCII character goes: a lower-case ASCII letter
    becomes the upper-case one; a code unit outside ASCII never becomes an
    ASCII one. *)
Definition canonicalize (c : N) : N :=
  if ((97 <=? c) && (c <=? 122))%N then (c - 32)%N else c.

(** The ASCII literal [p] matches at the head of [s], case ignored. *)
Fixpoint startsWithIgnoreCase (p s : jsstring) : bool :=
  match p, s with
  | [], _ => true
  | _ :: _, [] => false
  | a :: p', b :: s' =>
    (canonicalize a =? canonicalize b)%N && startsWithIgnoreCase p' s'
  end.

(** [s.replace(/lit/gi, '')] for an ASCII literal that is not empty:
    [skip] code units of the current match are still to be dropped. *)
Fixpoint removeAllIgnoreCase_go (lit : jsstring) (skip : nat) (s : jsstring)
  : jsstring :=
  match s with
  | [] => []
  | c :: r =>
    match skip with
    | S k => removeAllIgnoreCase_go lit k r
    | O =>
      if startsWithIgnoreCase lit s
      then removeAllIgnoreCase_go lit (List.length lit - 1) r
      else c :: removeAllIgnoreCase_go lit O r
    end
  end.

Definition removeAllIgnoreCase (lit s : jsstring) : jsstring :=
  removeAllIgnoreCase_go lit O s.

(** [s.match(/re/)], without the [g] flag: the first match, if any. *)
Fixpoint execFirst (re : regex) (s : jsstring) : option jsstring :=
  match match_at re s with
  | Some n => Some (firstn n s)
  | None => match s with
            | [] => None
            | _ :: r => execFirst re r
            end
  end.

Definition FENCE_JSON : jsstring := Eval vm_compute in js "```json".
Definition re_fence : regex := Eval vm_compute in [Lit (js "```")].

(** [/\{[\s\S]*\}/] *)
Definition re_braces : regex :=
  [Lit [123%N]; Star (fun _ => true); Lit [125%N]].

(** The [cleaned] text of [extractJson]. *)
Definition cleanFences (text : jsstring) : jsstring :=
  trim (replaceAll re_fence [] (removeAllIgnoreCase FENCE_JSON text)).

Section WithParser.
Context {number : Type}.

(** [JSON.parse], which is outside the program: [None] when it throws. *)
Context (parse : jsstring -> option (json number)).

Definition extractJson (text : jsstring) : option jsstring :=
  let cleaned := cleanFences text in
  match parse cleaned with
  | Some _ => Some cleaned
  | None =>
    match execFirst re_braces text with
    | Some m =>
      match parse m with
      | Some _ => Some m
      | None => None
      end
    | None => None
    end
  end.

End WithParser.

End Extract.

Import Extract.

Lemma canonicalize_backtick (c : N) :
  (canonicalize 96 =? canonicalize c)%N = true -> c = 96%N.
Proof.
  unfold canonicalize. intros H. apply N.eqb_eq in H. cbn in H.
  destruct (N.leb_spec 97 c), (N.leb_spec c 122); cbn in H; lia.
Qed.

Lemma removeAllIgnoreCase_go_no_backtick (x tail : jsstring) :
  ~ In 96%N x ->
  removeAllIgnoreCase_go FENCE_JSON 0 (x ++ tail)
  = x ++ removeAllIgnoreCase_go FENCE_JSON 0 tail.
Proof.
  induction x as [|c x IH]; intros H; [reflexivity|].
  cbn [app removeAllIgnoreCase_go].
  assert (E : startsWithIgnoreCase FENCE_JSON (c :: x ++ tail) = false).
  { unfold FENCE_JSON. cbn [startsWithIgnoreCase].
    destruct (canonicalize 96 =? canonicalize c)%N eqn:Ec; [|reflexivity].
    apply canonicalize_backtick in Ec. exfalso. apply H. now left. }
  rewrite E. f_equal. apply IH. intros Hin. apply H. now right.
Qed.

Lemma replaceAll_go_fence_no_backtick (x tail : jsstring) :
  ~ In 96%N x ->
  replaceAll_go re_fence [] 0 (x ++ tail) = x ++ replaceAll_go re_fence [] 0 tail.
Proof.
  induction x as [|c x IH]; intros H; [reflexivity|].
  cbn [app replaceAll_go]. unfold re_fence at 1.
  rewrite match_at_literal_absent.
  - f_equal. apply IH. intros Hin. apply H. now right.
  - cbn -[N.eqb]. destruct (N.eqb_spec 96 c) as [<-|_]; [|reflexivity].
    exfalso. apply H. now left.
Qed.

Lemma trimEnd_app_whitespace (s : jsstring) (w : N) :
  is_whitespace w = true -> trimEnd (s ++ [w]) = trimEnd s.
Proof.
  intros H. induction s as [|c s IH]; cbn [app trimEnd]; [now rewrite H|].
  now rewrite IH.
Qed.

Lemma trim_between_line_breaks (j : jsstring) :
  trim j = j -> trim ([10%N] ++ j ++ [10%N]) = j.
Proof.
  intros Hj. unfold trim. cbn [app trimStart]. change (is_whitespace 10) with true.
  cbv iota. destruct j as [|c r]; [reflexivity|].
  pose proof (trim_head _ _ _ Hj) as Hc.
  assert (Es : forall t, trimStart (c :: t) = c :: t)
    by (intros t; cbn; now rewrite Hc).
  cbn [app]. rewrite Es.
  change (c :: r ++ [10%N]) with ((c :: r) ++ [10%N]).
  rewrite trimEnd_app_whitespace by reflexivity.
  unfold trim in Hj. now rewrite Es in Hj.
Qed.

Lemma execFirst_within (re : regex) (s m : jsstring) :
  execFirst re s = Some m -> exists pre post, s = pre ++ m ++ post.
Proof.
  induction s as [|c s IH]; cbn [execFirst].
  - destruct (match_at re []) as [n|]; [|discriminate].
    intros H. injection H as <-. exists [], []. now destruct n.
  - destruct (match_at re (c :: s)) as [n|].
    + intros H. injection H as <-. exists [], (skipn n (c :: s)).
      cbn [app]. symmetry. apply firstn_skipn.
    + intros H. destruct (IH H) as (pre & post & ->).
      now exists (c :: pre), post.
Qed.

Section ExtractFacts.
Context {number : Type} (parse : jsstring -> option (json number)).

(** X11: whatever [extractJson] returns is a text that [JSON.parse]
    accepts: the response with its fences removed and trimmed, or else a
    part of the response. *)
Theorem extractJson_returns_parsable_text (text s : jsstring) :
  extractJson parse text = Some s ->
  (exists v, parse s = Some v) /\
  (s = cleanFences text \/ exists pre post, text = pre ++ s ++ post).
Proof.
  unfold extractJson. cbv zeta.
  destruct (parse (cleanFences text)) as [v|] eqn:E1.
  - intros H. injection H as <-. split; [now exists v|now left].
  - destruct (execFirst re_braces text) as [m|] eqn:E2; [|discriminate].
    destruct (parse m) as [v|] eqn:E3; [|discriminate].
    intros H. injection H as <-. split; [now exists v|right].
    exact (execFirst_within _ _ _ E2).
Qed.

(** X12: a text that [JSON.parse] accepts, without a backtick and without
    white space at its ends, is returned as it is, and so it is when it
    comes between a line with the opening fence, of any letter case, and a
    line with the closing fence. *)
Theorem extractJson_fenced_as_unfenced (j fence : jsstring) (v : json number) :
  parse j = Some v ->
  ~ In 96%N j ->
  trim j = j ->
  List.length fence = 7%nat ->
  startsWithIgnoreCase FENCE_JSON fence = true ->
  extractJson parse j = Some j /\
  extractJson parse (fence ++ [10%N] ++ j ++ [10%N] ++ js "```") = Some j.
Proof.
  intros Hp Hno Hj Hlen Hf.
  assert (E1 : cleanFences j = j).
  { unfold cleanFences, removeAllIgnoreCase, replaceAll.
    rewrite <- (app_nil_r j) at 1.
    rewrite removeAllIgnoreCase_go_no_backtick by assumption.
    cbn [removeAllIgnoreCase_go].
    rewrite replaceAll_go_fence_no_backtick by assumption.
    cbn. now rewrite app_nil_r. }
  assert (E2 : cleanFences (fence ++ [10%N] ++ j ++ [10%N] ++ js "```") = j).
  { unfold cleanFences, removeAllIgnoreCase, replaceAll.
    destruct fence as [|f0 [|f1 [|f2 [|f3 [|f4 [|f5 [|f6 [|f7 fence]]]]]]]];
      try discriminate.
    assert (Hs : forall rest,
               startsWithIgnoreCase FENCE_JSON
                 (f0 :: f1 :: f2 :: f3 :: f4 :: f5 :: f6 :: rest) = true).
    { intros rest. unfold FENCE_JSON in *. cbn [startsWithIgnoreCase] in *.
      repeat (apply andb_true_iff in Hf as [-> Hf]). reflexivity. }
    assert (Hdrop : forall rest,
               removeAllIgnoreCase_go FENCE_JSON 0
                 (f0 :: f1 :: f2 :: f3 :: f4 :: f5 :: f6 :: rest)
               = removeAllIgnoreCase_go FENCE_JSON 0 rest).
    { intros rest. cbn [removeAllIgnoreCase_go]. now rewrite Hs. }
    assert (Hno' : ~ In 96%N (10%N :: j)).
    { intros [H|H]; [discriminate|contradiction]. }
    change ([f0; f1; f2; f3; f4; f5; f6] ++ [10%N] ++ j ++ [10%N] ++ js "```")
      with (f0 :: f1 :: f2 :: f3 :: f4 :: f5 :: f6
               :: (10%N :: j) ++ ([10%N] ++ js "```")).
    rewrite Hdrop.
    rewrite removeAllIgnoreCase_go_no_backtick by assumption.
    change (removeAllIgnoreCase_go FENCE_JSON 0 ([10%N] ++ js "```"))
      with ([10%N] ++ js "```").
    rewrite replaceAll_go_fence_no_backtick by assumption.
    change (replaceAll_go re_fence [] 0 ([10%N] ++ js "```")) with [10%N].
    now apply trim_between_line_breaks. }
  unfold extractJson. cbv zeta. now rewrite E1, E2, Hp.
Qed.

End ExtractFacts.

(** A parser that accepts one text. *)
Definition parsesOnly (accepted : jsstring) (s : jsstring) : option (json Z) :=
  if eqb s accepted then Some (JObj []) else None.

Lemma extractJson_returns_parsable_text_witness :
  (exists v, parsesOnly (js "{}") (js "{}") = Some v) /\
  (js "{}" = cleanFences (js "Đây là kết quả: {} nhé") \/
   exists pre post, js "Đây là kết quả: {} nhé" = pre ++ js "{}" ++ post).
Proof.
  apply (extractJson_returns_parsable_text (parsesOnly (js "{}"))).
  vm_compute. reflexivity.
Defined.

Lemma extractJson_fenced_as_unfenced_witness :
  extractJson (parsesOnly (js "{}")) (js "{}") = Some (js "{}") /\
  extractJson (parsesOnly (js "{}"))
              (js "```JSON" ++ [10%N] ++ js "{}" ++ [10%N] ++ js "```")
  = Some (js "{}").
Proof.
  apply (extractJson_fenced_as_unfenced (parsesOnly (js "{}")) (js "{}")
                                        (js "```JSON") (JObj []));
    try reflexivity.
  vm_compute. intros [H|[H|[]]]; discriminate.
Defined.

(** The greedy choice settles on the greatest count that lets the rest of
    the pattern match. *)
Lemma try_down_last (k : nat -> option nat) (lo n0 r : nat) :
  forall n,
    (n0 <= n)%nat ->
    k (lo + n0)%nat = Some r ->
    (forall m, (n0 < m <= n)%nat -> k (lo + m)%nat = None) ->
    try_down k lo n = Some r.
Proof.
  induction n as [|n IH]; intros Hle Hk Hnone.
  - assert (n0 = 0)%nat by lia. subst. cbn. now rewrite Hk.
  - destruct (Nat.eq_dec n0 (S n)) as [->|Hne].
    + cbn [try_down]. now rewrite Hk.
    + cbn [try_down]. rewrite (Hnone (S n)) by lia.
      apply IH; [lia|exact Hk|]. intros m Hm. apply Hnone. lia.
Qed.

Lemma try_down_none (k : nat -> option nat) (lo : nat) :
  forall n, (forall m, (m <= n)%nat -> k (lo + m)%nat = None) ->
            try_down k lo n = None.
Proof.
  induction n as [|n IH]; intros H; cbn [try_down].
  - now rewrite (H 0%nat).
  - rewrite (H (S n)) by lia. apply IH. intros m Hm. apply H. lia.
Qed.

Lemma span_all (s : jsstring) : span (fun _ => true) s = List.length s.
Proof. induction s as [|c s IH]; cbn; congruence. Qed.

Lemma match_at_closing_brace (s : jsstring) :
  match_at [Lit [125%N]] s
  = match s with
    | c :: _ => if (125 =? c)%N then Some 1%nat else None
    | [] => None
    end.
Proof.
  destruct s as [|c s]; [reflexivity|]. cbn -[N.eqb].
  now destruct (125 =? c)%N.
Qed.

Lemma match_at_star (c : N -> bool) (re : regex) (s : jsstring) :
  match_at (Star c :: re) s
  = try_down (fun k => option_map (Nat.add k) (match_at re (skipn k s)))
             0 (span c s).
Proof. reflexivity. Qed.

Lemma match_at_literal_1 (a : N) (re : regex) (s : jsstring) :
  match_at (Lit [a] :: re) (a :: s) = option_map (Nat.add 1) (match_at re s).
Proof.
  change (match_at (Lit [a] :: re) (a :: s))
    with (if startsWith [a] (a :: s)
          then option_map (Nat.add 1) (match_at re (skipn 1 (a :: s)))
          else None).
  cbn [startsWith skipn]. now rewrite N.eqb_refl.
Qed.

(** From an opening brace, the match runs to the last closing brace. *)
Lemma match_at_braces (mid post : jsstring) :
  ~ In 125%N post ->
  match_at re_braces (123%N :: mid ++ 125%N :: post)
  = Some (S (List.length mid + 1)).
Proof.
  intros Hpost. unfold re_braces.
  rewrite match_at_literal_1, match_at_star, span_all.
  rewrite (try_down_last _ 0 (List.length mid) (List.length mid + 1)).
  - reflexivity.
  - rewrite length_app. lia.
  - cbn [Nat.add]. rewrite match_at_closing_brace, skipn_app, skipn_all.
    rewrite Nat.sub_diag. cbn. reflexivity.
  - intros m Hm. cbn [Nat.add]. rewrite match_at_closing_brace.
    destruct (skipn m (mid ++ 125%N :: post)) as [|c rest] eqn:E;
      [reflexivity|].
    destruct (N.eqb_spec 125 c) as [<-|_]; [|reflexivity].
    exfalso. apply Hpost.
    assert (Hin : In 125%N (skipn m (mid ++ 125%N :: post)))
      by (rewrite E; now left).
    rewrite skipn_app in Hin. rewrite skipn_all2 in Hin by lia.
    cbn [app] in Hin.
    destruct (m - List.length mid)%nat as [|d] eqn:Ed; [lia|].
    cbn [skipn] in Hin.
    rewrite <- (firstn_skipn d post). apply in_or_app. now right.
Qed.

Lemma match_at_braces_absent (c : N) (s : jsstring) :
  c <> 123%N -> match_at re_braces (c :: s) = None.
Proof.
  intros H. unfold re_braces. apply match_at_literal_absent.
  cbn -[N.eqb]. destruct (N.eqb_spec 123 c); [congruence|reflexivity].
Qed.

Lemma execFirst_braces (pre mid post : jsstring) :
  ~ In 123%N pre -> ~ In 125%N post ->
  execFirst re_braces (pre ++ 123%N :: mid ++ 125%N :: post)
  = Some (123%N :: mid ++ [125%N]).
Proof.
  intros Hpre Hpost. induction pre as [|c pre IH].
  - cbn [app execFirst]. rewrite (match_at_braces mid post Hpost).
    f_equal. cbn [firstn]. f_equal.
    rewrite firstn_app, firstn_all2 by lia.
    replace (List.length mid + 1 - List.length mid)%nat with 1%nat by lia.
    reflexivity.
  - cbn [app execFirst]. rewrite match_at_braces_absent.
    + apply IH. intros Hin. apply Hpre. now right.
    + intros ->. apply Hpre. now left.
Qed.

Lemma execFirst_no_brace (s : jsstring) :
  ~ In 123%N s -> execFirst re_braces s = None.
Proof.
  induction s as [|c s IH]; intros H; [reflexivity|].
  cbn [execFirst]. rewrite match_at_braces_absent.
  - apply IH. intros Hin. apply H. now right.
  - intros ->. apply H. now left.
Qed.

Section ExtractFallback.
Context {number : Type} (parse : jsstring -> option (json number)).

(** X13: when the response with its fences removed is not a text that
    [JSON.parse] accepts, what is tried next is the part of the response
    from its first opening brace to its last closing brace: it is returned
    when it is accepted, and nothing is returned when it is not. Nothing
    is returned either when the response has no opening brace. *)
Theorem extractJson_falls_back_on_outer_braces (text : jsstring) :
  parse (cleanFences text) = None ->
  (forall pre mid post,
      text = pre ++ js "{" ++ mid ++ js "}" ++ post ->
      ~ In 123%N pre -> ~ In 125%N post ->
      extractJson parse text
      = match parse (js "{" ++ mid ++ js "}") with
        | Some _ => Some (js "{" ++ mid ++ js "}")
        | None => None
        end) /\
  (~ In 123%N text -> extractJson parse text = None).
Proof.
  intros Hp. unfold extractJson. cbv zeta. rewrite Hp. split.
  - intros pre mid post -> Hpre Hpost.
    change (pre ++ js "{" ++ mid ++ js "}" ++ post)
      with (pre ++ 123%N :: mid ++ 125%N :: post).
    rewrite (execFirst_braces pre mid post Hpre Hpost). reflexivity.
  - intros H. now rewrite (execFirst_no_brace text H).
Qed.

End ExtractFallback.

Lemma extractJson_falls_back_on_outer_braces_witness :
  extractJson (parsesOnly (js "{[{}]}")) (js "Kết quả: {[{}]} nhé")
  = match parsesOnly (js "{[{}]}") (js "{" ++ js "[{}]" ++ js "}") with
    | Some _ => Some (js "{" ++ js "[{}]" ++ js "}")
    | None => None
    end.
Proof.
  apply (proj1 (extractJson_falls_back_on_outer_braces
                  (parsesOnly (js "{[{}]}")) (js "Kết quả: {[{}]} nhé")
                  eq_refl)
               (js "Kết quả: ") (js "[{}]") (js " nhé")).
  - vm_compute. reflexivity.
  - vm_compute. intuition discriminate.
  - vm_compute. intuition discriminate.
Defined.

(* ================================================================== *)
(** * More on generateMultipleQuestions *)
(* ================================================================== *)

Section AggregatorMore.
Context {number : Type} (toString : number -> jsstring).

Local Abbreviation json := (json number).
Local Abbreviation GeneratedQuestion := (GeneratedQuestion number).

(** An answer on which [OpenAIService.generateQuestions] throws: the call
    of the model or the decoding fails, or the normalizer refuses a
    question. *)
Definition refused (questionType : QuestionType)
           (answer : option (option (list json))) : Prop :=
  match answer with
  | Some (Some questions) =>
    exists e, validateAndFormatQuestions toString questions questionType = Err e
  | _ => True
  end.

Lemma generateQuestions_refused (request : GenerateQuestionsRequest)
      (w : World number) :
  refused (req_questionType request) (hd_error (answers w)) ->
  generateQuestions toString request w
  = (Err FailedToGenerateQuestions,
     mkWorld (tl (answers w)) (request :: requests w)).
Proof.
  unfold generateQuestions, refused. destruct (answers w) as [|[qs|] rest];
    cbn [hd_error tl]; try reflexivity.
  intros [e ->]. reflexivity.
Qed.

Lemma generateEach_refused (content : jsstring) (dto : GenerateMultipleQuestionsDto)
      (quota : Z) (done : list QuestionType)
      (answers : list (option (list json)))
      (perType : list (list GeneratedQuestion)) :
  served toString done answers perType ->
  forall questionType rest reqs all,
    refused questionType (nth_error answers (List.length done)) ->
    generateEach toString content dto quota (done ++ questionType :: rest) all
                 (mkWorld answers reqs)
    = (Err FailedToGenerateQuestions,
       mkWorld (skipn (S (List.length done)) answers)
               (rev (map (fun t => mkRequest content (subject dto) quota t
                                             (tone dto) (difficulty dto))
                         (done ++ [questionType])) ++ reqs)).
Proof.
  induction 1 as [answers|t types questions answers generated others Hv _ IH];
    intros questionType rest reqs all Hbad.
  - cbn [app generateEach List.length]. unfold mbind.
    rewrite generateQuestions_refused.
    + cbn [Questions.answers requests map rev app]. now destruct answers.
    + cbn [Questions.answers req_questionType]. now destruct answers.
  - cbn [app generateEach]. unfold mbind at 1. unfold generateQuestions at 1.
    cbn [Questions.answers requests req_questionType tl]. rewrite Hv.
    rewrite (IH questionType rest _ _ Hbad).
    cbn [List.length skipn map rev app]. now rewrite <- !app_assoc.
Qed.

(** X14: when the model's answer for one of the entries is refused, the
    whole call fails with [Failed to generate questions]: the questions
    made for the entries before it are not returned, and no request is
    made for the entries after it. *)
Theorem aggregator_stops_at_first_failure (rawText : jsstring)
        (dto : GenerateMultipleQuestionsDto) (w : World number)
        (done rest : list QuestionType) (questionType : QuestionType)
        (perType : list (list GeneratedQuestion)) :
  questionTypes dto = done ++ questionType :: rest ->
  served toString done (answers w) perType ->
  refused questionType (nth_error (answers w) (List.length done)) ->
  generateMultipleQuestions toString rawText dto w
  = (Err FailedToGenerateQuestions,
     mkWorld (skipn (S (List.length done)) (answers w))
             (rev (map (requestFor rawText dto) (done ++ [questionType]))
                  ++ requests w)).
Proof.
  intros Ht Hs Hbad. unfold generateMultipleQuestions.
  destruct w as [ans reqs]. cbn [Questions.answers requests] in *.
  unfold mbind. rewrite Ht at 2.
  rewrite (generateEach_refused _ dto _ _ _ _ Hs questionType rest reqs [] Hbad).
  reflexivity.
Qed.

(** What a run that succeeds has done. *)
Lemma generateEach_Ok (content : jsstring) (dto : GenerateMultipleQuestionsDto)
      (quota : Z) (types : list QuestionType) :
  forall all w out w',
    generateEach toString content dto quota types all w = (Ok out, w') ->
    exists perType,
      served toString types (answers w) perType /\
      out = all ++ List.concat perType.
Proof.
  induction types as [|t types IH]; intros all w out w' H.
  - cbn in H. injection H as <- <-. exists []. split; [constructor|].
    now rewrite app_nil_r.
  - cbn [generateEach] in H. unfold mbind at 1 in H.
    unfold generateQuestions at 1 in H. cbn [req_questionType] in H.
    destruct (answers w) as [|[qs|] rest] eqn:Ea; try discriminate.
    destruct (validateAndFormatQuestions toString qs t) as [gen|e] eqn:Ev;
      [|discriminate].
    apply IH in H as (perType & Hs & ->). cbn [Questions.answers tl] in Hs.
    exists (gen :: perType). split; [now constructor|].
    cbn [List.concat]. now rewrite app_assoc.
Qed.

Lemma served_types (types : list QuestionType)
      (answers : list (option (list json)))
      (perType : list (list GeneratedQuestion)) :
  served toString types answers perType ->
  forall g, In g (List.concat perType) -> In (type g) types.
Proof.
  induction 1 as [answers|t types questions answers generated others Hv _ IH];
    intros g Hg; [contradiction|].
  cbn [List.concat] in Hg. apply in_app_or in Hg as [Hg|Hg].
  - left. apply mapi_from_Forall2 in Hv.
    clear IH. induction Hv as [|q x qs xs [i Hq] _ IHv]; [contradiction|].
    destruct Hg as [<-|Hg]; [|now apply IHv].
    apply formatQuestion_Ok in Hq.
    destruct Hq as (raw & cs & _ & _ & Hty & _). now symmetry.
  - right. now apply IH.
Qed.

(** X15: a call that succeeds returns at most [questionCount] questions,
    each of a type that was asked for, and has made one request for each
    entry of [questionTypes]. *)
Theorem aggregator_result_is_bounded (rawText : jsstring)
        (dto : GenerateMultipleQuestionsDto) (w w' : World number)
        (final : list GeneratedQuestion) :
  (0 <= questionCount dto)%Z ->
  generateMultipleQuestions toString rawText dto w = (Ok final, w') ->
  (Z.of_nat (List.length final) <= questionCount dto)%Z /\
  (forall g, In g final -> In (type g) (questionTypes dto)) /\
  requests w'
  = rev (map (requestFor rawText dto) (questionTypes dto)) ++ requests w.
Proof.
  intros Hn H. unfold generateMultipleQuestions in H. unfold mbind in H.
  destruct (generateEach toString (text (sanitizeText rawText)) dto
              (ceilDiv (questionCount dto)
                       (Z.of_nat (List.length (questionTypes dto))))
              (questionTypes dto) [] w) as [[all|e] w1] eqn:E; [|discriminate].
  unfold ret in H. injection H as <- <-.
  pose proof (generateEach_Ok _ _ _ _ _ _ _ _ E) as (perType & Hs & ->).
  destruct w as [ans reqs]. cbn [Questions.answers] in Hs.
  rewrite (generateEach_served toString _ dto _ _ _ _ Hs) in E.
  injection E as <-. cbn [app requests].
  assert (Hfix : map fixQuestion (List.concat perType) = List.concat perType).
  { clear Hn. induction Hs as [|t types qs answers g rest Hv _ IH];
      [reflexivity|].
    cbn [List.concat]. rewrite map_app, IH.
    now rewrite (map_fixQuestion_formatted toString _ _ _ Hv). }
  rewrite Hfix. unfold slice0.
  rewrite (proj2 (Z.ltb_ge (questionCount dto) 0)) by lia.
  repeat split.
  - rewrite length_firstn. lia.
  - intros g Hg. apply In_firstn in Hg. exact (served_types _ _ _ Hs g Hg).
Qed.

(** X16: when the model returns for every entry as many questions as it
    was asked for, the call returns exactly [questionCount] questions. *)
Theorem aggregator_returns_exactly_questionCount (rawText : jsstring)
        (dto : GenerateMultipleQuestionsDto) (w : World number)
        (perType : list (list GeneratedQuestion)) :
  (1 <= questionCount dto)%Z ->
  questionTypes dto <> [] ->
  served toString (questionTypes dto) (answers w) perType ->
  Forall (fun generated =>
            Z.of_nat (List.length generated)
            = ceilDiv (questionCount dto)
                      (Z.of_nat (List.length (questionTypes dto)))) perType ->
  exists final w',
    generateMultipleQuestions toString rawText dto w = (Ok final, w') /\
    Z.of_nat (List.length final) = questionCount dto.
Proof.
  intros Hn Hk Hs Hq. unfold generateMultipleQuestions.
  destruct w as [ans reqs]. unfold mbind. cbn [Questions.answers] in Hs.
  rewrite (generateEach_served toString _ dto _ _ _ _ Hs). unfold ret.
  eexists _, _. split; [reflexivity|]. cbn [app].
  assert (Hfix : map fixQuestion (List.concat perType) = List.concat perType).
  { clear Hn Hk Hq. induction Hs as [|t types qs answers g rest Hv _ IH];
      [reflexivity|].
    cbn [List.concat]. rewrite map_app, IH.
    now rewrite (map_fixQuestion_formatted toString _ _ _ Hv). }
  rewrite Hfix. unfold slice0.
  rewrite (proj2 (Z.ltb_ge (questionCount dto) 0)) by lia.
  rewrite length_firstn.
  assert (Hlen : Z.of_nat (List.length (List.concat perType))
                 = (Z.of_nat (List.length perType)
                    * ceilDiv (questionCount dto)
                              (Z.of_nat (List.length (questionTypes dto))))%Z).
  { clear Hs Hfix. induction Hq as [|g rest Hg _ IH]; [reflexivity|].
    cbn [List.concat List.length]. rewrite length_app.
    rewrite Nat2Z.inj_add, Nat2Z.inj_succ, Hg, IH. ring. }
  assert (Hcount : List.length perType = List.length (questionTypes dto)).
  { clear Hq Hlen Hfix Hk Hn. induction Hs; cbn; congruence. }
  assert (Hb : (0 < Z.of_nat (List.length (questionTypes dto)))%Z).
  { destruct (questionTypes dto); [congruence|]. cbn [List.length]. lia. }
  pose proof (ceilDiv_ceiling (questionCount dto) _ Hb) as Hc.
  rewrite Hcount in Hlen. lia.
Qed.

End AggregatorMore.

Lemma aggregator_stops_at_first_failure_witness :
  generateMultipleQuestions integerToString (js "Hà Nội là thủ đô.")
    fiveOfTwoTypes (mkWorld [Some fiveRaw; Some [JNull]; Some fiveRaw] [])
  = (Err FailedToGenerateQuestions,
     mkWorld (skipn 2 [Some fiveRaw; Some [JNull]; Some fiveRaw])
             (rev (map (requestFor (js "Hà Nội là thủ đô.") fiveOfTwoTypes)
                       ([MULTIPLE_CHOICE] ++ [TRUE_FALSE])) ++ [])).
Proof.
  apply (aggregator_stops_at_first_failure integerToString
           (js "Hà Nội là thủ đô.") fiveOfTwoTypes
           (mkWorld [Some fiveRaw; Some [JNull]; Some fiveRaw] [])
           [MULTIPLE_CHOICE] [] TRUE_FALSE [fiveMultipleChoice]).
  - reflexivity.
  - repeat constructor.
  - cbn. eexists. reflexivity.
Defined.

Lemma aggregator_result_is_bounded_witness :
  (Z.of_nat (List.length fiveMultipleChoice) <= questionCount fiveOfTwoTypes)%Z /\
  (forall g, In g fiveMultipleChoice ->
             In (type g) (questionTypes fiveOfTwoTypes)) /\
  requests
    (mkWorld (number := Z) []
       [mkRequest (js "Hà Nội là thủ đô.") (js "Địa lý") 3 TRUE_FALSE None None;
        mkRequest (js "Hà Nội là thủ đô.") (js "Địa lý") 3 MULTIPLE_CHOICE
                  None None])
  = rev (map (requestFor (js "Hà Nội là thủ đô.") fiveOfTwoTypes)
             (questionTypes fiveOfTwoTypes)) ++ requests twoAnswers.
Proof.
  apply (aggregator_result_is_bounded integerToString (js "Hà Nội là thủ đô.")
           fiveOfTwoTypes twoAnswers).
  - vm_compute. discriminate.
  - vm_compute. reflexivity.
Defined.

(** Three questions for each of two types, five questions asked for. *)
Definition threeRaw : list (json Z) := firstn 3 fiveRaw.

Lemma aggregator_returns_exactly_questionCount_witness :
  exists final w',
    generateMultipleQuestions integerToString (js "Hà Nội là thủ đô.")
      fiveOfTwoTypes (mkWorld [Some threeRaw; Some threeRaw] [])
    = (Ok final, w') /\
    Z.of_nat (List.length final) = questionCount fiveOfTwoTypes.
Proof.
  apply (aggregator_returns_exactly_questionCount integerToString
           (js "Hà Nội là thủ đô.") fiveOfTwoTypes
           (mkWorld [Some threeRaw; Some threeRaw] [])
           [firstn 3 fiveMultipleChoice; firstn 3 fiveTrueFalse]).
  - vm_compute. discriminate.
  - discriminate.
  - repeat constructor.
  - repeat constructor.
Defined.

(** ** The repair pass on any question *)

Section RepairPass.
Context {number : Type}.

Local Abbreviation json := (json number).
Local Abbreviation GeneratedQuestion := (GeneratedQuestion number).

(** On fewer than two answers the loop of the pass gives what the
    normalizer gives, so that its fallback on A and B is never reached. *)
Lemma pushWhileShort_fixMultipleResponse (answers : list json) :
  (List.length answers < 2)%nat ->
  pushWhileShort answers
    (filter (fun label => negb (includes_label answers label)) LABELS)
  = fixMultipleResponse answers.
Proof.
  destruct answers as [|x [|y rest]]; cbn [List.length]; try lia; intros _.
  - reflexivity.
  - unfold fixMultipleResponse, LABELS, includes_label.
    cbn [List.length Nat.ltb Nat.leb Nat.eqb filter existsb].
    destruct (is_string [65%N] x) eqn:EA.
    + apply is_string_true in EA. subst x. reflexivity.
    + cbn [orb negb]. destruct (is_string [66%N] x), (is_string [67%N] x),
        (is_string [68%N] x); reflexivity.
Qed.

Lemma fixQuestion_fixed (q : GeneratedQuestion) :
  (type q = MULTIPLE_RESPONSE -> (2 <= List.length (correctAnswers q))%nat) ->
  (type q = COMPLETION -> includes (question q) BLANK = true) ->
  fixQuestion q = q.
Proof.
  intros H1 H2. unfold fixQuestion.
  assert (E1 : QuestionType_eqb (type q) MULTIPLE_RESPONSE
               && (List.length (correctAnswers q) <? 2)%nat = false).
  { destruct (type q) eqn:Et; try reflexivity. cbn [QuestionType_eqb andb].
    apply Nat.ltb_ge. now apply H1. }
  rewrite E1.
  assert (E2 : QuestionType_eqb (type q) COMPLETION
               && negb (includes (question q) BLANK) = false).
  { destruct (type q) eqn:Et; try reflexivity. cbn [QuestionType_eqb andb].
    now rewrite H2. }
  now rewrite E2.
Qed.

Lemma fixQuestion_fields (q : GeneratedQuestion) :
  type (fixQuestion q) = type q /\
  choices (fixQuestion q) = choices q /\
  explanation (fixQuestion q) = explanation q /\
  correctAnswers (fixQuestion q)
  = (if QuestionType_eqb (type q) MULTIPLE_RESPONSE
        && (List.length (correctAnswers q) <? 2)%nat
     then fixMultipleResponse (correctAnswers q)
     else correctAnswers q) /\
  question (fixQuestion q)
  = (if QuestionType_eqb (type q) COMPLETION
        && negb (includes (question q) BLANK)
     then appendBlank (substituteBlanks3 (question q))
     else question q).
Proof.
  unfold fixQuestion.
  destruct (QuestionType_eqb (type q) MULTIPLE_RESPONSE
            && (List.length (correctAnswers q) <? 2)%nat) eqn:E1.
  - apply andb_true_iff in E1 as [Et El]. apply Nat.ltb_lt in El.
    rewrite (pushWhileShort_fixMultipleResponse _ El).
    assert (Hlen : (2 <= List.length (fixMultipleResponse (correctAnswers q)))%nat)
      by apply (fixMultipleResponse_rule (correctAnswers q)).
    rewrite (proj2 (Nat.ltb_ge _ _) Hlen).
    cbn [type question choices correctAnswers explanation].
    destruct (QuestionType_eqb (type q) COMPLETION
              && negb (includes (question q) BLANK));
      cbn [type question choices correctAnswers explanation];
      repeat split; reflexivity.
  - destruct (QuestionType_eqb (type q) COMPLETION
              && negb (includes (question q) BLANK));
      cbn [type question choices correctAnswers explanation];
      repeat split; reflexivity.
Qed.

(** X17: the repair pass of [generateMultipleQuestions] changes nothing
    but the answers of a MULTIPLE_RESPONSE question that has fewer than
    two, which become what the normalizer makes of them, and the text of
    a COMPLETION question without the marker, which gets one: the text
    after the three substitutions, with the marker added before a final
    question mark or at the end when they have brought none. A question
    of another type than MULTIPLE_RESPONSE, or with two answers or more,
    keeps its answers; a question of another type than COMPLETION, or
    whose text holds the marker, keeps its text; and a question that
    needs neither repair is returned as it is. *)
Theorem repair_pass_on_any_question (q : GeneratedQuestion) :
  type (fixQuestion q) = type q /\
  choices (fixQuestion q) = choices q /\
  explanation (fixQuestion q) = explanation q /\
  correctAnswers (fixQuestion q)
  = (if QuestionType_eqb (type q) MULTIPLE_RESPONSE
        && (List.length (correctAnswers q) <? 2)%nat
     then fixMultipleResponse (correctAnswers q)
     else correctAnswers q) /\
  (type q = MULTIPLE_RESPONSE ->
   (2 <= List.length (correctAnswers (fixQuestion q)))%nat) /\
  (type q = COMPLETION -> includes (question (fixQuestion q)) BLANK = true) /\
  (type q <> COMPLETION -> question (fixQuestion q) = question q) /\
  (includes (question q) BLANK = true ->
   question (fixQuestion q) = question q) /\
  (type q = COMPLETION -> includes (question q) BLANK = false ->
   question (fixQuestion q) = appendBlank (substituteBlanks3 (question q))) /\
  (type q <> MULTIPLE_RESPONSE ->
   correctAnswers (fixQuestion q) = correctAnswers q) /\
  ((2 <= List.length (correctAnswers q))%nat ->
   correctAnswers (fixQuestion q) = correctAnswers q) /\
  (type q = MULTIPLE_RESPONSE ->
   (List.length (correctAnswers q) < 2)%nat ->
   multipleResponseRule (correctAnswers q) (correctAnswers (fixQuestion q))) /\
  ((type q = MULTIPLE_RESPONSE ->
    (2 <= List.length (correctAnswers q))%nat) ->
   (type q = COMPLETION -> includes (question q) BLANK = true) ->
   fixQuestion q = q).
Proof.
  destruct (fixQuestion_fields q) as (Ht & Hc & He & Ha & Hq).
  do 4 (split; [assumption|]).
  split; [|split; [|split; [|split; [|split; [|split; [|split; [|split]]]]]]].
  - intros Hm. rewrite Ha, Hm. cbn [QuestionType_eqb andb].
    destruct (Nat.ltb_spec (List.length (correctAnswers q)) 2); [|assumption].
    apply (fixMultipleResponse_rule (correctAnswers q)).
  - intros Hm. rewrite Hq, Hm. cbn [QuestionType_eqb andb].
    destruct (includes (question q) BLANK) eqn:E; cbn [negb];
      [assumption|apply appendBlank_includes].
  - intros Hne. rewrite Hq. destruct (type q); try reflexivity. congruence.
  - intros Hin. rewrite Hq, Hin. cbn [negb]. now rewrite andb_false_r.
  - intros Hm Hin. rewrite Hq, Hm, Hin. reflexivity.
  - intros Hne. rewrite Ha. destruct (type q); try reflexivity. congruence.
  - intros Hlen. rewrite Ha. rewrite (proj2 (Nat.ltb_ge _ _) Hlen).
    now rewrite andb_false_r.
  - intros Hm Hlen. rewrite Ha, Hm. cbn [QuestionType_eqb andb].
    rewrite (proj2 (Nat.ltb_lt _ _) Hlen).
    apply fixMultipleResponse_rule.
  - intros Hm Hcm. now apply fixQuestion_fixed.
Qed.

(** X18: running the repair pass on its own result changes nothing. *)
Theorem repair_pass_idempotent (q : GeneratedQuestion) :
  fixQuestion (fixQuestion q) = fixQuestion q.
Proof.
  destruct (fixQuestion_fields q) as (Ht & _ & _ & Ha & Hq).
  apply fixQuestion_fixed; rewrite Ht; intros Hm.
  - rewrite Ha, Hm. cbn [QuestionType_eqb andb].
    destruct (Nat.ltb_spec (List.length (correctAnswers q)) 2); [|assumption].
    apply (fixMultipleResponse_rule (correctAnswers q)).
  - rewrite Hq, Hm. cbn [QuestionType_eqb andb].
    destruct (includes (question q) BLANK) eqn:E; cbn [negb];
      [assumption|apply appendBlank_includes].
Qed.

End RepairPass.

Section Requests.
Context {number : Type} (toString : number -> jsstring).

Lemma skipn_S_tl {A} (k : nat) (l : list A) : skipn (S k) l = skipn k (tl l).
Proof. destruct l; [now destruct k|reflexivity]. Qed.

(** The requests of the loop, whether it ends or throws. *)
Lemma generateEach_requests (content : jsstring)
      (dto : GenerateMultipleQuestionsDto) (quota : Z)
      (types : list QuestionType) :
  forall all w,
  exists k,
    (k <= List.length types)%nat /\
    snd (generateEach toString content dto quota types all w)
    = mkWorld (skipn k (answers w))
              (rev (map (fun t => mkRequest content (subject dto) quota t
                                            (tone dto) (difficulty dto))
                        (firstn k types)) ++ requests w) /\
    (forall out, fst (generateEach toString content dto quota types all w)
                 = Ok out -> k = List.length types).
Proof.
  induction types as [|t types IH]; intros all w.
  - exists 0%nat. split; [apply Nat.le_refl|]. split; [now destruct w|trivial].
  - cbn [generateEach]. unfold mbind, generateQuestions.
    cbn [req_questionType].
    set (request := mkRequest content (subject dto) quota t (tone dto)
                              (difficulty dto)).
    set (w1 := mkWorld (tl (answers w)) (request :: requests w)).
    assert (Hfail : exists k : nat,
              (k <= List.length (t :: types))%nat /\
              snd (@Err (list (GeneratedQuestion number))
                        FailedToGenerateQuestions, w1)
              = mkWorld (skipn k (answers w))
                        (rev (map (fun t => mkRequest content (subject dto)
                                              quota t (tone dto)
                                              (difficulty dto))
                                  (firstn k (t :: types))) ++ requests w) /\
              (forall out,
                 fst (@Err (list (GeneratedQuestion number))
                           FailedToGenerateQuestions, w1) = Ok out ->
                 k = List.length (t :: types))).
    { exists 1%nat. split; [cbn; lia|]. split; [|discriminate].
      cbn [snd firstn map rev app]. unfold w1.
      f_equal; now destruct (answers w). }
    destruct (answers w) as [|[qs|] rest] eqn:Ea; try exact Hfail.
    destruct (validateAndFormatQuestions toString qs t) as [gen|e];
      [|exact Hfail].
    destruct (IH (all ++ gen) w1) as (k & Hk & Hw & Hok).
    exists (S k). split; [cbn; lia|]. split.
    + rewrite Hw. unfold w1. cbn [Questions.answers requests tl].
      cbn [firstn map rev skipn]. now rewrite <- app_assoc.
    + intros out Hout. cbn [List.length]. f_equal. exact (Hok out Hout).
Qed.

(** X19: what the model is sent. Whether [generateMultipleQuestions]
    succeeds or fails, the requests it has made are those for a first
    part of [questionTypes], in order, one answer of the model being
    used for each, and for all of [questionTypes] when it succeeds; each
    request carries the same text, which is the sanitized one, of at most
    10,000 code units and without line break, and the same quota. *)
Theorem every_request_carries_the_sanitized_text (rawText : jsstring)
        (dto : GenerateMultipleQuestionsDto) (w : World number) :
  exists k,
    (k <= List.length (questionTypes dto))%nat /\
    snd (generateMultipleQuestions toString rawText dto w)
    = mkWorld (skipn k (answers w))
              (rev (map (requestFor rawText dto) (firstn k (questionTypes dto)))
                   ++ requests w) /\
    (forall final, fst (generateMultipleQuestions toString rawText dto w)
                   = Ok final -> k = List.length (questionTypes dto)) /\
    (forall questionType,
       let request := requestFor rawText dto questionType in
       req_content request = text (sanitizeText rawText) /\
       (length (req_content request) <= MAX_CHARS)%Z /\
       ~ In 10%N (req_content request) /\
       req_questionCount request
       = ceilDiv (questionCount dto)
                 (Z.of_nat (List.length (questionTypes dto))) /\
       req_questionType request = questionType).
Proof.
  destruct (generateEach_requests (text (sanitizeText rawText)) dto
              (ceilDiv (questionCount dto)
                       (Z.of_nat (List.length (questionTypes dto))))
              (questionTypes dto) [] w) as (k & Hk & Hw & Hok).
  exists k. split; [exact Hk|].
  unfold generateMultipleQuestions, mbind.
  destruct (generateEach toString (text (sanitizeText rawText)) dto
              (ceilDiv (questionCount dto)
                       (Z.of_nat (List.length (questionTypes dto))))
              (questionTypes dto) [] w) as [[all|e] w1] eqn:E;
    cbn [fst snd] in *.
  - split; [exact Hw|]. split; [intros _ _; exact (Hok all eq_refl)|].
    intros questionType. cbv zeta. cbn [requestFor req_content
      req_questionCount req_questionType].
    destruct (sanitizeText_text rawText) as (y & Hy & Et & Hlen & _).
    rewrite Et. repeat split; trivial.
    apply (singleSpaced_no_line_break false). now apply singleSpaced_trim.
  - split; [exact Hw|]. split; [discriminate|].
    intros questionType. cbv zeta. cbn [requestFor req_content
      req_questionCount req_questionType].
    destruct (sanitizeText_text rawText) as (y & Hy & Et & Hlen & _).
    rewrite Et. repeat split; trivial.
    apply (singleSpaced_no_line_break false). now apply singleSpaced_trim.
Qed.

End Requests.

(* ================================================================== *)
(** * questions.service.ts: what is saved *)
(* ================================================================== *)

Module QuestionSets.

(** [l.map((x, index) => f(x, index))] *)
Fixpoint mapIndexed_from {A B} (f : A -> Z -> B) (index : Z) (l : list A)
  : list B :=
  match l with
  | [] => []
  | x :: r => f x index :: mapIndexed_from f (index + 1) r
  end.

Definition mapIndexed {A B} (f : A -> Z -> B) (l : list A) : list B :=
  mapIndexed_from f 0 l.

(** [orderBy: { order: 'asc' }] on rows read in any order. *)
Fixpoint insertBy {A} (key : A -> Z) (a : A) (l : list A) : list A :=
  match l with
  | [] => [a]
  | b :: r => if (key a <? key b)%Z then a :: l else b :: insertBy key a r
  end.

Definition orderBy {A} (key : A -> Z) (rows : list A) : list A :=
  fold_right (insertBy key) [] rows.

(** The fields [saveQuestionSet] reads of its [dto];
    [generateMultipleQuestions] puts the first of its [questionTypes], if
    there is one, in [questionType]. *)
Record SaveDto := mkSaveDto {
  dto_subject : jsstring;
  dto_questionType : option QuestionType;
  dto_tone : option jsstring;
  dto_difficulty : option jsstring;
  dto_title : option jsstring
}.

Record ChoiceCreate := mkChoiceCreate {
  cc_label : jsstring;
  cc_content : jsstring;
  cc_order : Z
}.

Section WithNumber.
Context {number : Type}.

Local Abbreviation json := (json number).
Local Abbreviation GeneratedQuestion := (GeneratedQuestion number).

Record CorrectAnswerCreate := mkCorrectAnswerCreate {
  choiceLabel : json
}.

Record QuestionCreate := mkQuestionCreate {
  qc_content : jsstring;
  qc_explanation : json;
  qc_type : QuestionType;
  qc_order : Z;
  qc_choices : list ChoiceCreate;
  qc_correctAnswers : list CorrectAnswerCreate
}.

Record QuestionSetCreate := mkQuestionSetCreate {
  set_title : jsstring;
  set_subject : jsstring;
  set_tone : option jsstring;
  set_difficulty : option jsstring;
  set_type : option QuestionType;
  set_fileName : jsstring;
  set_fileContent : jsstring;
  set_userId : option jsstring;
  set_questions : list QuestionCreate
}.

(** The [data] of the [create] in [saveQuestionSet]. [today] is
    [new Date().toLocaleDateString('vi-VN')]; the [type] of a generated
    question is never empty, so that [q.type || dto.questionType] is
    [q.type]. *)
Definition saveQuestionSet (today : jsstring) (dto : SaveDto)
           (originalname content : jsstring)
           (generatedQuestions : list GeneratedQuestion)
           (userId : option jsstring) : QuestionSetCreate :=
  let title :=
    match dto_title dto with
    | Some (c :: r) => c :: r
    | _ => dto_subject dto ++ js " - " ++ today
    end in
  mkQuestionSetCreate
    title (dto_subject dto) (dto_tone dto) (dto_difficulty dto)
    (dto_questionType dto) originalname (substring content 0 5000) userId
    (mapIndexed
       (fun q index =>
          mkQuestionCreate
            (question q) (explanation q) (type q) (index + 1)
            (mapIndexed
               (fun choice choiceIndex =>
                  mkChoiceCreate (label choice) (OpenAI.content choice)
                                 (choiceIndex + 1))
               (choices q))
            (map (fun answer => mkCorrectAnswerCreate answer) (correctAnswers q)))
       generatedQuestions).

End WithNumber.

Arguments CorrectAnswerCreate number : clear implicits.
Arguments QuestionCreate number : clear implicits.
Arguments QuestionSetCreate number : clear implicits.

End QuestionSets.

Import QuestionSets.

(* ================================================================== *)
(** * Facts about what is saved *)
(* ================================================================== *)

Lemma insertBy_permutation {A} (key : A -> Z) a l :
  Permutation (insertBy key a l) (a :: l).
Proof.
  induction l as [|b l IH]; [reflexivity|].
  cbn [insertBy]. destruct (key a <? key b)%Z; [reflexivity|].
  rewrite IH. apply perm_swap.
Qed.

Lemma orderBy_permutation {A} (key : A -> Z) l : Permutation (orderBy key l) l.
Proof.
  induction l as [|a l IH]; [reflexivity|].
  cbn [orderBy fold_right]. fold (orderBy key l).
  rewrite insertBy_permutation. now constructor.
Qed.

(** Rows in ascending order of their keys. *)
Fixpoint ascending {A} (key : A -> Z) (l : list A) : Prop :=
  match l with
  | [] => True
  | a :: r => (forall b, In b r -> (key a <= key b)%Z) /\ ascending key r
  end.

(** Rows in ascending order of keys that are all different. *)
Fixpoint increasing {A} (key : A -> Z) (l : list A) : Prop :=
  match l with
  | [] => True
  | a :: r => (forall b, In b r -> (key a < key b)%Z) /\ increasing key r
  end.

Lemma insertBy_ascending {A} (key : A -> Z) a l :
  ascending key l -> ascending key (insertBy key a l).
Proof.
  induction l as [|b l IH]; [intros _; split; [intros ? []|exact I]|].
  intros [Hb Hl]. cbn [insertBy]. destruct (key a <? key b)%Z eqn:E.
  - apply Z.ltb_lt in E. split; [|now split].
    intros c [<-|Hc]; [lia|]. specialize (Hb c Hc). lia.
  - apply Z.ltb_ge in E. split; [|now apply IH].
    intros c Hc.
    apply (Permutation_in _ (insertBy_permutation key a l)) in Hc.
    destruct Hc as [<-|Hc]; [exact E|now apply Hb].
Qed.

Lemma orderBy_ascending {A} (key : A -> Z) l : ascending key (orderBy key l).
Proof.
  induction l as [|a l IH]; [exact I|].
  cbn [orderBy fold_right]. now apply insertBy_ascending.
Qed.

(** There is one way to put rows with different keys in order. *)
Lemma ascending_increasing_eq {A} (key : A -> Z) (l1 l2 : list A) :
  Permutation l1 l2 -> ascending key l1 -> increasing key l2 -> l1 = l2.
Proof.
  revert l1. induction l2 as [|x r IH]; intros l1 P A1 I2.
  - now apply Permutation_nil, Permutation_sym.
  - destruct l1 as [|h t].
    { apply Permutation_nil in P. discriminate. }
    destruct A1 as [Hh At]. destruct I2 as [Hx Ir].
    assert (E : h = x).
    { destruct (Permutation_in h P (or_introl eq_refl)) as [E|Hin];
        [now symmetry|].
      pose proof (Hx h Hin) as H1.
      destruct (Permutation_in x (Permutation_sym P) (or_introl eq_refl))
        as [E|Hin']; [exact E|].
      pose proof (Hh x Hin'). lia. }
    subst h. f_equal. apply IH; trivial.
    now apply Permutation_cons_inv in P.
Qed.

Lemma In_mapIndexed_from {A B} (f : A -> Z -> B) index l b :
  In b (mapIndexed_from f index l) ->
  exists a i, (index <= i)%Z /\ In a l /\ b = f a i.
Proof.
  revert index. induction l as [|x r IH]; intros index; [intros []|].
  cbn [mapIndexed_from]. intros [<-|H].
  - exists x, index. split; [lia|]. split; [now left|reflexivity].
  - destruct (IH _ H) as (a & i & Hi & Ha & ->).
    exists a, i. split; [lia|]. split; [now right|reflexivity].
Qed.

Lemma mapIndexed_from_increasing {A B} (f : A -> Z -> B) (key : B -> Z) :
  (forall a i, key (f a i) = (i + 1)%Z) ->
  forall l index, increasing key (mapIndexed_from f index l).
Proof.
  intros Hkey. induction l as [|x r IH]; intros index; [exact I|].
  cbn [mapIndexed_from increasing]. split; [|apply IH].
  intros b Hb. destruct (In_mapIndexed_from _ _ _ _ Hb) as (a & i & Hi & _ & ->).
  rewrite !Hkey. lia.
Qed.

Lemma mapIndexed_from_nth {A B} (f : A -> Z -> B) l index i a :
  nth_error l i = Some a ->
  nth_error (mapIndexed_from f index l) i = Some (f a (index + Z.of_nat i)%Z).
Proof.
  revert index i. induction l as [|x r IH]; intros index [|i]; try discriminate.
  - intros E. injection E as <-. cbn. now rewrite Z.add_0_r.
  - intros E. cbn [mapIndexed_from nth_error]. rewrite (IH _ _ E).
    do 2 f_equal. lia.
Qed.

Lemma mapIndexed_from_length {A B} (f : A -> Z -> B) l index :
  List.length (mapIndexed_from f index l) = List.length l.
Proof.
  revert index. induction l as [|x r IH]; intros index; [reflexivity|].
  cbn [mapIndexed_from List.length]. now rewrite IH.
Qed.

(** Reading rows that [mapIndexed] numbered, in the order of the numbers. *)
Lemma orderBy_mapIndexed {A B} (f : A -> Z -> B) (key : B -> Z) l stored :
  (forall a i, key (f a i) = (i + 1)%Z) ->
  Permutation stored (mapIndexed f l) ->
  orderBy key stored = mapIndexed f l.
Proof.
  intros Hkey P. apply (ascending_increasing_eq key).
  - now rewrite orderBy_permutation.
  - apply orderBy_ascending.
  - now apply mapIndexed_from_increasing.
Qed.

Section Saved.
Context {number : Type}.

(** X20: what is saved keeps the order of generation. [saveQuestionSet]
    creates one question row for each generated question, the row at
    index [i] with the text, the explanation, the type and the correct
    answers of the question at index [i] and with [order] [i + 1], and
    one choice row for each of its choices, numbered from 1 the same
    way; so that reading the rows back in ascending [order], however
    they are stored, gives the questions, and the choices of each, in
    the order in which they were generated. *)
Theorem saved_rows_keep_generation_order today dto originalname content
        (generatedQuestions : list (GeneratedQuestion number)) userId :
  let saved :=
    saveQuestionSet today dto originalname content generatedQuestions userId in
  List.length (set_questions saved) = List.length generatedQuestions /\
  (forall i q, nth_error generatedQuestions i = Some q ->
     exists row,
       nth_error (set_questions saved) i = Some row /\
       qc_content row = question q /\
       qc_explanation row = explanation q /\
       qc_type row = type q /\
       map choiceLabel (qc_correctAnswers row) = correctAnswers q /\
       qc_order row = (Z.of_nat i + 1)%Z /\
       List.length (qc_choices row) = List.length (choices q) /\
       (forall j choice, nth_error (choices q) j = Some choice ->
          nth_error (qc_choices row) j =
          Some (mkChoiceCreate (label choice) (OpenAI.content choice)
                               (Z.of_nat j + 1))) /\
       (forall stored, Permutation stored (qc_choices row) ->
          orderBy cc_order stored = qc_choices row)) /\
  (forall stored, Permutation stored (set_questions saved) ->
     orderBy qc_order stored = set_questions saved).
Proof.
  cbv zeta. unfold saveQuestionSet. cbn [set_questions].
  split; [apply mapIndexed_from_length|]. split.
  - intros i q Hq. eexists. split.
    { unfold mapIndexed at 1. apply mapIndexed_from_nth. exact Hq. }
    cbn [qc_content qc_explanation qc_type qc_correctAnswers qc_order
         qc_choices].
    repeat split.
    + rewrite map_map. apply map_id.
    + apply mapIndexed_from_length.
    + intros j choice Hc. unfold mapIndexed.
      now rewrite (mapIndexed_from_nth _ _ _ _ _ Hc).
    + intros stored P. now apply orderBy_mapIndexed.
  - intros stored P. now apply orderBy_mapIndexed.
Qed.

(** X21: the stored copy of the text. [saveQuestionSet] stores the
    first 5000 code units of the text it is given, and the whole text
    when it has no more than that; the title is the one of the request
    unless it is missing or empty, in which case it begins with the
    subject. *)
Theorem saved_text_is_a_prefix today dto originalname content
        (generatedQuestions : list (GeneratedQuestion number)) userId :
  let saved :=
    saveQuestionSet today dto originalname content generatedQuestions userId in
  set_fileContent saved = firstn (Z.to_nat 5000) content /\
  (JsString.length (set_fileContent saved) <= 5000)%Z /\
  ((JsString.length content <= 5000)%Z -> set_fileContent saved = content) /\
  (forall title, dto_title dto = Some title -> title <> [] ->
     set_title saved = title) /\
  (dto_title dto = None \/ dto_title dto = Some [] ->
     set_title saved = dto_subject dto ++ js " - " ++ today).
Proof.
  cbv zeta. unfold saveQuestionSet. cbn [set_fileContent set_title].
  assert (E : substring content 0 5000 = firstn (Z.to_nat 5000) content).
  { unfold substring, clamp, JsString.length.
    set (len := Z.of_nat (List.length content)).
    replace (Z.min (Z.max 0 (Z.min 0 len)) (Z.max 0 (Z.min 5000 len)))
      with 0%Z by lia.
    replace (Z.max (Z.max 0 (Z.min 0 len)) (Z.max 0 (Z.min 5000 len)))
      with (Z.min 5000 len) by lia.
    change (skipn (Z.to_nat 0) content) with content. rewrite Z.sub_0_r.
    destruct (Z.le_gt_cases len 5000) as [H|H].
    - rewrite Z.min_r by exact H. unfold len. rewrite Nat2Z.id, firstn_all.
      symmetry. apply firstn_all2. lia.
    - rewrite Z.min_l by lia. reflexivity. }
  rewrite E. split; [reflexivity|]. split; [|split; [|split]].
  - unfold JsString.length. rewrite length_firstn. lia.
  - unfold JsString.length. intros H. apply firstn_all2. lia.
  - intros title -> Hne. destruct title; [contradiction|reflexivity].
  - intros [->| ->]; reflexivity.
Qed.

End Saved.

(* ================================================================== *)
(** * questions.service.ts: from the text of the file to what is saved *)
(* ================================================================== *)

Module QuestionsService.

Record GenerateQuestionsDto := mkGenerateQuestionsDto {
  gq_subject : jsstring;
  gq_questionCount : Z;
  gq_questionType : QuestionType;
  gq_tone : option jsstring;
  gq_difficulty : option jsstring;
  gq_title : option jsstring
}.

Record TextProcessingInfo := mkTextProcessingInfo {
  info_wasTruncated : bool;
  info_originalLength : Z;
  info_truncatedLength : Z
}.

Section WithNumber.
Context {number : Type} (toString : number -> jsstring).

(** What the two calls return: the question set, here the data of its
    creation, and [textProcessingInfo]. *)
Record Generated := mkGenerated {
  questionSet : QuestionSetCreate number;
  textProcessingInfo : TextProcessingInfo
}.

Definition textProcessingInfoOf (sanitizeResult : SanitizeResult)
  : TextProcessingInfo :=
  mkTextProcessingInfo (wasTruncated sanitizeResult)
                       (originalLength sanitizeResult)
                       (truncatedLength sanitizeResult).

(** [QuestionsService.generateQuestions], from the text extracted from
    the file, named [originalname]. *)
Definition generateQuestions (today originalname rawText : jsstring)
           (dto : GenerateQuestionsDto) (userId : option jsstring)
  : M number Generated :=
  let sanitizeResult := sanitizeText rawText in
  mbind
    (Questions.generateQuestions toString
       (mkRequest (text sanitizeResult) (gq_subject dto) (gq_questionCount dto)
                  (gq_questionType dto) (gq_tone dto) (gq_difficulty dto)))
    (fun generatedQuestions =>
       let questionSet :=
         saveQuestionSet today
           (mkSaveDto (gq_subject dto) (Some (gq_questionType dto))
                      (gq_tone dto) (gq_difficulty dto) (gq_title dto))
           originalname (text sanitizeResult) generatedQuestions userId in
       ret (mkGenerated questionSet (textProcessingInfoOf sanitizeResult))).

(** [QuestionsService.generateMultipleQuestions], likewise. *)
Definition generateMultipleQuestions (today originalname rawText : jsstring)
           (dto : GenerateMultipleQuestionsDto) (userId : option jsstring)
  : M number Generated :=
  let sanitizeResult := sanitizeText rawText in
  mbind
    (Questions.generateMultipleQuestions toString rawText dto)
    (fun finalQuestions =>
       let questionSet :=
         saveQuestionSet today
           (mkSaveDto (subject dto) (hd_error (questionTypes dto))
                      (tone dto) (difficulty dto) (title dto))
           originalname (text sanitizeResult) finalQuestions userId in
       ret (mkGenerated questionSet (textProcessingInfoOf sanitizeResult))).

End WithNumber.

Arguments Generated number : clear implicits.

End QuestionsService.

Section Flows.
Context {number : Type} (toString : number -> jsstring).

Local Abbreviation GeneratedQuestion := (GeneratedQuestion number).

Lemma validateAndFormatQuestions_types questions questionType
      (generated : list GeneratedQuestion) :
  validateAndFormatQuestions toString questions questionType = Ok generated ->
  List.length generated = List.length questions /\
  forall g, In g generated -> type g = questionType.
Proof.
  intros Hv. apply mapi_from_Forall2 in Hv.
  induction Hv as [|q x qs xs [i Hq] _ [IHl IHt]]; [now split|].
  split; [cbn [List.length]; now rewrite IHl|].
  intros g [<-|Hg]; [|now apply IHt].
  apply formatQuestion_Ok in Hq. destruct Hq as (raw & cs & _ & _ & Hty & _).
  exact Hty.
Qed.

Lemma In_mapIndexed {A B} (f : A -> Z -> B) l b :
  In b (mapIndexed f l) -> exists a i, In a l /\ b = f a i.
Proof.
  intros H. destruct (In_mapIndexed_from _ _ _ _ H) as (a & i & _ & Ha & ->).
  now exists a, i.
Qed.

Lemma mapIndexed_from_nth_inv {A B} (f : A -> Z -> B) l index i b :
  nth_error (mapIndexed_from f index l) i = Some b ->
  exists a, nth_error l i = Some a /\ b = f a (index + Z.of_nat i)%Z.
Proof.
  revert index i. induction l as [|x r IH]; intros index [|i] H;
    try discriminate.
  - injection H as <-. exists x. split; [reflexivity|]. cbn. now rewrite Z.add_0_r.
  - cbn [mapIndexed_from nth_error] in H.
    destruct (IH _ _ H) as (a & Ha & ->). exists a. split; [exact Ha|].
    f_equal. lia.
Qed.

Lemma map_mapIndexed_from {A B C} (f : A -> Z -> B) (g : B -> C) (h : A -> C)
      l index :
  (forall a i, g (f a i) = h a) ->
  map g (mapIndexed_from f index l) = map h l.
Proof.
  intros H. revert index. induction l as [|x r IH]; intros index; [reflexivity|].
  cbn [mapIndexed_from map]. now rewrite H, IH.
Qed.

(** X22: the call for one type saves all that the model returned. When
    the model's answer passes the normalizer, [generateQuestions] of the
    questions service creates one question row for each question of the
    answer, however many were asked for, each of the type asked for,
    which is also the type of the set; it stores the beginning of the
    sanitized text and reports what [sanitizeText] did. *)
Theorem single_type_call_saves_every_question
        (today originalname rawText : jsstring)
        (dto : QuestionsService.GenerateQuestionsDto)
        (userId : option jsstring) (w : World number)
        (questions : list (json number)) (rest : list (option (list (json number))))
        (generated : list GeneratedQuestion) :
  answers w = Some questions :: rest ->
  validateAndFormatQuestions toString questions
    (QuestionsService.gq_questionType dto) = Ok generated ->
  exists result w',
    QuestionsService.generateQuestions toString today originalname rawText dto
                                       userId w = (Ok result, w') /\
    answers w' = rest /\
    let saved := QuestionsService.questionSet result in
    List.length (set_questions saved) = List.length questions /\
    map qc_content (set_questions saved) = map question generated /\
    (forall row, In row (set_questions saved) ->
       qc_type row = QuestionsService.gq_questionType dto) /\
    set_type saved = Some (QuestionsService.gq_questionType dto) /\
    set_fileContent saved = substring (text (sanitizeText rawText)) 0 5000 /\
    QuestionsService.textProcessingInfo result
    = QuestionsService.mkTextProcessingInfo
        (wasTruncated (sanitizeText rawText))
        (originalLength (sanitizeText rawText))
        (truncatedLength (sanitizeText rawText)).
Proof.
  intros Ea Hv. unfold QuestionsService.generateQuestions, mbind.
  unfold Questions.generateQuestions. cbn [req_questionType]. rewrite Ea, Hv.
  unfold ret. eexists _, _. split; [reflexivity|].
  cbn [Questions.answers tl QuestionsService.questionSet
       QuestionsService.textProcessingInfo]. split; [reflexivity|].
  cbv zeta. unfold saveQuestionSet.
  cbn [set_questions set_type set_fileContent dto_questionType].
  destruct (validateAndFormatQuestions_types _ _ _ Hv) as [Hl Ht].
  split; [unfold mapIndexed; now rewrite mapIndexed_from_length|].
  split; [now apply map_mapIndexed_from|].
  split; [|repeat split].
  intros row Hrow. apply In_mapIndexed in Hrow.
  destruct Hrow as (g & i & Hg & ->). cbn [qc_type]. now apply Ht.
Qed.

(** What a call for several types that succeeds has done. *)
Lemma generateMultipleQuestions_Ok (rawText : jsstring)
      (dto : GenerateMultipleQuestionsDto) (w w' : World number)
      (final : list GeneratedQuestion) :
  (0 <= questionCount dto)%Z ->
  Questions.generateMultipleQuestions toString rawText dto w = (Ok final, w') ->
  exists perType,
    served toString (questionTypes dto) (answers w) perType /\
    final = firstn (Z.to_nat (questionCount dto)) (List.concat perType).
Proof.
  intros Hn H. unfold Questions.generateMultipleQuestions in H.
  unfold mbind in H.
  destruct (generateEach toString (text (sanitizeText rawText)) dto
              (ceilDiv (questionCount dto)
                       (Z.of_nat (List.length (questionTypes dto))))
              (questionTypes dto) [] w) as [[all|e] w1] eqn:E; [|discriminate].
  unfold ret in H. injection H as <- <-.
  pose proof (generateEach_Ok toString _ _ _ _ _ _ _ _ E) as (perType & Hs & ->).
  exists perType. split; [exact Hs|]. cbn [app].
  assert (Hfix : map fixQuestion (List.concat perType) = List.concat perType).
  { clear Hn E. induction Hs as [|t types qs answers g rest Hv _ IH];
      [reflexivity|].
    cbn [List.concat]. rewrite map_app, IH.
    now rewrite (map_fixQuestion_formatted toString _ _ _ Hv). }
  rewrite Hfix. unfold slice0.
  now rewrite (proj2 (Z.ltb_ge (questionCount dto) 0)) by lia.
Qed.

(** X23: what the call for several types saves. When
    [generateMultipleQuestions] of the questions service succeeds, it
    creates at most [questionCount] question rows, numbered from 1, each
    of one of the types asked for; the set itself is given the first of
    these types, whatever the types of its questions. *)
Theorem several_types_call_saves_capped_questions
        (today originalname rawText : jsstring)
        (dto : GenerateMultipleQuestionsDto)
        (userId : option jsstring) (w w' : World number)
        (result : QuestionsService.Generated number) :
  (0 <= questionCount dto)%Z ->
  QuestionsService.generateMultipleQuestions toString today originalname rawText
                                             dto userId w = (Ok result, w') ->
  let saved := QuestionsService.questionSet result in
  (Z.of_nat (List.length (set_questions saved)) <= questionCount dto)%Z /\
  (forall i row, nth_error (set_questions saved) i = Some row ->
     qc_order row = (Z.of_nat i + 1)%Z /\ In (qc_type row) (questionTypes dto)) /\
  set_type saved = hd_error (questionTypes dto) /\
  set_subject saved = subject dto /\
  set_fileContent saved = substring (text (sanitizeText rawText)) 0 5000.
Proof.
  intros Hn H. unfold QuestionsService.generateMultipleQuestions, mbind in H.
  destruct (Questions.generateMultipleQuestions toString rawText dto w)
    as [[final|e] w1] eqn:E; [|discriminate].
  unfold ret in H. injection H as <- <-.
  destruct (generateMultipleQuestions_Ok _ _ _ _ _ Hn E) as (perType & Hs & Ef).
  cbv zeta. cbn [QuestionsService.questionSet]. unfold saveQuestionSet.
  cbn [set_questions set_type set_subject set_fileContent dto_questionType
       dto_subject].
  split.
  { unfold mapIndexed. rewrite mapIndexed_from_length, Ef, length_firstn. lia. }
  split; [|repeat split].
  intros i row Hrow.
  destruct (mapIndexed_from_nth_inv _ _ _ _ _ Hrow) as (g & Eg & ->).
  cbn [qc_order qc_type]. split; [lia|].
  apply nth_error_In in Eg. rewrite Ef in Eg. apply In_firstn in Eg.
  exact (served_types toString _ _ _ Hs g Eg).
Qed.

End Flows.

(** One question asked for, five returned by the model. *)
Definition oneAsked : QuestionsService.GenerateQuestionsDto :=
  QuestionsService.mkGenerateQuestionsDto (js "Địa lý") 1 MULTIPLE_CHOICE
                                          None None None.

Lemma single_type_call_saves_every_question_witness :
  exists result w',
    QuestionsService.generateQuestions integerToString (js "7/8/2025")
      (js "bai.txt") (js "Hà Nội là thủ đô.") oneAsked None
      (mkWorld [Some fiveRaw] []) = (Ok result, w') /\
    List.length (set_questions (QuestionsService.questionSet result)) = 5%nat /\
    QuestionsService.gq_questionCount oneAsked = 1%Z.
Proof.
  destruct (single_type_call_saves_every_question integerToString
              (js "7/8/2025") (js "bai.txt") (js "Hà Nội là thủ đô.") oneAsked
              None (mkWorld [Some fiveRaw] []) fiveRaw [] fiveMultipleChoice
              eq_refl ltac:(vm_compute; reflexivity))
    as (result & w' & H & _ & Hl & _).
  exists result, w'. split; [exact H|]. split; [exact Hl|reflexivity].
Defined.

Lemma several_types_call_saves_capped_questions_witness :
  exists result w',
    QuestionsService.generateMultipleQuestions integerToString (js "7/8/2025")
      (js "bai.txt") (js "Hà Nội là thủ đô.") fiveOfTwoTypes None twoAnswers
    = (Ok result, w') /\
    (Z.of_nat (List.length (set_questions (QuestionsService.questionSet result)))
     <= 5)%Z /\
    set_type (QuestionsService.questionSet result) = Some MULTIPLE_CHOICE.
Proof.
  eexists _, _. split; [vm_compute; reflexivity|].
  destruct (several_types_call_saves_capped_questions integerToString
              (js "7/8/2025") (js "bai.txt") (js "Hà Nội là thủ đô.")
              fiveOfTwoTypes None twoAnswers _ _
              ltac:(vm_compute; discriminate) ltac:(vm_compute; reflexivity))
    as (Hl & _ & Ht & _).
  split; [exact Hl|exact Ht].
Defined.

(* ================================================================== *)
(** * file-processing.service.ts: the file *)
(* ================================================================== *)

Module FileIntake.

(** The messages of the errors thrown. *)
Inductive fileError :=
| InvalidFileType      (* Invalid file type. Only PDF and TXT files are allowed. *)
| FileSizeTooLarge     (* File size too large. Maximum size is 10MB. *)
| UnsupportedFileType  (* Unsupported file type. Only PDF and TXT files are supported. *)
| FailedToParsePDF     (* Failed to parse PDF file *)
| FailedToExtractText. (* Failed to extract text from file *)

Section WithBuffer.
(** The content of a file, the PDF reader, which may fail, and
    [buffer.toString('utf-8')]. *)
Context {Buffer : Type} (pdfParse : Buffer -> option jsstring)
        (toStringUtf8 : Buffer -> jsstring).

Record File := mkFile {
  mimetype : jsstring;
  size : Z;
  buffer : Buffer;
  originalname : jsstring
}.

Definition maxSize : Z := 10 * 1024 * 1024.

Definition allowedTypes : list jsstring :=
  Eval vm_compute in [js "application/pdf"; js "text/plain"].

Definition validateFile (file : File) : fileError + unit :=
  if negb (existsb (eqb (mimetype file)) allowedTypes) then inl InvalidFileType
  else if (size file >? maxSize)%Z then inl FileSizeTooLarge
  else inr tt.

Definition extractTextFromPDF (buffer : Buffer) : fileError + jsstring :=
  match pdfParse buffer with
  | Some text => inr text
  | None => inl FailedToParsePDF
  end.

Definition extractTextFromFile (file : File) : fileError + jsstring :=
  let attempt :=
    if eqb (mimetype file) (js "application/pdf")
    then extractTextFromPDF (buffer file)
    else if eqb (mimetype file) (js "text/plain")
    then inr (toStringUtf8 (buffer file))
    else inl UnsupportedFileType in
  match attempt with
  | inr text => inr text
  | inl _ => inl FailedToExtractText
  end.

End WithBuffer.

Arguments File Buffer : clear implicits.

End FileIntake.

Section FileIntakeFacts.
Import FileIntake.
Context {Buffer : Type} (pdfParse : Buffer -> option jsstring)
        (toStringUtf8 : Buffer -> jsstring).

(** X24: a file that [validateFile] lets through is a PDF or plain text
    of at most 10 MiB, and [extractTextFromFile] then fails only when the
    PDF reader does: plain text is always returned decoded, the text of
    a PDF as the reader gives it. Whatever the file, the one error
    [extractTextFromFile] leaves with is [Failed to extract text from
    file]. *)
Theorem validated_file_is_extracted (file : File Buffer)
        (H : validateFile file = inr tt) :
  (size file <= 10485760)%Z /\
  (mimetype file = js "application/pdf" \/ mimetype file = js "text/plain") /\
  (mimetype file = js "text/plain" ->
   extractTextFromFile pdfParse toStringUtf8 file
   = inr (toStringUtf8 (buffer file))) /\
  (mimetype file = js "application/pdf" ->
   extractTextFromFile pdfParse toStringUtf8 file
   = match pdfParse (buffer file) with
     | Some text => inr text
     | None => inl FailedToExtractText
     end) /\
  (forall (other : File Buffer) e,
     extractTextFromFile pdfParse toStringUtf8 other = inl e ->
     e = FailedToExtractText).
Proof.
  unfold validateFile in H.
  destruct (existsb (eqb (mimetype file)) allowedTypes) eqn:Et;
    [|discriminate].
  cbn [negb] in H. destruct (size file >? maxSize)%Z eqn:Es; [discriminate|].
  split.
  { unfold maxSize in Es. rewrite Z.gtb_ltb in Es. apply Z.ltb_ge in Es. lia. }
  split.
  { apply existsb_exists in Et. destruct Et as (t & Hin & E).
    apply eqb_eq in E. subst t.
    destruct Hin as [<-|[<-|[]]]; [left|right]; reflexivity. }
  split; [|split].
  - intros E. unfold extractTextFromFile. rewrite E. reflexivity.
  - intros E. unfold extractTextFromFile, extractTextFromPDF. rewrite E.
    change (eqb (js "application/pdf") (js "application/pdf")) with true.
    now destruct (pdfParse (buffer file)).
  - intros other e. unfold extractTextFromFile.
    destruct (if eqb (mimetype other) (js "application/pdf") then _ else _);
      [|discriminate].
    intros E. now injection E.
Qed.

End FileIntakeFacts.

(** A plain text file whose content is taken as its code units. *)
Definition plainTextFile : FileIntake.File jsstring :=
  FileIntake.mkFile (js "text/plain") 12 (js "Hà Nội") (js "bai.txt").

Lemma validated_file_is_extracted_witness :
  FileIntake.validateFile plainTextFile = inr tt /\
  FileIntake.extractTextFromFile (fun _ => None) (fun b => b) plainTextFile
  = inr (js "Hà Nội").
Proof.
  split; [reflexivity|].
  exact (proj1 (proj2 (proj2
    (validated_file_is_extracted (fun _ => None) (fun b : jsstring => b)
       plainTextFile eq_refl))) eq_refl).
Defined.

(* ================================================================== *)
(** * practice.service.ts: sessions and answers *)
(* ================================================================== *)

Module PracticeService.

(** The rows of the tables the service reads and writes. The identifier
    and the time stamp the database gives a row of [practice_answers],
    and the start time of a session, are never read and are left out. *)
Record Question := mkQuestion {
  q_id : jsstring;
  q_questionSetId : jsstring;
  q_correctAnswers : list jsstring;
  q_explanation : option jsstring
}.

Record Session := mkSession {
  s_id : jsstring;
  s_questionSetId : jsstring;
  s_userId : option jsstring;
  s_score : Z;
  s_totalQuestions : Z;
  s_isCompleted : bool;
  s_endedAt : option Z
}.

Record Answer := mkAnswer {
  a_sessionId : jsstring;
  a_questionId : jsstring;
  a_selectedChoices : list jsstring;
  a_isCorrect : bool
}.

Record Db := mkDb {
  questionSets : list jsstring;
  questions : list Question;
  practiceSessions : list Session;
  practiceAnswers : list Answer
}.

(** The exceptions of the service. *)
Inductive exception :=
| QuestionSetNotFound
| QuestionSetHasNoQuestions
| SessionNotFound
| SessionAlreadyCompleted
| QuestionNotFound
| AnswerAlreadySubmitted.

Inductive outcome (A : Type) :=
| Done (a : A)
| Thrown (e : exception).

Arguments Done {A} a.
Arguments Thrown {A} e.

Record StartPracticeDto := mkStartDto {
  start_questionSetId : jsstring;
  start_userId : option jsstring
}.

Record SubmitAnswerDto := mkSubmitDto {
  sessionId : jsstring;
  questionId : jsstring;
  selectedChoices : list jsstring
}.

Record AnswerResult := mkAnswerResult {
  res_isCorrect : bool;
  res_correctAnswers : list jsstring;
  res_explanation : option jsstring;
  res_score : Z;
  res_totalQuestions : Z
}.

(** [findUnique({ where: { id } })] *)
Definition findSession (db : Db) (id : jsstring) : option Session :=
  find (fun s => eqb (s_id s) id) (practiceSessions db).

Definition findQuestion (db : Db) (id : jsstring) : option Question :=
  find (fun q => eqb (q_id q) id) (questions db).

(** [practiceAnswer.findFirst({ where: { sessionId, questionId } })] *)
Definition findAnswer (db : Db) (session question : jsstring) : option Answer :=
  find (fun a => eqb (a_sessionId a) session && eqb (a_questionId a) question)
       (practiceAnswers db).

(** [practiceSession.update({ where: { id }, data })] *)
Definition updateSession (db : Db) (id : jsstring) (data : Session -> Session)
  : Db :=
  mkDb (questionSets db) (questions db)
       (map (fun s => if eqb (s_id s) id then data s else s) (practiceSessions db))
       (practiceAnswers db).

(** [startPractice]; [newId] is the identifier the database gives the
    session it creates. *)
Definition startPractice (newId : jsstring) (dto : StartPracticeDto) (db : Db)
  : outcome Session * Db :=
  if negb (existsb (eqb (start_questionSetId dto)) (questionSets db))
  then (Thrown QuestionSetNotFound, db)
  else
    let setQuestions :=
      filter (fun q => eqb (q_questionSetId q) (start_questionSetId dto))
             (questions db) in
    if (List.length setQuestions =? 0)%nat
    then (Thrown QuestionSetHasNoQuestions, db)
    else
      let session :=
        mkSession newId (start_questionSetId dto) (start_userId dto) 0
                  (Z.of_nat (List.length setQuestions)) false None in
      (Done session,
       mkDb (questionSets db) (questions db) (practiceSessions db ++ [session])
            (practiceAnswers db)).

(** [submitAnswer]; the judgment is [isCorrect] above. The submitted
    array is sorted in place before it is stored, so that what is stored
    is the sorted array. *)
Definition submitAnswer (dto : SubmitAnswerDto) (db : Db)
  : outcome AnswerResult * Db :=
  match findSession db (sessionId dto) with
  | None => (Thrown SessionNotFound, db)
  | Some session =>
    if s_isCompleted session then (Thrown SessionAlreadyCompleted, db)
    else
      match findQuestion db (questionId dto) with
      | None => (Thrown QuestionNotFound, db)
      | Some question =>
        match findAnswer db (sessionId dto) (questionId dto) with
        | Some _ => (Thrown AnswerAlreadySubmitted, db)
        | None =>
          let correctAnswerLabels := sort (q_correctAnswers question) in
          let selectedLabels := sort (selectedChoices dto) in
          let isCorrect :=
            isCorrect (q_correctAnswers question) (selectedChoices dto) in
          let db :=
            mkDb (questionSets db) (questions db) (practiceSessions db)
                 (practiceAnswers db ++ [mkAnswer (sessionId dto) (questionId dto)
                                          selectedLabels isCorrect]) in
          let currentScore :=
            (s_score session + (if isCorrect then 1 else 0))%Z in
          let db :=
            updateSession db (sessionId dto)
              (fun s => mkSession (s_id s) (s_questionSetId s) (s_userId s)
                                  currentScore (s_totalQuestions s)
                                  (s_isCompleted s) (s_endedAt s)) in
          (Done (mkAnswerResult isCorrect correctAnswerLabels
                                (q_explanation question) currentScore
                                (s_totalQuestions session)),
           db)
        end
      end
  end.

(** [completePractice]; [now] is the value of [new Date()]. *)
Definition completePractice (now : Z) (id : jsstring) (db : Db)
  : outcome Session * Db :=
  match findSession db id with
  | None => (Thrown SessionNotFound, db)
  | Some session =>
    if s_isCompleted session then (Thrown SessionAlreadyCompleted, db)
    else
      let completed s :=
        mkSession (s_id s) (s_questionSetId s) (s_userId s) (s_score s)
                  (s_totalQuestions s) true (Some now) in
      (Done (completed session), updateSession db id completed)
  end.

End PracticeService.

Import PracticeService.

(* ================================================================== *)
(** * Facts about the practice service *)
(* ================================================================== *)

Lemma find_map_same_test {A} (p : A -> bool) (g : A -> A) (l : list A) :
  (forall a, p (g a) = p a) ->
  find p (map g l) = option_map g (find p l).
Proof.
  intros H. induction l as [|a l IH]; [reflexivity|].
  cbn [map find]. rewrite H. destruct (p a); [reflexivity|exact IH].
Qed.

(** What an update of the session [id] does to a later look-up. *)
Lemma findSession_updateSession db id data id' :
  (forall s, s_id (data s) = s_id s) ->
  findSession (updateSession db id data) id' =
  option_map (fun s => if eqb (s_id s) id then data s else s)
             (findSession db id').
Proof.
  intros H. unfold findSession, updateSession. cbn [practiceSessions].
  apply find_map_same_test. intros s.
  destruct (eqb (s_id s) id); [now rewrite H|reflexivity].
Qed.

Lemma findSession_id db id s : findSession db id = Some s -> s_id s = id.
Proof.
  unfold findSession. intros H. apply find_some in H. now apply eqb_eq.
Qed.


Lemma find_app_some {A} (p : A -> bool) (l1 l2 : list A) a :
  find p l1 = Some a -> find p (l1 ++ l2) = Some a.
Proof.
  induction l1 as [|b l1 IH]; [discriminate|].
  cbn [find app]. destruct (p b); [trivial|exact IH].
Qed.

(** The successful run of [submitAnswer], spelled out. *)
Lemma submitAnswer_Done dto db r db' :
  submitAnswer dto db = (Done r, db') ->
  exists session question,
    findSession db (sessionId dto) = Some session /\
    s_isCompleted session = false /\
    findQuestion db (questionId dto) = Some question /\
    findAnswer db (sessionId dto) (questionId dto) = None /\
    let correct := isCorrect (q_correctAnswers question) (selectedChoices dto) in
    let currentScore := (s_score session + (if correct then 1 else 0))%Z in
    r = mkAnswerResult correct (sort (q_correctAnswers question))
                       (q_explanation question) currentScore
                       (s_totalQuestions session) /\
    db' = updateSession
            (mkDb (questionSets db) (questions db) (practiceSessions db)
                  (practiceAnswers db ++ [mkAnswer (sessionId dto) (questionId dto)
                                           (sort (selectedChoices dto)) correct]))
            (sessionId dto)
            (fun s => mkSession (s_id s) (s_questionSetId s) (s_userId s)
                                currentScore (s_totalQuestions s)
                                (s_isCompleted s) (s_endedAt s)).
Proof.
  unfold submitAnswer.
  destruct (findSession db (sessionId dto)) as [session|]; [|discriminate].
  destruct (s_isCompleted session) eqn:Ec; [discriminate|].
  destruct (findQuestion db (questionId dto)) as [question|]; [|discriminate].
  destruct (findAnswer db (sessionId dto) (questionId dto)); [discriminate|].
  intros E. injection E as <- <-.
  exists session, question. repeat split; trivial.
Qed.

Lemma submitAnswer_Thrown dto db e db' :
  submitAnswer dto db = (Thrown e, db') -> db' = db.
Proof.
  unfold submitAnswer.
  destruct (findSession db (sessionId dto)) as [session|];
    [|intros E; now injection E].
  destruct (s_isCompleted session); [intros E; now injection E|].
  destruct (findQuestion db (questionId dto)) as [question|];
    [|intros E; now injection E].
  destruct (findAnswer db (sessionId dto) (questionId dto));
    [intros E; now injection E|discriminate].
Qed.

Lemma completePractice_Done now id db s db' :
  completePractice now id db = (Done s, db') ->
  exists session,
    findSession db id = Some session /\
    s_isCompleted session = false /\
    s = mkSession (s_id session) (s_questionSetId session) (s_userId session)
                  (s_score session) (s_totalQuestions session) true (Some now) /\
    db' = updateSession db id
            (fun s => mkSession (s_id s) (s_questionSetId s) (s_userId s)
                                (s_score s) (s_totalQuestions s) true
                                (Some now)).
Proof.
  unfold completePractice.
  destruct (findSession db id) as [session|]; [|discriminate].
  destruct (s_isCompleted session) eqn:Ec; [discriminate|].
  intros E. injection E as <- <-. exists session. repeat split; trivial.
Qed.



(** X27: what an accepted answer does. The answer is judged correct
    exactly when the selected labels are a permutation of the stored
    ones; the returned score is the session's score plus one for a
    correct answer and the same score otherwise, and it is the score
    the session then has in the database; the correct answers are
    returned sorted; the selection is stored sorted, with the judgment;
    and the session is still open. *)
Theorem accepted_answer_updates_score dto db r db'
  (H : submitAnswer dto db = (Done r, db')) :
  exists session question,
    findSession db (sessionId dto) = Some session /\
    findQuestion db (questionId dto) = Some question /\
    (res_isCorrect r = true <->
       Permutation (q_correctAnswers question) (selectedChoices dto)) /\
    (res_isCorrect r = true -> res_score r = (s_score session + 1)%Z) /\
    (res_isCorrect r = false -> res_score r = s_score session) /\
    res_correctAnswers r = sort (q_correctAnswers question) /\
    res_explanation r = q_explanation question /\
    res_totalQuestions r = s_totalQuestions session /\
    (exists after,
       findSession db' (sessionId dto) = Some after /\
       s_score after = res_score r /\
       s_isCompleted after = false /\
       s_totalQuestions after = s_totalQuestions session) /\
    practiceAnswers db' =
      practiceAnswers db ++ [mkAnswer (sessionId dto) (questionId dto)
                              (sort (selectedChoices dto)) (res_isCorrect r)].
Proof.
  destruct (submitAnswer_Done _ _ _ _ H)
    as (session & question & Hs & Hc & Hq & Ha & -> & ->).
  exists session, question.
  cbn [res_isCorrect res_score res_correctAnswers res_explanation
       res_totalQuestions].
  split; [exact Hs|]. split; [exact Hq|].
  split; [apply isCorrect_iff|].
  split; [now intros ->|]. split; [intros ->; lia|].
  repeat split.
  rewrite findSession_updateSession by reflexivity.
  unfold findSession at 1. cbn [practiceSessions]. fold (findSession db (sessionId dto)).
  rewrite Hs. cbn [option_map].
  rewrite (findSession_id _ _ _ Hs), eqb_refl.
  eexists. split; [reflexivity|]. cbn [s_score s_isCompleted s_totalQuestions].
  now repeat split.
Qed.

(** X28: a refused call changes nothing. Whenever [startPractice],
    [submitAnswer] or [completePractice] throws, the database is as it
    was; and [submitAnswer] tests the session before the question: an
    unknown session is reported as such, and a completed one as
    completed, whatever the question. *)
Theorem refused_calls_change_nothing db :
  (forall newId dto e db',
     startPractice newId dto db = (Thrown e, db') -> db' = db) /\
  (forall dto e db', submitAnswer dto db = (Thrown e, db') -> db' = db) /\
  (forall now id e db',
     completePractice now id db = (Thrown e, db') -> db' = db) /\
  (forall dto, findSession db (sessionId dto) = None ->
     submitAnswer dto db = (Thrown SessionNotFound, db)) /\
  (forall dto s, findSession db (sessionId dto) = Some s ->
     s_isCompleted s = true ->
     submitAnswer dto db = (Thrown SessionAlreadyCompleted, db)).
Proof.
  repeat split.
  - intros newId dto e db'. unfold startPractice.
    destruct (negb _); [intros E; now injection E|].
    destruct (_ =? _)%nat; [intros E; now injection E|discriminate].
  - intros dto e db'. apply submitAnswer_Thrown.
  - intros now id e db'. unfold completePractice.
    destruct (findSession db id) as [s|]; [|intros E; now injection E].
    destruct (s_isCompleted s); [intros E; now injection E|discriminate].
  - intros dto Hs. unfold submitAnswer. now rewrite Hs.
  - intros dto s Hs Hc. unfold submitAnswer. now rewrite Hs, Hc.
Qed.

(** ** What holds of every database the service can produce *)

Definition sessionIds (db : Db) : list jsstring := map s_id (practiceSessions db).

(** The answers of a session that were judged correct, counted. *)
Definition correctCount (db : Db) (id : jsstring) : Z :=
  Z.of_nat (List.length
              (filter (fun a => eqb (a_sessionId a) id && a_isCorrect a)
                      (practiceAnswers db))).

(** The questions a session has an answer to, in the order of the answers. *)
Definition answeredBy (db : Db) (id : jsstring) : list jsstring :=
  map a_questionId (filter (fun a => eqb (a_sessionId a) id) (practiceAnswers db)).

Definition questionsOfSet (db : Db) (set : jsstring) : list Question :=
  filter (fun q => eqb (q_questionSetId q) set) (questions db).

(** The databases reached from [initial] by calls of the service; the
    identifier the database gives a new session is one no session has. *)
Inductive reachable (initial : Db) : Db -> Prop :=
| reach_initial : reachable initial initial
| reach_start db newId dto :
    reachable initial db -> ~ In newId (sessionIds db) ->
    reachable initial (snd (startPractice newId dto db))
| reach_submit db dto :
    reachable initial db -> reachable initial (snd (submitAnswer dto db))
| reach_complete db now id :
    reachable initial db -> reachable initial (snd (completePractice now id db)).

Record consistent (db : Db) : Prop := mkConsistent {
  session_ids_unique : NoDup (sessionIds db);
  answers_have_session :
    forall a, In a (practiceAnswers db) -> In (a_sessionId a) (sessionIds db);
  answers_have_question :
    forall a, In a (practiceAnswers db) ->
      In (a_questionId a) (map q_id (questions db));
  one_answer_per_question : forall id, NoDup (answeredBy db id);
  score_counts_correct :
    forall s, In s (practiceSessions db) -> s_score s = correctCount db (s_id s);
  total_counts_questions :
    forall s, In s (practiceSessions db) ->
      s_totalQuestions s =
        Z.of_nat (List.length (questionsOfSet db (s_questionSetId s))) /\
      (0 < s_totalQuestions s)%Z
}.

Lemma findSession_In db id s : findSession db id = Some s -> In s (practiceSessions db).
Proof. unfold findSession. intros H. now apply find_some in H. Qed.

Lemma findQuestion_In db id q :
  findQuestion db id = Some q -> In id (map q_id (questions db)).
Proof.
  unfold findQuestion. intros H. apply find_some in H. destruct H as [H E].
  apply eqb_eq in E. subst id. now apply in_map.
Qed.

Lemma findAnswer_None db session question :
  findAnswer db session question = None -> ~ In question (answeredBy db session).
Proof.
  unfold findAnswer, answeredBy. intros H Hin.
  apply in_map_iff in Hin. destruct Hin as (a & <- & Ha).
  apply filter_In in Ha. destruct Ha as [Ha E].
  pose proof (find_none _ _ H a Ha) as F. cbn beta in F.
  now rewrite E, eqb_refl in F.
Qed.

Lemma correctCount_none db id :
  (forall a, In a (practiceAnswers db) -> In (a_sessionId a) (sessionIds db)) ->
  ~ In id (sessionIds db) -> correctCount db id = 0%Z.
Proof.
  intros Hfk Hid. unfold correctCount.
  replace (filter _ (practiceAnswers db)) with (@nil Answer); [reflexivity|].
  symmetry. induction (practiceAnswers db) as [|a l IH]; [reflexivity|].
  cbn [filter]. destruct (eqb (a_sessionId a) id) eqn:E.
  - apply eqb_eq in E. subst id. exfalso. apply Hid, Hfk. now left.
  - cbn [andb]. apply IH. intros b Hb. apply Hfk. now right.
Qed.

Lemma startPractice_consistent newId dto db :
  consistent db -> ~ In newId (sessionIds db) ->
  consistent (snd (startPractice newId dto db)).
Proof.
  intros [I1 I2 I3 I4 I5 I6] Hfresh. unfold startPractice.
  destruct (negb _); [now constructor|].
  fold (questionsOfSet db (start_questionSetId dto)).
  destruct (_ =? _)%nat eqn:En; [now constructor|].
  apply Nat.eqb_neq in En. cbn [snd].
  constructor; unfold sessionIds, answeredBy, correctCount, questionsOfSet;
    cbn [practiceSessions practiceAnswers questions].
  - rewrite map_app. cbn [map s_id].
    apply NoDup_app; [exact I1|repeat constructor; intros []|].
    intros x Hx [<-|[]]. now apply Hfresh.
  - intros a Ha. rewrite map_app. apply in_or_app. left. now apply I2.
  - exact I3.
  - exact I4.
  - intros s Hs. apply in_app_or in Hs. destruct Hs as [Hs|[<-|[]]].
    + now apply I5.
    + cbn [s_score s_id]. symmetry. now apply correctCount_none.
  - intros s Hs. apply in_app_or in Hs. destruct Hs as [Hs|[<-|[]]].
    + now apply I6.
    + cbn [s_totalQuestions s_questionSetId].
      fold (questionsOfSet db (start_questionSetId dto)). split; [reflexivity|lia].
Qed.

Lemma sessionIds_updateSession db id data :
  (forall s, s_id (data s) = s_id s) ->
  sessionIds (updateSession db id data) = sessionIds db.
Proof.
  intros H. unfold sessionIds, updateSession. cbn [practiceSessions].
  rewrite map_map. apply map_ext. intros s.
  destruct (eqb (s_id s) id); [apply H|reflexivity].
Qed.

Lemma completePractice_consistent now id db :
  consistent db -> consistent (snd (completePractice now id db)).
Proof.
  intros C. destruct (completePractice now id db) as [[s|e] db'] eqn:E.
  - destruct (completePractice_Done _ _ _ _ _ E) as (session & _ & _ & _ & ->).
    destruct C as [I1 I2 I3 I4 I5 I6]. cbn [snd].
    constructor;
      try (rewrite sessionIds_updateSession by reflexivity); trivial.
    + intros s' Hs'. cbn [updateSession practiceSessions] in Hs'.
      apply in_map_iff in Hs'. destruct Hs' as (s0 & <- & Hs0).
      unfold correctCount. cbn [updateSession practiceAnswers].
      destruct (eqb (s_id s0) id); [cbn [s_score s_id]|]; now apply I5.
    + intros s' Hs'. cbn [updateSession practiceSessions] in Hs'.
      apply in_map_iff in Hs'. destruct Hs' as (s0 & <- & Hs0).
      unfold questionsOfSet. cbn [updateSession questions].
      destruct (eqb (s_id s0) id);
        [cbn [s_totalQuestions s_questionSetId]|]; now apply I6.
  - cbn [snd]. unfold completePractice in E.
    destruct (findSession db id) as [s|]; [|now injection E as _ <-].
    destruct (s_isCompleted s); [now injection E as _ <-|discriminate].
Qed.

Lemma submitAnswer_consistent dto db :
  consistent db -> consistent (snd (submitAnswer dto db)).
Proof.
  intros C. destruct (submitAnswer dto db) as [[r|e] db'] eqn:E.
  2:{ cbn [snd]. now rewrite (submitAnswer_Thrown _ _ _ _ E). }
  destruct (submitAnswer_Done _ _ _ _ E)
    as (session & question & Hs & Hc & Hq & Ha & _ & ->).
  destruct C as [I1 I2 I3 I4 I5 I6]. cbn [snd].
  set (correct := isCorrect (q_correctAnswers question) (selectedChoices dto)).
  constructor; try (rewrite sessionIds_updateSession by reflexivity).
  - exact I1.
  - cbn [updateSession practiceAnswers sessionIds practiceSessions]. intros a Hin.
    apply in_app_or in Hin. destruct Hin as [Hin|[<-|[]]]; [now apply I2|].
    cbn [a_sessionId]. rewrite <- (findSession_id _ _ _ Hs).
    apply in_map. exact (findSession_In _ _ _ Hs).
  - cbn [updateSession practiceAnswers questions]. intros a Hin.
    apply in_app_or in Hin. destruct Hin as [Hin|[<-|[]]]; [now apply I3|].
    cbn [a_questionId]. exact (findQuestion_In _ _ _ Hq).
  - intros id. unfold answeredBy. cbn [updateSession practiceAnswers].
    rewrite filter_app, map_app. cbn [filter a_sessionId].
    destruct (eqb (sessionId dto) id) eqn:Eid.
    + apply eqb_eq in Eid. subst id. cbn [map a_questionId].
      apply NoDup_app; [apply I4|repeat constructor; intros []|].
      intros x Hx [<-|[]]. exact (findAnswer_None _ _ _ Ha Hx).
    + cbn [map]. rewrite app_nil_r. apply I4.
  - intros s' Hs'. cbn [updateSession practiceSessions] in Hs'.
    apply in_map_iff in Hs'. destruct Hs' as (s0 & <- & Hs0).
    unfold correctCount. cbn [updateSession practiceAnswers].
    rewrite filter_app, length_app, Nat2Z.inj_add.
    cbn [filter a_sessionId a_isCorrect].
    destruct (eqb (s_id s0) (sessionId dto)) eqn:Eid.
    + cbn [s_score s_id]. apply eqb_eq in Eid. rewrite Eid, eqb_refl.
      cbn [andb]. rewrite (I5 _ (findSession_In _ _ _ Hs)).
      rewrite (findSession_id _ _ _ Hs). unfold correctCount.
      now destruct correct.
    + assert (Eid' : eqb (sessionId dto) (s_id s0) = false).
      { apply eqb_neq. apply eqb_neq in Eid. congruence. }
      rewrite Eid'. cbn [andb List.length]. rewrite (I5 _ Hs0).
      unfold correctCount. lia.
  - intros s' Hs'. cbn [updateSession practiceSessions] in Hs'.
    apply in_map_iff in Hs'. destruct Hs' as (s0 & <- & Hs0).
    unfold questionsOfSet. cbn [updateSession questions].
    destruct (eqb (s_id s0) (sessionId dto));
      [cbn [s_totalQuestions s_questionSetId]|]; now apply I6.
Qed.

Lemma reachable_questions initial db :
  reachable initial db ->
  questions db = questions initial /\ questionSets db = questionSets initial.
Proof.
  induction 1 as [|db newId dto _ IH _|db dto _ IH|db now id _ IH];
    [now split|..].
  - unfold startPractice. destruct (negb _); [exact IH|].
    destruct (_ =? _)%nat; exact IH.
  - unfold submitAnswer.
    destruct (findSession db (sessionId dto)) as [s|]; [|exact IH].
    destruct (s_isCompleted s); [exact IH|].
    destruct (findQuestion db (questionId dto)); [|exact IH].
    destruct (findAnswer db (sessionId dto) (questionId dto)); exact IH.
  - unfold completePractice.
    destruct (findSession db id) as [s|]; [|exact IH].
    destruct (s_isCompleted s); exact IH.
Qed.

Lemma reachable_consistent initial db :
  consistent initial -> reachable initial db -> consistent db.
Proof.
  intros C. induction 1.
  - exact C.
  - now apply startPractice_consistent.
  - now apply submitAnswer_consistent.
  - now apply completePractice_consistent.
Qed.

Lemma initial_consistent sets qs : consistent (mkDb sets qs [] []).
Proof.
  constructor; cbn; try constructor; intros; contradiction.
Qed.

Lemma filter_length_le {A} (p q : A -> bool) (l : list A) :
  (List.length (filter (fun a => p a && q a) l) <=
   List.length (filter p l))%nat.
Proof.
  induction l as [|a l IH]; [apply Nat.le_refl|].
  cbn [filter]. destruct (p a), (q a); cbn [andb List.length]; lia.
Qed.

(** X29: the score is the number of correct answers. In every database
    reached from one without sessions and answers by calls of
    [startPractice], [submitAnswer] and [completePractice], each session
    has an identifier of its own, at most one answer to a question, and
    a score that is the number of its answers judged correct: between 0
    and the number of questions it answered, itself at most the number
    of questions in the database; its question count is the positive
    number of questions of its question set. The service adds and
    removes no question. *)
Theorem score_counts_correct_answers sets qs db
  (H : reachable (mkDb sets qs [] []) db) :
  questions db = qs /\
  NoDup (sessionIds db) /\
  forall s, In s (practiceSessions db) ->
    NoDup (answeredBy db (s_id s)) /\
    s_score s = correctCount db (s_id s) /\
    (0 <= s_score s <= Z.of_nat (List.length (answeredBy db (s_id s))))%Z /\
    (List.length (answeredBy db (s_id s)) <= List.length qs)%nat /\
    s_totalQuestions s =
      Z.of_nat (List.length (questionsOfSet db (s_questionSetId s))) /\
    (0 < s_totalQuestions s)%Z.
Proof.
  destruct (reachable_questions _ _ H) as [Hq _]. cbn [questions] in Hq.
  destruct (reachable_consistent _ _ (initial_consistent sets qs) H)
    as [I1 I2 I3 I4 I5 I6].
  split; [exact Hq|]. split; [exact I1|].
  intros s Hs. split; [apply I4|]. split; [now apply I5|].
  split; [|split; [|now apply I6]].
  - rewrite (I5 _ Hs). unfold correctCount, answeredBy. rewrite length_map.
    split; [lia|]. apply inj_le. apply filter_length_le.
  - rewrite <- (length_map q_id qs). apply NoDup_incl_length; [apply I4|].
    intros q Hin. rewrite <- Hq. unfold answeredBy in Hin.
    apply in_map_iff in Hin. destruct Hin as (a & <- & Ha).
    apply filter_In in Ha. now apply I3.
Qed.

(** A database with one question set of two questions, and a run of the
    service on it. *)
Definition sampleQuestions : list Question :=
  [mkQuestion (js "q1") (js "set") [js "B"; js "A"] (Some (js "vì thế"));
   mkQuestion (js "q2") (js "set") [js "True"] None].

Definition sampleDb : Db := mkDb [js "set"] sampleQuestions [] [].

Definition started : Db :=
  snd (startPractice (js "s1") (mkStartDto (js "set") None) sampleDb).

Definition firstAnswer : SubmitAnswerDto :=
  mkSubmitDto (js "s1") (js "q1") [js "A"; js "B"].

Definition answered : Db := snd (submitAnswer firstAnswer started).


Definition completed : outcome Session * Db :=
  completePractice 1700000000000 (js "s1") answered.


Lemma accepted_answer_updates_score_witness :
  exists session question,
    findSession started (js "s1") = Some session /\
    findQuestion started (js "q1") = Some question /\
    s_score session = 0%Z /\
    q_correctAnswers question = [js "B"; js "A"] /\
    practiceAnswers answered = [mkAnswer (js "s1") (js "q1") [js "A"; js "B"] true].
Proof.
  destruct (accepted_answer_updates_score firstAnswer started
              (mkAnswerResult true [js "A"; js "B"] (Some (js "vì thế")) 1 2)
              answered ltac:(vm_compute; reflexivity))
    as (session & question & Hs & Hq & _ & _ & _ & _ & _ & _ & _ & Ha).
  exists session, question. split; [exact Hs|]. split; [exact Hq|].
  vm_compute in Hs, Hq. injection Hs as <-. injection Hq as <-.
  split; [reflexivity|]. split; [reflexivity|]. exact Ha.
Defined.

Lemma score_counts_correct_answers_witness :
  reachable sampleDb answered /\
  forall s, In s (practiceSessions answered) ->
    s_score s = correctCount answered (s_id s) /\
    (0 <= s_score s <= Z.of_nat (List.length (answeredBy answered (s_id s))))%Z.
Proof.
  assert (R : reachable sampleDb answered).
  { apply reach_submit, reach_start; [apply reach_initial|intros []]. }
  split; [exact R|].
  intros s Hs.
  destruct (score_counts_correct_answers [js "set"] sampleQuestions answered R)
    as (_ & _ & H).
  destruct (H s Hs) as (_ & H1 & H2 & _). now split.
Defined.
